(** * hipDNN execution provider: capability matching, graph translation,
      kernel compilation and execution

    A shallow embedding of [src/ep_utils.cc], [include/hipdnn_ep/ep_utils.h],
    [src/ep.cc] and [src/kernel.cc], and of [src/node_compute_info.cc],
    [src/ep_allocator.cc], [src/ep_data_transfer.cc] and
    [src/ep_factory.cc].

    Conventions.
    - [int64_t] values are [Z]; where the code does arithmetic on them
      ([next_uid_++], the products of [ComputeStrides]) the 64-bit
      wrap-around is written out.
    - Calls into the ONNX Runtime C++ API that report failure by throwing are
      functions into [Exc]; calls that report failure through a returned
      status ([GetAttributeByName], [GetValue]) return that status.
    - [std::shared_ptr<TensorAttributes>] is an index into a store of tensor
      attributes, so that the symbol table and the vendor graph alias the
      same objects, as they do in the code.
    - Undefined behaviour of the C++ code (reading a [std::vector] past its
      end) is an outcome of its own, [Undefined]. *)

From stdpp Require Import base gmap list strings pretty sorting.
From Stdlib Require Import ZArith Lia.

Local Open Scope string_scope.
Local Open Scope list_scope.

(* stdpp's solvers clear hypotheses that may already be gone. *)
#[local] Set Warnings "-clear-no-such-hyp".

(** ** Exceptions and statuses *)

(** The two families of exceptions the code distinguishes in its handlers. *)
Inductive exn :=
| OrtException (code : Z) (msg : string)
| StdException (msg : string).

Definition what (e : exn) : string :=
  match e with
  | OrtException _ m => m
  | StdException m => m
  end.

Inductive Exc (A : Type) :=
| Val (a : A)
| Raise (e : exn).
Arguments Val {A} a.
Arguments Raise {A} e.

Definition exc_bind {A B} (c : Exc A) (f : A → Exc B) : Exc B :=
  match c with
  | Val a => f a
  | Raise e => Raise e
  end.

Declare Scope exc_scope.
Delimit Scope exc_scope with exc.
Notation "'let*' x := c 'in' k" := (exc_bind c (λ x, k))
  (at level 10, x name, c at level 100, k at level 200) : exc_scope.

(** [OrtStatus*]: [nullptr] is success, anything else carries a code and a
    message. *)
Definition ORT_EP_FAIL : Z := 11.

Inductive OrtStatus :=
| StatusOK
| StatusError (code : Z) (msg : string).

Definition IsOK (s : OrtStatus) : bool :=
  match s with StatusOK => true | StatusError _ _ => false end.

(** [Ort::Status status(ex)] for an [Ort::Exception]. *)
Definition StatusOfOrtException (code : Z) (msg : string) : OrtStatus :=
  StatusError code msg.

(** ** The host graph, as seen through the ONNX Runtime accessors *)

Definition ONNX_TYPE_TENSOR : Z := 1.
Definition ONNX_TENSOR_ELEMENT_DATA_TYPE_UNDEFINED : Z := 0.
Definition ONNX_TENSOR_ELEMENT_DATA_TYPE_FLOAT : Z := 1.
Definition ONNX_TENSOR_ELEMENT_DATA_TYPE_FLOAT16 : Z := 10.

Record TensorTypeAndShapeInfo := {
  GetElementType : Exc Z;
  GetShape : Exc (list Z)
}.

Record TypeInfo := {
  GetONNXType : Exc Z;
  GetTensorTypeAndShapeInfo : Exc TensorTypeAndShapeInfo
}.

Record ValueInfo := {
  vi_GetName : Exc string;
  vi_TypeInfo : Exc TypeInfo
}.

(** An operator attribute, as far as the three typed reads go: each read
    either yields a value or a status that is not OK ([None]). *)
Record OpAttr := {
  GetValue_string : option string;
  GetValue_int : option Z;
  GetValueArray_ints : option (list Z)
}.

(** [GetAttributeByName] returns a status and sets the attribute pointer,
    which may stay null. *)
Record Node := {
  node_GetName : Exc string;
  GetOperatorType : Exc string;
  node_GetInputs : Exc (list ValueInfo);
  node_GetOutputs : Exc (list ValueInfo);
  GetAttributeByName : string → OrtStatus * option OpAttr
}.

Record Graph := {
  graph_GetInputs : Exc (list ValueInfo);
  graph_GetOutputs : Exc (list ValueInfo);
  graph_GetNodes : Exc (list Node)
}.

(** ** ep_utils.h: tensor descriptor readers *)

Definition GetTensorShape (value_info : ValueInfo) : Exc (option (list Z)) :=
  (let* type_info := vi_TypeInfo value_info in
   let* onnx_type := GetONNXType type_info in
   if bool_decide (onnx_type ≠ ONNX_TYPE_TENSOR) then Val None
   else
     let* type_shape := GetTensorTypeAndShapeInfo type_info in
     let* shape := GetShape type_shape in
     Val (Some shape))%exc.

Definition GetTensorElementType (value_info : ValueInfo) : Exc Z :=
  (let* type_info := vi_TypeInfo value_info in
   let* onnx_type := GetONNXType type_info in
   if bool_decide (onnx_type ≠ ONNX_TYPE_TENSOR)
   then Val ONNX_TENSOR_ELEMENT_DATA_TYPE_UNDEFINED
   else
     let* type_shape := GetTensorTypeAndShapeInfo type_info in
     GetElementType type_shape)%exc.

(** ** ep_utils.cc: typed attribute readers with defaults *)

Definition GetStringAttrOrDefault (node : Node) (name : string)
    (default_val : string) : string :=
  let '(status, attr) := GetAttributeByName node name in
  match attr with
  | Some a =>
      if negb (IsOK status) then default_val
      else match GetValue_string a with
           | Some value => value
           | None => default_val
           end
  | None => default_val
  end.

Definition GetIntAttrOrDefault (node : Node) (name : string)
    (default_val : Z) : Z :=
  let '(status, attr) := GetAttributeByName node name in
  match attr with
  | Some a =>
      if negb (IsOK status) then default_val
      else match GetValue_int a with
           | Some value => value
           | None => default_val
           end
  | None => default_val
  end.

Definition GetIntsAttrOrDefault (node : Node) (name : string)
    (default_val : list Z) : list Z :=
  let '(status, attr) := GetAttributeByName node name in
  match attr with
  | Some a =>
      if negb (IsOK status) then default_val
      else match GetValueArray_ints a with
           | Some value => value
           | None => default_val
           end
  | None => default_val
  end.

(** ** ep.cc: the capability predicate *)

(** The body of the [try] block of [IsSupportedConv]. The size test of the
    code guards the reads of [inputs[0]], [inputs[1]] and [outputs[0]]; the
    pattern match below is that test together with those reads. *)
Definition IsSupportedConv_try (node : Node) : Exc bool :=
  (let* inputs := node_GetInputs node in
   let* outputs := node_GetOutputs node in
   match inputs, outputs with
   | x :: w :: _, [y] =>
       let* x_type := GetTensorElementType x in
       let* w_type := GetTensorElementType w in
       let* y_type := GetTensorElementType y in
       let supported_type :=
         (bool_decide (x_type = ONNX_TENSOR_ELEMENT_DATA_TYPE_FLOAT)
          || bool_decide (x_type = ONNX_TENSOR_ELEMENT_DATA_TYPE_FLOAT16))
         && bool_decide (x_type = w_type) && bool_decide (x_type = y_type) in
       if negb supported_type then Val false
       else
         let* x_shape := GetTensorShape x in
         let* w_shape := GetTensorShape w in
         match x_shape, w_shape with
         | Some xs, Some ws =>
             if bool_decide (length xs ≠ 4%nat) || bool_decide (length ws ≠ 4%nat)
             then Val false
             else
               let auto_pad := GetStringAttrOrDefault node "auto_pad" "NOTSET" in
               if bool_decide (auto_pad ≠ "NOTSET") then Val false
               else
                 let group := GetIntAttrOrDefault node "group" 1 in
                 if bool_decide (group ≠ 1%Z) then Val false
                 else
                   let dilations :=
                     GetIntsAttrOrDefault node "dilations" [1%Z; 1%Z] in
                   if bool_decide (length dilations ≠ 2%nat)
                      || bool_decide (dilations !! 0%nat ≠ Some 1%Z)
                      || bool_decide (dilations !! 1%nat ≠ Some 1%Z)
                   then Val false
                   else Val true
         | _, _ => Val false
         end
   | _, _ => Val false
   end)%exc.

(** [try { ... } catch (...) { return false; }] *)
Definition IsSupportedConv (node : Node) : bool :=
  match IsSupportedConv_try node with
  | Val b => b
  | Raise _ => false
  end.

(** [IsSupportedOp] reads the operator type outside any handler. *)
Definition IsSupportedOp (node : Node) : Exc bool :=
  (let* op_type := GetOperatorType node in
   if bool_decide (op_type = "Conv") then Val (IsSupportedConv node)
   else Val false)%exc.

(** ** The vendor graph library, at the boundary the kernel uses *)

Inductive DataType := NOT_SET | FLOAT | HALF.

Global Instance DataType_eq_dec : EqDecision DataType.
Proof. solve_decision. Defined.

Inductive ConvolutionMode := CROSS_CORRELATION | CONVOLUTION.

Inductive HeuristicMode := FALLBACK.

(** [hipdnn_frontend::graph::TensorAttributes]. A fresh object has no uid and
    is not virtual. *)
Record TensorAttributes := {
  ta_uid : Z;
  ta_uid_assigned : bool;
  ta_name : string;
  ta_data_type : DataType;
  ta_dim : list Z;
  ta_stride : list Z;
  ta_is_virtual : bool
}.

Definition new_TensorAttributes : TensorAttributes :=
  {| ta_uid := 0; ta_uid_assigned := false; ta_name := "";
     ta_data_type := NOT_SET; ta_dim := []; ta_stride := [];
     ta_is_virtual := false |}.

Definition set_uid (uid : Z) (a : TensorAttributes) : TensorAttributes :=
  {| ta_uid := uid; ta_uid_assigned := true; ta_name := ta_name a;
     ta_data_type := ta_data_type a; ta_dim := ta_dim a;
     ta_stride := ta_stride a; ta_is_virtual := ta_is_virtual a |}.

Definition set_name (name : string) (a : TensorAttributes) : TensorAttributes :=
  {| ta_uid := ta_uid a; ta_uid_assigned := ta_uid_assigned a; ta_name := name;
     ta_data_type := ta_data_type a; ta_dim := ta_dim a;
     ta_stride := ta_stride a; ta_is_virtual := ta_is_virtual a |}.

Definition set_data_type (d : DataType) (a : TensorAttributes) : TensorAttributes :=
  {| ta_uid := ta_uid a; ta_uid_assigned := ta_uid_assigned a;
     ta_name := ta_name a; ta_data_type := d; ta_dim := ta_dim a;
     ta_stride := ta_stride a; ta_is_virtual := ta_is_virtual a |}.

Definition set_dim (d : list Z) (a : TensorAttributes) : TensorAttributes :=
  {| ta_uid := ta_uid a; ta_uid_assigned := ta_uid_assigned a;
     ta_name := ta_name a; ta_data_type := ta_data_type a; ta_dim := d;
     ta_stride := ta_stride a; ta_is_virtual := ta_is_virtual a |}.

Definition set_stride (s : list Z) (a : TensorAttributes) : TensorAttributes :=
  {| ta_uid := ta_uid a; ta_uid_assigned := ta_uid_assigned a;
     ta_name := ta_name a; ta_data_type := ta_data_type a; ta_dim := ta_dim a;
     ta_stride := s; ta_is_virtual := ta_is_virtual a |}.

Definition set_is_virtual (v : bool) (a : TensorAttributes) : TensorAttributes :=
  {| ta_uid := ta_uid a; ta_uid_assigned := ta_uid_assigned a;
     ta_name := ta_name a; ta_data_type := ta_data_type a; ta_dim := ta_dim a;
     ta_stride := ta_stride a; ta_is_virtual := v |}.

(** A [TensorAttrPtr] is the position of the object in the store. *)
Definition TensorAttrPtr := nat.

Record ConvFpropAttributes := {
  conv_padding : list Z;
  conv_stride : list Z;
  conv_dilation : list Z;
  conv_convolution_mode : ConvolutionMode;
  conv_compute_data_type : DataType
}.

(** One operation of the vendor graph, holding the shared tensor objects. *)
Record ConvFpropNode := {
  op_x : TensorAttrPtr;
  op_w : TensorAttrPtr;
  op_attrs : ConvFpropAttributes;
  op_y : TensorAttrPtr
}.

Record hipdnn_error := {
  is_bad : bool;
  get_message : string
}.

Inductive VoidPtr :=
| nullptr
| workspace_data
| raw_data (address : Z).

Global Instance VoidPtr_eq_dec : EqDecision VoidPtr.
Proof. solve_decision. Defined.

(** What the vendor sees of a graph: its operations and the tensor objects
    they point to. *)
Definition GraphView : Type := list ConvFpropNode * list TensorAttributes.

(** The calls made on the vendor graph object, with their arguments, in the
    order they are made. *)
Inductive VendorCall :=
| call_validate
| call_build_operation_graph (handle : Z)
| call_create_execution_plans (modes : list HeuristicMode)
| call_check_support
| call_build_plans
| call_get_workspace_size
| call_execute (handle : Z) (variant_pack : gmap Z VoidPtr) (workspace : VoidPtr).

(** A call together with what the library answered: the error object and,
    for [get_workspace_size], the size it wrote. *)
Record VendorEvent := {
  ev_call : VendorCall;
  ev_error : hipdnn_error;
  ev_workspace_size : option Z
}.

(** The vendor library is a parameter: each build stage sees the graph and
    the library's own state, and answers with an error object. *)
Record VendorApi (VS : Type) := {
  v_new_graph : VS;
  v_validate : GraphView → VS → hipdnn_error * VS;
  v_build_operation_graph : GraphView → Z → VS → hipdnn_error * VS;
  v_create_execution_plans :
    GraphView → list HeuristicMode → VS → hipdnn_error * VS;
  v_check_support : GraphView → VS → hipdnn_error * VS;
  v_build_plans : GraphView → VS → hipdnn_error * VS;
  v_get_workspace_size : GraphView → VS → hipdnn_error * Z * VS;
  v_execute :
    GraphView → Z → gmap Z VoidPtr → VoidPtr → VS → hipdnn_error * VS
}.
Arguments v_new_graph {VS} _.
Arguments v_validate {VS} _.
Arguments v_build_operation_graph {VS} _.
Arguments v_create_execution_plans {VS} _.
Arguments v_check_support {VS} _.
Arguments v_build_plans {VS} _.
Arguments v_get_workspace_size {VS} _.
Arguments v_execute {VS} _.

(** ** kernel.h: the kernel *)

Definition int64_wrap (z : Z) : Z := ((z + 2 ^ 63) mod 2 ^ 64 - 2 ^ 63)%Z.

Section Kernel.

Context {VS : Type} (vendor : VendorApi VS).

Record Kernel := {
  handle_ : Z;
  graph_ops : list ConvFpropNode;
  graph_state : VS;
  tensors : list TensorAttributes;
  workspace_ : list Z;
  input_uids_ : list Z;
  output_uids_ : list Z;
  output_shapes_ : list (list Z);
  symbol_table_ : gmap string TensorAttrPtr;
  next_uid_ : Z;
  vendor_calls : list VendorEvent
}.

(** [Kernel::Kernel]: empty vectors and tables, [next_uid_{1}]. The graph
    object is created by [BuildAndCompile]. *)
Definition new_Kernel (handle : Z) : Kernel :=
  {| handle_ := handle; graph_ops := []; graph_state := v_new_graph vendor;
     tensors := []; workspace_ := []; input_uids_ := []; output_uids_ := [];
     output_shapes_ := []; symbol_table_ := ∅; next_uid_ := 1;
     vendor_calls := [] |}.

Definition with_graph (ops : list ConvFpropNode) (vs : VS) (k : Kernel) : Kernel :=
  {| handle_ := handle_ k; graph_ops := ops; graph_state := vs;
     tensors := tensors k; workspace_ := workspace_ k;
     input_uids_ := input_uids_ k; output_uids_ := output_uids_ k;
     output_shapes_ := output_shapes_ k; symbol_table_ := symbol_table_ k;
     next_uid_ := next_uid_ k; vendor_calls := vendor_calls k |}.

Definition with_tensors (ts : list TensorAttributes) (k : Kernel) : Kernel :=
  {| handle_ := handle_ k; graph_ops := graph_ops k;
     graph_state := graph_state k;
     tensors := ts; workspace_ := workspace_ k;
     input_uids_ := input_uids_ k; output_uids_ := output_uids_ k;
     output_shapes_ := output_shapes_ k; symbol_table_ := symbol_table_ k;
     next_uid_ := next_uid_ k; vendor_calls := vendor_calls k |}.

Definition with_workspace (w : list Z) (k : Kernel) : Kernel :=
  {| handle_ := handle_ k; graph_ops := graph_ops k;
     graph_state := graph_state k;
     tensors := tensors k; workspace_ := w;
     input_uids_ := input_uids_ k; output_uids_ := output_uids_ k;
     output_shapes_ := output_shapes_ k; symbol_table_ := symbol_table_ k;
     next_uid_ := next_uid_ k; vendor_calls := vendor_calls k |}.

Definition with_input_uids (l : list Z) (k : Kernel) : Kernel :=
  {| handle_ := handle_ k; graph_ops := graph_ops k;
     graph_state := graph_state k;
     tensors := tensors k; workspace_ := workspace_ k;
     input_uids_ := l; output_uids_ := output_uids_ k;
     output_shapes_ := output_shapes_ k; symbol_table_ := symbol_table_ k;
     next_uid_ := next_uid_ k; vendor_calls := vendor_calls k |}.

Definition with_output_uids (l : list Z) (k : Kernel) : Kernel :=
  {| handle_ := handle_ k; graph_ops := graph_ops k;
     graph_state := graph_state k;
     tensors := tensors k; workspace_ := workspace_ k;
     input_uids_ := input_uids_ k; output_uids_ := l;
     output_shapes_ := output_shapes_ k; symbol_table_ := symbol_table_ k;
     next_uid_ := next_uid_ k; vendor_calls := vendor_calls k |}.

Definition with_output_shapes (l : list (list Z)) (k : Kernel) : Kernel :=
  {| handle_ := handle_ k; graph_ops := graph_ops k;
     graph_state := graph_state k;
     tensors := tensors k; workspace_ := workspace_ k;
     input_uids_ := input_uids_ k; output_uids_ := output_uids_ k;
     output_shapes_ := l; symbol_table_ := symbol_table_ k;
     next_uid_ := next_uid_ k; vendor_calls := vendor_calls k |}.

Definition with_symbol_table (m : gmap string TensorAttrPtr) (k : Kernel) : Kernel :=
  {| handle_ := handle_ k; graph_ops := graph_ops k;
     graph_state := graph_state k;
     tensors := tensors k; workspace_ := workspace_ k;
     input_uids_ := input_uids_ k; output_uids_ := output_uids_ k;
     output_shapes_ := output_shapes_ k; symbol_table_ := m;
     next_uid_ := next_uid_ k; vendor_calls := vendor_calls k |}.

Definition with_next_uid (u : Z) (k : Kernel) : Kernel :=
  {| handle_ := handle_ k; graph_ops := graph_ops k;
     graph_state := graph_state k;
     tensors := tensors k; workspace_ := workspace_ k;
     input_uids_ := input_uids_ k; output_uids_ := output_uids_ k;
     output_shapes_ := output_shapes_ k; symbol_table_ := symbol_table_ k;
     next_uid_ := u; vendor_calls := vendor_calls k |}.

Definition with_vendor_calls (l : list VendorEvent) (k : Kernel) : Kernel :=
  {| handle_ := handle_ k; graph_ops := graph_ops k;
     graph_state := graph_state k;
     tensors := tensors k; workspace_ := workspace_ k;
     input_uids_ := input_uids_ k; output_uids_ := output_uids_ k;
     output_shapes_ := output_shapes_ k; symbol_table_ := symbol_table_ k;
     next_uid_ := next_uid_ k; vendor_calls := l |}.

(** *** Control flow of a member function

    A member function either runs to its end, returns early with an error
    status ([RETURN_ERROR], and [RETURN_IF_ERROR] handing on the error of a
    callee), leaves by an exception, or has no defined behaviour. *)
Inductive Outcome (A : Type) :=
| Normal (a : A) (k : Kernel)
| Returned (code : Z) (msg : string) (k : Kernel)
| Thrown (e : exn) (k : Kernel)
| Undefined.
Arguments Normal {A} a k.
Arguments Returned {A} code msg k.
Arguments Thrown {A} e k.
Arguments Undefined {A}.

Definition KM (A : Type) : Type := Kernel → Outcome A.

Definition km_ret {A} (a : A) : KM A := λ k, Normal a k.

Definition km_bind {A B} (c : KM A) (f : A → KM B) : KM B :=
  λ k, match c k with
       | Normal a k' => f a k'
       | Returned code msg k' => Returned code msg k'
       | Thrown e k' => Thrown e k'
       | Undefined => Undefined
       end.

Definition RETURN_ERROR {A} (code : Z) (msg : string) : KM A :=
  λ k, Returned code msg k.

Definition undefined {A} : KM A := λ _, Undefined.

(** A throwing accessor called from a member function. *)
Definition call {A} (c : Exc A) : KM A :=
  λ k, match c with
       | Val a => Normal a k
       | Raise e => Thrown e k
       end.

Definition get {A} (f : Kernel → A) : KM A := λ k, Normal (f k) k.
Definition modify (f : Kernel → Kernel) : KM unit := λ k, Normal tt (f k).

End Kernel.

Arguments Kernel : clear implicits.
Arguments Outcome : clear implicits.
Arguments KM : clear implicits.
Arguments Normal {VS A} a k.
Arguments Returned {VS A} code msg k.
Arguments Thrown {VS A} e k.
Arguments Undefined {VS A}.

Declare Scope km_scope.
Delimit Scope km_scope with km.
Notation "'let*' x := c 'in' k" := (km_bind c (λ x, k))
  (at level 10, x name, c at level 100, k at level 200) : km_scope.
Notation "c ;; k" := (km_bind c (λ _, k))
  (at level 100, k at level 200, right associativity) : km_scope.

(** ** kernel.cc *)

(** [ComputeStrides]: the loop runs from the last dimension to the first,
    writing the running product before multiplying it by the dimension. *)
Definition ComputeStrides (shape : list Z) : list Z :=
  fst (foldr (λ d '(strides, stride),
                (stride :: strides, int64_wrap (stride * d)))
             ([], 1%Z) shape).

Definition ToHipDNNDataType (onnx_dtype : Z) : option DataType :=
  if bool_decide (onnx_dtype = ONNX_TENSOR_ELEMENT_DATA_TYPE_FLOAT)
  then Some FLOAT
  else if bool_decide (onnx_dtype = ONNX_TENSOR_ELEMENT_DATA_TYPE_FLOAT16)
  then Some HALF
  else None.

Definition GetComputeDataType (x_dtype w_dtype : DataType) : option DataType :=
  let x_is_float := bool_decide (x_dtype = FLOAT) || bool_decide (x_dtype = HALF) in
  let w_is_float := bool_decide (w_dtype = FLOAT) || bool_decide (w_dtype = HALF) in
  if x_is_float && w_is_float then Some FLOAT else None.

(** The padding normalization of [AddConvNode]: [Some] of the four-element
    form, or [None] where the code returns its error. *)
Definition NormalizePads (pads : list Z) : option (list Z) :=
  match pads with
  | [p0; p1] => Some [p0; p1; p0; p1]
  | _ => if bool_decide (length pads ≠ 4%nat) then None else Some pads
  end.

(** What a member function hands back to its caller: a status and the
    object as the call left it, unless the call had no defined behaviour. *)
Inductive Result (A : Type) :=
| Done (a : A)
| UndefinedBehaviour.
Arguments Done {A} a.
Arguments UndefinedBehaviour {A}.

Section KernelImpl.

Context {VS : Type} (vendor : VendorApi VS).

Abbreviation KM := (KM VS).
Abbreviation Kernel := (Kernel VS).

Local Open Scope km_scope.

(** *** Loops *)

Fixpoint for_each {A} (l : list A) (body : A → KM unit) : KM unit :=
  match l with
  | [] => km_ret tt
  | x :: l' => body x ;; for_each l' body
  end.

Fixpoint map_each {A B} (l : list A) (body : A → KM B) : KM (list B) :=
  match l with
  | [] => km_ret []
  | x :: l' =>
      let* y := body x in
      let* ys := map_each l' body in
      km_ret (y :: ys)
  end.

Fixpoint fold_each {A S} (l : list A) (body : S → A → KM S) (s : S) : KM S :=
  match l with
  | [] => km_ret s
  | x :: l' => let* s' := body s x in fold_each l' body s'
  end.

(** [v[i]] on a [std::vector]. *)
Definition index {A} (v : list A) (i : nat) : KM A :=
  match v !! i with
  | Some a => km_ret a
  | None => undefined
  end.

(** *** The store of shared tensor objects *)

Definition make_shared (a : TensorAttributes) : KM TensorAttrPtr :=
  λ k, Normal (length (tensors k)) (with_tensors (tensors k ++ [a]) k).

Definition deref (p : TensorAttrPtr) : KM TensorAttributes :=
  λ k, match tensors k !! p with
       | Some a => Normal a k
       | None => Undefined
       end.

Definition update (p : TensorAttrPtr) (f : TensorAttributes → TensorAttributes)
    : KM unit :=
  modify (λ k, with_tensors (alter f p (tensors k)) k).

(** [next_uid_++] *)
Definition next_uid_post_increment : KM Z :=
  λ k, Normal (next_uid_ k) (with_next_uid (int64_wrap (next_uid_ k + 1)) k).

(** [graph.conv_fprop]: the library creates the output tensor object,
    virtual and without uid, and adds the operation to the graph. *)
Definition conv_fprop (x w : TensorAttrPtr) (attrs : ConvFpropAttributes)
    : KM TensorAttrPtr :=
  let* y := make_shared (set_is_virtual true new_TensorAttributes) in
  modify (λ k, with_graph
                 (graph_ops k ++ [{| op_x := x; op_w := w; op_attrs := attrs;
                                     op_y := y |}])
                 (graph_state k) k) ;;
  km_ret y.

(** *** Translation *)

Definition CreateTensorAttr (value_info : ValueInfo) (uid : Z)
    : KM TensorAttrPtr :=
  let* name := call (vi_GetName value_info) in
  let* shape := call (GetTensorShape value_info) in
  match shape with
  | None =>
      RETURN_ERROR ORT_EP_FAIL ("Value must have static shape: " +:+ name)
  | Some shape =>
      let* elem := call (GetTensorElementType value_info) in
      match ToHipDNNDataType elem with
      | None =>
          RETURN_ERROR ORT_EP_FAIL ("Unsupported data type for value: " +:+ name)
      | Some dtype =>
          make_shared
            (set_stride (ComputeStrides shape)
               (set_dim shape
                  (set_data_type dtype
                     (set_name name (set_uid uid new_TensorAttributes)))))
      end
  end.

Definition AddConvNode (node : Node) (input_attrs : list TensorAttrPtr)
    : KM TensorAttrPtr :=
  match input_attrs with
  | x_attr :: w_attr :: _ =>
      let pads := GetIntsAttrOrDefault node "pads" [0; 0; 0; 0]%Z in
      let strides := GetIntsAttrOrDefault node "strides" [1; 1]%Z in
      let dilations := GetIntsAttrOrDefault node "dilations" [1; 1]%Z in
      match NormalizePads pads with
      | None => RETURN_ERROR ORT_EP_FAIL "Conv pads must have 2 or 4 elements"
      | Some pads =>
          let* x := deref x_attr in
          let* w := deref w_attr in
          match GetComputeDataType (ta_data_type x) (ta_data_type w) with
          | None =>
              RETURN_ERROR ORT_EP_FAIL
                "Unsupported data type combination for Conv compute"
          | Some compute_dtype =>
              let* pads0 := index pads 0 in
              let* pads1 := index pads 1 in
              let* strides0 := index strides 0 in
              let* strides1 := index strides 1 in
              let* dilations0 := index dilations 0 in
              let* dilations1 := index dilations 1 in
              conv_fprop x_attr w_attr
                {| conv_padding := [pads0; pads1];
                   conv_stride := [strides0; strides1];
                   conv_dilation := [dilations0; dilations1];
                   conv_convolution_mode := CROSS_CORRELATION;
                   conv_compute_data_type := compute_dtype |}
          end
      end
  | _ =>
      RETURN_ERROR ORT_EP_FAIL "Conv requires at least 2 input tensor attributes"
  end.

Definition AddNode (node : Node) (input_attrs : list TensorAttrPtr)
    : KM (list TensorAttrPtr) :=
  let* op_type := call (GetOperatorType node) in
  if bool_decide (op_type = "Conv") then
    let* y_attr := AddConvNode node input_attrs in
    km_ret [y_attr]
  else RETURN_ERROR ORT_EP_FAIL ("Unsupported op type: " +:+ op_type).

(** The three loops of [BuildAndCompile], one definition per loop body. *)

Definition translate_graph_input (input : ValueInfo) : KM unit :=
  let* uid := next_uid_post_increment in
  let* attr := CreateTensorAttr input uid in
  update attr (set_is_virtual false) ;;
  let* name := call (vi_GetName input) in
  modify (λ k, with_symbol_table (<[name := attr]> (symbol_table_ k)) k) ;;
  let* a := deref attr in
  modify (λ k, with_input_uids (input_uids_ k ++ [ta_uid a]) k).

Definition lookup_node_input (input : ValueInfo) : KM TensorAttrPtr :=
  let* name := call (vi_GetName input) in
  let* table := get symbol_table_ in
  match table !! name with
  | None =>
      RETURN_ERROR ORT_EP_FAIL ("Input not found in symbol table: " +:+ name)
  | Some attr => km_ret attr
  end.

Definition tag_node_output (node_outputs : list ValueInfo)
    (output_attrs : list TensorAttrPtr) (i : nat) : KM unit :=
  let* node_output := index node_outputs i in
  let* name := call (vi_GetName node_output) in
  let* elem := call (GetTensorElementType node_output) in
  match ToHipDNNDataType elem with
  | None =>
      RETURN_ERROR ORT_EP_FAIL ("Unsupported data type for output: " +:+ name)
  | Some dtype =>
      let* shape := call (GetTensorShape node_output) in
      match shape with
      | None =>
          RETURN_ERROR ORT_EP_FAIL ("Output must have static shape: " +:+ name)
      | Some shape =>
          let* attr := index output_attrs i in
          let* uid := next_uid_post_increment in
          update attr
            (λ a, set_stride (ComputeStrides shape)
                    (set_dim shape
                       (set_data_type dtype (set_name name (set_uid uid a))))) ;;
          modify (λ k, with_symbol_table (<[name := attr]> (symbol_table_ k)) k)
      end
  end.

Definition translate_node (node : Node) : KM unit :=
  let* node_inputs := call (node_GetInputs node) in
  let* input_attrs := map_each node_inputs lookup_node_input in
  let* output_attrs := AddNode node input_attrs in
  let* node_outputs := call (node_GetOutputs node) in
  (if bool_decide (length output_attrs ≠ length node_outputs) then
     let* node_name := call (node_GetName node) in
     RETURN_ERROR ORT_EP_FAIL
       ("Output count mismatch for node " +:+ node_name +:+ ": expected "
        +:+ pretty (length node_outputs) +:+ ", got "
        +:+ pretty (length output_attrs))
   else km_ret tt) ;;
  for_each (seq 0 (length output_attrs)) (tag_node_output node_outputs output_attrs).

Definition translate_graph_output (output : ValueInfo) : KM unit :=
  let* name := call (vi_GetName output) in
  let* table := get symbol_table_ in
  match table !! name with
  | None =>
      RETURN_ERROR ORT_EP_FAIL
        ("Graph output not found in symbol table: " +:+ name)
  | Some attr =>
      update attr (set_is_virtual false) ;;
      let* a := deref attr in
      modify (λ k, with_output_uids (output_uids_ k ++ [ta_uid a]) k) ;;
      let* shape := call (GetTensorShape output) in
      match shape with
      | None =>
          RETURN_ERROR ORT_EP_FAIL
            ("Graph output must have static shape: " +:+ name)
      | Some shape =>
          modify (λ k, with_output_shapes (output_shapes_ k ++ [shape]) k)
      end
  end.

(** *** Compilation *)

(** A call of a build stage of the vendor graph object. *)
Definition vendor_stage (c : VendorCall)
    (stage : GraphView → VS → hipdnn_error * VS) : KM hipdnn_error :=
  λ k, let '(error, vs) := stage (graph_ops k, tensors k) (graph_state k) in
       Normal error
         (with_vendor_calls
            (vendor_calls k ++
               [{| ev_call := c; ev_error := error; ev_workspace_size := None |}])
            (with_graph (graph_ops k) vs k)).

(** [graph_->get_workspace_size(workspace_size)] *)
Definition get_workspace_size : KM (hipdnn_error * Z) :=
  λ k, let '(error, workspace_size, vs) :=
         v_get_workspace_size vendor (graph_ops k, tensors k) (graph_state k) in
       Normal (error, workspace_size)
         (with_vendor_calls
            (vendor_calls k ++
               [{| ev_call := call_get_workspace_size; ev_error := error;
                   ev_workspace_size := Some workspace_size |}])
            (with_graph (graph_ops k) vs k)).

Definition CompileGraph : KM unit :=
  let* error := vendor_stage call_validate (v_validate vendor) in
  if is_bad error then
    RETURN_ERROR ORT_EP_FAIL
      ("hipDNN graph validation failed: " +:+ get_message error)
  else
  let* handle := get handle_ in
  let* error := vendor_stage (call_build_operation_graph handle)
                  (λ g, v_build_operation_graph vendor g handle) in
  if is_bad error then
    RETURN_ERROR ORT_EP_FAIL
      ("hipDNN build_operation_graph failed: " +:+ get_message error)
  else
  let* error := vendor_stage (call_create_execution_plans [FALLBACK])
                  (λ g, v_create_execution_plans vendor g [FALLBACK]) in
  if is_bad error then
    RETURN_ERROR ORT_EP_FAIL
      ("hipDNN create_execution_plans failed: " +:+ get_message error)
  else
  let* error := vendor_stage call_check_support (v_check_support vendor) in
  if is_bad error then
    RETURN_ERROR ORT_EP_FAIL
      ("hipDNN check_support failed: " +:+ get_message error)
  else
  let* error := vendor_stage call_build_plans (v_build_plans vendor) in
  if is_bad error then
    RETURN_ERROR ORT_EP_FAIL
      ("hipDNN build_plans failed: " +:+ get_message error)
  else
  let* sized := get_workspace_size in
  if is_bad (fst sized) then
    RETURN_ERROR ORT_EP_FAIL
      ("hipDNN get_workspace_size failed: " +:+ get_message (fst sized))
  else
  if bool_decide (snd sized > 0)%Z then
    modify (λ k, with_workspace
                   (resize (Z.to_nat (snd sized)) 0%Z (workspace_ k)) k)
  else km_ret tt.

(** The part of [BuildAndCompile] before [CompileGraph]. *)
Definition Translate (graph : Graph) : KM unit :=
  modify (with_graph [] (v_new_graph vendor)) ;;
  let* graph_inputs := call (graph_GetInputs graph) in
  let* graph_outputs := call (graph_GetOutputs graph) in
  for_each graph_inputs translate_graph_input ;;
  let* nodes := call (graph_GetNodes graph) in
  for_each nodes translate_node ;;
  for_each graph_outputs translate_graph_output.

Definition BuildAndCompile_try (graph : Graph) : KM unit :=
  Translate graph ;;
  CompileGraph.

(** *** Execution *)

Record Value := {
  GetTensorRawData : Exc VoidPtr;
  GetTensorMutableRawData : Exc VoidPtr
}.

(** [Ort::KernelContext]: the buffers the host supplies for one call. *)
Record KernelContext := {
  GetInputCount : Exc nat;
  GetOutputCount : Exc nat;
  GetInput : nat → Exc Value;
  GetOutput : nat → list Z → Exc Value
}.

(** The two loops of [Execute] that fill the variant pack. *)
Definition BuildVariantPack (context : KernelContext) : KM (gmap Z VoidPtr) :=
  let* input_uids := get input_uids_ in
  let* variant_pack :=
    fold_each (seq 0 (length input_uids))
      (λ variant_pack i,
         let* input := call (GetInput context i) in
         let* data := call (GetTensorRawData input) in
         let* uid := index input_uids i in
         km_ret (<[uid := data]> variant_pack))
      ∅ in
  let* output_uids := get output_uids_ in
  let* output_shapes := get output_shapes_ in
  fold_each (seq 0 (length output_uids))
    (λ variant_pack i,
       let* shape := index output_shapes i in
       let* output := call (GetOutput context i shape) in
       let* data := call (GetTensorMutableRawData output) in
       let* uid := index output_uids i in
       km_ret (<[uid := data]> variant_pack))
    variant_pack.

(** [workspace_.empty() ? nullptr : workspace_.data()] *)
Definition workspace_ptr (k : Kernel) : VoidPtr :=
  if bool_decide (workspace_ k = []) then nullptr else workspace_data.

Definition Execute_try (context : KernelContext) : KM unit :=
  let* input_count := call (GetInputCount context) in
  let* input_uids := get input_uids_ in
  if bool_decide (input_count ≠ length input_uids) then
    RETURN_ERROR ORT_EP_FAIL
      ("Input count mismatch: expected " +:+ pretty (length input_uids)
       +:+ ", got " +:+ pretty input_count)
  else
  let* output_count := call (GetOutputCount context) in
  let* output_uids := get output_uids_ in
  if bool_decide (output_count ≠ length output_uids) then
    RETURN_ERROR ORT_EP_FAIL
      ("Output count mismatch: expected " +:+ pretty (length output_uids)
       +:+ ", got " +:+ pretty output_count)
  else
  let* variant_pack := BuildVariantPack context in
  let* workspace_ptr := get workspace_ptr in
  let* handle := get handle_ in
  let* error := vendor_stage (call_execute handle variant_pack workspace_ptr)
                  (λ g, v_execute vendor g handle variant_pack workspace_ptr) in
  if is_bad error then
    RETURN_ERROR ORT_EP_FAIL ("hipDNN execute failed: " +:+ get_message error)
  else km_ret tt.

(** [try { ... } catch (const std::exception& ex) { RETURN_ERROR(...) }
    return nullptr;] *)
Definition BuildAndCompile (graph : Graph) (k : Kernel)
    : Result (OrtStatus * Kernel) :=
  match BuildAndCompile_try graph k with
  | Normal _ k' => Done (StatusOK, k')
  | Returned code msg k' => Done (StatusError code msg, k')
  | Thrown e k' =>
      Done (StatusError ORT_EP_FAIL
              ("Exception building hipDNN graph: " +:+ what e), k')
  | Undefined => UndefinedBehaviour
  end.

(** [try { ... } catch (const Ort::Exception&) { ... }
    catch (const std::exception&) { RETURN_ERROR(...) } return nullptr;] *)
Definition Execute (context : KernelContext) (k : Kernel)
    : Result (OrtStatus * Kernel) :=
  match Execute_try context k with
  | Normal _ k' => Done (StatusOK, k')
  | Returned code msg k' => Done (StatusError code msg, k')
  | Thrown (OrtException code msg) k' => Done (StatusOfOrtException code msg, k')
  | Thrown (StdException msg) k' =>
      Done (StatusError ORT_EP_FAIL ("Exception in Kernel::Execute: " +:+ msg), k')
  | Undefined => UndefinedBehaviour
  end.

End KernelImpl.

(** ** ep.cc: the execution provider *)

(** The two handlers that end [GetCapabilityImpl] and [CompileImpl]. *)
Definition status_of_exn (e : exn) : OrtStatus :=
  match e with
  | OrtException code msg => StatusOfOrtException code msg
  | StdException msg => StatusError ORT_EP_FAIL msg
  end.

(** The loop that fills [supported_nodes]; [IsSupportedOp] may throw. *)
Fixpoint collect_supported (nodes : list Node) : Exc (list Node) :=
  match nodes with
  | [] => Val []
  | node :: rest =>
      (let* supported := IsSupportedOp node in
       let* supported_nodes := collect_supported rest in
       Val (if supported then node :: supported_nodes else supported_nodes))%exc
  end.

(** The loop that claims the supported nodes one by one. The host call
    [EpGraphSupportInfo_AddNodesToFuse] is a parameter; the groups it
    accepted are collected in [graph_support_info]. *)
Fixpoint claim_nodes (AddNodesToFuse : list (list Node) → list Node → OrtStatus)
    (supported_nodes : list Node) (graph_support_info : list (list Node))
    : OrtStatus * list (list Node) :=
  match supported_nodes with
  | [] => (StatusOK, graph_support_info)
  | node :: rest =>
      match AddNodesToFuse graph_support_info [node] with
      | StatusOK =>
          claim_nodes AddNodesToFuse rest (graph_support_info ++ [[node]])
      | StatusError code msg => (StatusError code msg, graph_support_info)
      end
  end.

Definition GetCapabilityImpl
    (AddNodesToFuse : list (list Node) → list Node → OrtStatus)
    (graph : Graph) (graph_support_info : list (list Node))
    : OrtStatus * list (list Node) :=
  match graph_GetNodes graph with
  | Raise e => (status_of_exn e, graph_support_info)
  | Val nodes =>
      if bool_decide (nodes = []) then (StatusOK, graph_support_info)
      else
        match collect_supported nodes with
        | Raise e => (status_of_exn e, graph_support_info)
        | Val supported_nodes =>
            if bool_decide (supported_nodes = [])
            then (StatusOK, graph_support_info)
            else claim_nodes AddNodesToFuse supported_nodes graph_support_info
        end
  end.

Inductive NodeComputeInfo := MkNodeComputeInfo.

Section Ep.

Context {VS : Type} (vendor : VendorApi VS).

Record HipDNNEp := {
  hipdnn_handle_ : Z;
  kernels_ : gmap string (Kernel VS)
}.

(** [std::unordered_map::emplace]: nothing is inserted when the key is
    already present. *)
Definition emplace (name : string) (kernel : Kernel VS)
    (kernels : gmap string (Kernel VS)) : gmap string (Kernel VS) :=
  match kernels !! name with
  | Some _ => kernels
  | None => <[name := kernel]> kernels
  end.

Definition GetKernel (ep : HipDNNEp) (name : string) : option (Kernel VS) :=
  kernels_ ep !! name.

(** The loop of [CompileImpl] over the [count] pairs of graph and fused
    node, with the handlers that enclose it. [node_compute_infos] collects
    the entries written so far. *)
Fixpoint CompileImpl_loop (requests : list (Graph * Node)) (ep : HipDNNEp)
    (node_compute_infos : list NodeComputeInfo)
    : Result (OrtStatus * HipDNNEp * list NodeComputeInfo) :=
  match requests with
  | [] => Done (StatusOK, ep, node_compute_infos)
  | (graph, fused_node) :: rest =>
      match graph_GetNodes graph with
      | Raise e => Done (status_of_exn e, ep, node_compute_infos)
      | Val nodes =>
          if bool_decide (nodes = []) then
            Done (StatusError ORT_EP_FAIL "Empty graph provided for compilation",
                  ep, node_compute_infos)
          else
            match BuildAndCompile vendor graph
                    (new_Kernel vendor (hipdnn_handle_ ep)) with
            | UndefinedBehaviour => UndefinedBehaviour
            | Done (StatusError code msg, _) =>
                Done (StatusError code msg, ep, node_compute_infos)
            | Done (StatusOK, kernel) =>
                match node_GetName fused_node with
                | Raise e => Done (status_of_exn e, ep, node_compute_infos)
                | Val fused_node_name =>
                    CompileImpl_loop rest
                      {| hipdnn_handle_ := hipdnn_handle_ ep;
                         kernels_ := emplace fused_node_name kernel (kernels_ ep) |}
                      (node_compute_infos ++ [MkNodeComputeInfo])
                end
            end
      end
  end.

Definition CompileImpl (requests : list (Graph * Node)) (ep : HipDNNEp)
    : Result (OrtStatus * HipDNNEp * list NodeComputeInfo) :=
  CompileImpl_loop requests ep [].

End Ep.

Arguments HipDNNEp : clear implicits.

(** ** Properties stated over the embedding *)

(** *** The build stages of the vendor graph, in the order of the design *)
Definition build_stages (handle : Z) : list VendorCall :=
  [call_validate; call_build_operation_graph handle;
   call_create_execution_plans [FALLBACK]; call_check_support;
   call_build_plans; call_get_workspace_size].

(** The part of an error message that names the failing stage. *)
Definition stage_failure_prefix (c : VendorCall) : string :=
  match c with
  | call_validate => "hipDNN graph validation failed: "
  | call_build_operation_graph _ => "hipDNN build_operation_graph failed: "
  | call_create_execution_plans _ => "hipDNN create_execution_plans failed: "
  | call_check_support => "hipDNN check_support failed: "
  | call_build_plans => "hipDNN build_plans failed: "
  | call_get_workspace_size => "hipDNN get_workspace_size failed: "
  | call_execute _ _ _ => "hipDNN execute failed: "
  end.

Definition stage_ok (e : VendorEvent) : Prop := is_bad (ev_error e) = false.

(** *** The rules of the capability matcher, in the words of the design

    The six rules for a Conv node, with the rule on the dilations left open:
    [Conv_rules_as_specified] takes it as the design words it (all ones),
    [Conv_rules_of_code] as the code tests it (exactly two ones). *)
Definition all_ones (l : list Z) : Prop := Forall (λ d, d = 1%Z) l.

Definition Conv_rules (dilation_rule : list Z → Prop) (node : Node) : Prop :=
  ∃ inputs outputs x w y elem xs ws,
    node_GetInputs node = Val inputs ∧ node_GetOutputs node = Val outputs ∧
    (* rule 1: arity *)
    (2 ≤ length inputs)%nat ∧ length outputs = 1%nat ∧
    inputs !! 0%nat = Some x ∧ inputs !! 1%nat = Some w ∧
    outputs !! 0%nat = Some y ∧
    (* rule 2: one element type, float32 or float16 *)
    GetTensorElementType x = Val elem ∧ GetTensorElementType w = Val elem ∧
    GetTensorElementType y = Val elem ∧
    (elem = ONNX_TENSOR_ELEMENT_DATA_TYPE_FLOAT
     ∨ elem = ONNX_TENSOR_ELEMENT_DATA_TYPE_FLOAT16) ∧
    (* rule 3: static 4-dimensional shapes *)
    GetTensorShape x = Val (Some xs) ∧ GetTensorShape w = Val (Some ws) ∧
    length xs = 4%nat ∧ length ws = 4%nat ∧
    (* rule 4: explicit padding *)
    GetStringAttrOrDefault node "auto_pad" "NOTSET" = "NOTSET" ∧
    (* rule 5: no groups *)
    GetIntAttrOrDefault node "group" 1 = 1%Z ∧
    (* rule 6: dilations *)
    dilation_rule (GetIntsAttrOrDefault node "dilations" [1; 1]%Z).

Definition Conv_rules_as_specified : Node → Prop := Conv_rules all_ones.

Definition Conv_rules_of_code : Node → Prop :=
  Conv_rules (λ dilations, dilations = [1; 1]%Z).

(** *** Reasoning about member functions

    [wp U c Q E k]: run from [k], the function [c] satisfies [Q] when it
    runs to its end and [E] when it leaves early, by a returned status or by
    an exception; [U] holds when the run has no defined behaviour. With [U]
    true nothing is said of such runs, with [U] false there are none. *)
Definition wp {VS A} (U : Prop) (c : KM VS A) (Q : A → Kernel VS → Prop)
    (E : Kernel VS → Prop) (k : Kernel VS) : Prop :=
  match c k with
  | Normal a k' => Q a k'
  | Returned _ _ k' => E k'
  | Thrown _ k' => E k'
  | Undefined => U
  end.

(** *** What translation establishes *)

(** The names under which values are declared, where they can be read. *)
Definition value_name (value_info : ValueInfo) : option string :=
  match vi_GetName value_info with
  | Val name => Some name
  | Raise _ => None
  end.

Definition declared_names (values : list ValueInfo) : list string :=
  omap value_name values.

Definition declared_outputs (node : Node) : list ValueInfo :=
  match node_GetOutputs node with
  | Val outputs => outputs
  | Raise _ => []
  end.

Definition produced_values (nodes : list Node) : list ValueInfo :=
  nodes ≫= declared_outputs.

(** Every name the node reads is among [defined]. *)
Definition inputs_defined (defined : list string) (node : Node) : Prop :=
  ∀ inputs input name,
    node_GetInputs node = Val inputs → input ∈ inputs →
    vi_GetName input = Val name → name ∈ defined.

(** Every name a node reads is defined before the node: it is in [defined],
    the names of the graph inputs, or the output of an earlier node. *)
Fixpoint def_before_use (defined : list string) (nodes : list Node) : Prop :=
  match nodes with
  | [] => True
  | node :: rest =>
      inputs_defined defined node
      ∧ def_before_use (defined ++ declared_names (declared_outputs node)) rest
  end.

(** The strides and dilations of a node, defaults included, have the two
    elements that [AddConvNode] reads. *)
Definition conv_attrs_in_range (node : Node) : Prop :=
  (2 ≤ length (GetIntsAttrOrDefault node "strides" [1; 1]%Z))%nat
  ∧ (2 ≤ length (GetIntsAttrOrDefault node "dilations" [1; 1]%Z))%nat.

(** The same of every node that translation reaches: every node all of
    whose predecessors, and itself, read defined names only. *)
Definition reached_nodes_in_range (graph : Graph) : Prop :=
  ∀ ins nodes visited node rest,
    graph_GetInputs graph = Val ins →
    graph_GetNodes graph = Val nodes →
    nodes = visited ++ node :: rest →
    def_before_use (declared_names ins) (visited ++ [node]) →
    conv_attrs_in_range node.

(** The uid the counter hands out for the [i]-th tensor of a compilation. *)
Definition nth_uid (i : nat) : Z := int64_wrap (Z.of_nat i + 1).

Definition uids {VS} (k : Kernel VS) : list Z := ta_uid <$> tensors k.
Definition names {VS} (k : Kernel VS) : list string := ta_name <$> tensors k.

(** The state of a kernel in translation, after the graph inputs [ins], the
    nodes [nodes] and the graph outputs [outs] have been processed. *)
Record TranslationInv {VS} (k0 : Kernel VS)
    (ins : list ValueInfo) (nodes : list Node) (outs : list ValueInfo)
    (k : Kernel VS) : Prop := {
  inv_vendor_calls : vendor_calls k = vendor_calls k0;
  inv_workspace : workspace_ k = workspace_ k0;
  inv_handle : handle_ k = handle_ k0;
  inv_uids :
    uids k = nth_uid <$> seq 0 (length ins + length (produced_values nodes));
  inv_assigned : Forall (λ a, ta_uid_assigned a = true) (tensors k);
  inv_next_uid : next_uid_ k = nth_uid (length (tensors k));
  inv_symbol_table :
    ∀ name attr, symbol_table_ k !! name = Some attr →
      name ∈ declared_names ins ++ declared_names (produced_values nodes)
      ∧ names k !! attr = Some name;
  inv_def_before_use : def_before_use (declared_names ins) nodes;
  inv_input_uids : input_uids_ k = nth_uid <$> seq 0 (length ins);
  inv_input_names :
    Forall2 (λ value_info name, vi_GetName value_info = Val name)
      ins (take (length ins) (names k));
  inv_output_uids :
    Forall2 (λ uid value_info,
               ∃ name attr, vi_GetName value_info = Val name
                            ∧ symbol_table_ k !! name = Some attr
                            ∧ uids k !! attr = Some uid)
      (output_uids_ k) outs;
  inv_output_shapes :
    Forall2 (λ shape value_info, GetTensorShape value_info = Val (Some shape))
      (output_shapes_ k) outs
}.

(** What holds of the kernel when translation leaves early. *)
Definition untouched_by_translation {VS} (k0 k : Kernel VS) : Prop :=
  vendor_calls k = vendor_calls k0 ∧ workspace_ k = workspace_ k0.

(** What [CompileGraph] leaves alone. *)
Definition same_translation {VS} (k k' : Kernel VS) : Prop :=
  tensors k' = tensors k ∧ input_uids_ k' = input_uids_ k
  ∧ output_uids_ k' = output_uids_ k ∧ output_shapes_ k' = output_shapes_ k
  ∧ symbol_table_ k' = symbol_table_ k ∧ next_uid_ k' = next_uid_ k
  ∧ handle_ k' = handle_ k ∧ graph_ops k' = graph_ops k.

(** *** What execution binds *)

(** The buffer the host supplies for the [i]-th input, and the one it
    materializes for the [i]-th output of a given shape. *)
Definition input_buffer (context : KernelContext) (i : nat) : Exc VoidPtr :=
  (let* input := GetInput context i in GetTensorRawData input)%exc.

Definition output_buffer (context : KernelContext) (i : nat) (shape : list Z)
    : Exc VoidPtr :=
  (let* output := GetOutput context i shape in
   GetTensorMutableRawData output)%exc.

(** The assignments [variant_pack[uid] = data], made in the order of the
    list. *)
Definition bind_all (pairs : list (Z * VoidPtr)) (variant_pack : gmap Z VoidPtr)
    : gmap Z VoidPtr :=
  foldl (λ m pair, <[pair.1 := pair.2]> m) variant_pack pairs.

(** The buffers [Execute] fetches for a kernel: one per input uid, in order,
    and one per output uid, in order, each of the shape recorded for it. *)
Definition fetched_inputs {VS} (context : KernelContext) (k : Kernel VS)
    (data : list VoidPtr) : Prop :=
  Forall2 (λ i p, input_buffer context i = Val p)
    (seq 0 (length (input_uids_ k))) data.

Definition fetched_outputs {VS} (context : KernelContext) (k : Kernel VS)
    (data : list VoidPtr) : Prop :=
  Forall2 (λ i p, ∃ shape, output_shapes_ k !! i = Some shape
                           ∧ output_buffer context i shape = Val p)
    (seq 0 (length (output_uids_ k))) data.

(** The one vendor call of [Execute], if it gets that far. *)
Definition execute_event {VS} (k : Kernel VS) (variant_pack : gmap Z VoidPtr)
    (error : hipdnn_error) : VendorEvent :=
  {| ev_call := call_execute (handle_ k) variant_pack (workspace_ptr k);
     ev_error := error; ev_workspace_size := None |}.

(** *** What the provider registers and claims *)

(** The names under which the subgraphs of a compile request are
    registered, where they can be read. *)
Definition fused_names (requests : list (Graph * Node)) : list string :=
  omap (λ request, match node_GetName request.2 with
                   | Val name => Some name
                   | Raise _ => None
                   end) requests.

(** The verdict of the capability matcher on a node whose operator type can
    be read. *)
Definition verdict (node : Node) : bool :=
  match IsSupportedOp node with
  | Val supported => supported
  | Raise _ => false
  end.

(** ** Sample graphs and a sample vendor

    A single-node Conv subgraph as the host hands it over after fusion, a
    vendor whose build stages all succeed, and the means to vary both. *)
Module Samples.

Definition tensor_value (name : string) (elem : Z) (shape : list Z) : ValueInfo :=
  {| vi_GetName := Val name;
     vi_TypeInfo :=
       Val {| GetONNXType := Val ONNX_TYPE_TENSOR;
              GetTensorTypeAndShapeInfo :=
                Val {| GetElementType := Val elem; GetShape := Val shape |} |} |}.

Definition string_attr (s : string) : OpAttr :=
  {| GetValue_string := Some s; GetValue_int := None;
     GetValueArray_ints := None |}.

Definition int_attr (z : Z) : OpAttr :=
  {| GetValue_string := None; GetValue_int := Some z;
     GetValueArray_ints := None |}.

Definition ints_attr (l : list Z) : OpAttr :=
  {| GetValue_string := None; GetValue_int := None;
     GetValueArray_ints := Some l |}.

(** A node whose attributes are the listed ones; any other name is reported
    as not found. *)
Definition attributes (l : list (string * OpAttr))
    : string → OrtStatus * option OpAttr :=
  λ name, match (list_to_map l : gmap string OpAttr) !! name with
          | Some a => (StatusOK, Some a)
          | None => (StatusError 1 "attribute not found", None)
          end.

Definition float32 : Z := ONNX_TENSOR_ELEMENT_DATA_TYPE_FLOAT.

Definition X : ValueInfo := tensor_value "X" float32 [1; 1; 8; 8]%Z.
Definition W : ValueInfo := tensor_value "W" float32 [1; 1; 3; 3]%Z.
Definition Y : ValueInfo := tensor_value "Y" float32 [1; 1; 6; 6]%Z.

Definition conv_node (name : string) (inputs outputs : list ValueInfo)
    (attrs : list (string * OpAttr)) : Node :=
  {| node_GetName := Val name; GetOperatorType := Val "Conv";
     node_GetInputs := Val inputs; node_GetOutputs := Val outputs;
     GetAttributeByName := attributes attrs |}.

Definition conv0 : Node := conv_node "conv0" [X; W] [Y] [].

Definition graph_of (inputs outputs : list ValueInfo) (nodes : list Node) : Graph :=
  {| graph_GetInputs := Val inputs; graph_GetOutputs := Val outputs;
     graph_GetNodes := Val nodes |}.

Definition conv_graph : Graph := graph_of [X; W] [Y] [conv0].

Definition good : hipdnn_error := {| is_bad := false; get_message := "" |}.
Definition bad (msg : string) : hipdnn_error :=
  {| is_bad := true; get_message := msg |}.

(** A vendor without state whose stages succeed and which asks for
    [workspace_size] bytes of workspace. *)
Definition ok_vendor (workspace_size : Z) : VendorApi unit :=
  {| v_new_graph := tt;
     v_validate := λ _ vs, (good, vs);
     v_build_operation_graph := λ _ _ vs, (good, vs);
     v_create_execution_plans := λ _ _ vs, (good, vs);
     v_check_support := λ _ vs, (good, vs);
     v_build_plans := λ _ vs, (good, vs);
     v_get_workspace_size := λ _ vs, (good, workspace_size, vs);
     v_execute := λ _ _ _ _ vs, (good, vs) |}.

(** A vendor whose check_support stage finds no engine. *)
Definition vendor_without_engine : VendorApi unit :=
  {| v_new_graph := tt;
     v_validate := λ _ vs, (good, vs);
     v_build_operation_graph := λ _ _ vs, (good, vs);
     v_create_execution_plans := λ _ _ vs, (good, vs);
     v_check_support := λ _ vs, (bad "no engine", vs);
     v_build_plans := λ _ vs, (good, vs);
     v_get_workspace_size := λ _ vs, (good, 0%Z, vs);
     v_execute := λ _ _ _ _ vs, (good, vs) |}.

(** Conv nodes that differ from [conv0] in one attribute. *)
Definition conv_dilations_111 : Node :=
  conv_node "conv_d" [X; W] [Y] [("dilations", ints_attr [1; 1; 1]%Z)].

Definition conv_pads_12 : Node :=
  conv_node "conv_p" [X; W] [Y] [("pads", ints_attr [1; 2]%Z)].

Definition conv_strides_1 : Node :=
  conv_node "conv_s" [X; W] [Y] [("strides", ints_attr [1]%Z)].

(** The kernel compiled from [conv_graph]. *)
Definition compiled_kernel : Kernel unit :=
  match BuildAndCompile (ok_vendor 0) conv_graph (new_Kernel (ok_vendor 0) 7) with
  | Done (_, k) => k
  | UndefinedBehaviour => new_Kernel (ok_vendor 0) 7
  end.

(** [conv_graph] without the weight among its declared inputs. *)
Definition graph_without_W : Graph := graph_of [X] [Y] [conv0].

(** A node of another operator, and a Conv node whose first input cannot
    be described: reading its type information throws. *)
Definition relu_node : Node :=
  {| node_GetName := Val "relu0"; GetOperatorType := Val "Relu";
     node_GetInputs := Val [Y]; node_GetOutputs := Val [Y];
     GetAttributeByName := attributes [] |}.

Definition opaque_value : ValueInfo :=
  {| vi_GetName := Val "X";
     vi_TypeInfo := Raise (OrtException 1 "no type information") |}.

Definition conv_opaque : Node := conv_node "conv_o" [opaque_value; W] [Y] [].

Definition mixed_graph : Graph := graph_of [X; W] [Y] [relu_node; conv_opaque; conv0].

(** A host that accepts every group of nodes. *)
Definition accept_all : list (list Node) → list Node → OrtStatus :=
  λ _ _, StatusOK.

(** A provider without kernels, the fused nodes that name two subgraphs,
    and a compile request whose second subgraph is malformed. *)
Definition ep0 : HipDNNEp unit := {| hipdnn_handle_ := 7; kernels_ := ∅ |}.

Definition fused (name : string) : Node :=
  {| node_GetName := Val name; GetOperatorType := Val "Conv";
     node_GetInputs := Val [X; W]; node_GetOutputs := Val [Y];
     GetAttributeByName := attributes [] |}.

Definition half_good_request : list (Graph * Node) :=
  [(conv_graph, fused "fused0"); (graph_without_W, fused "fused1")].

Definition ep_after_half_good_request : HipDNNEp unit :=
  match CompileImpl (ok_vendor 0) half_good_request ep0 with
  | Done (_, ep, _) => ep
  | UndefinedBehaviour => ep0
  end.

Definition empty_graph : Graph := graph_of [X; W] [Y] [].

(** New kernels compiled by vendors that report other workspace sizes. *)
Definition compiled_with (workspace_size : Z) : Kernel unit :=
  match CompileGraph (ok_vendor workspace_size)
          (new_Kernel (ok_vendor workspace_size) 7) with
  | Normal _ k => k
  | _ => new_Kernel (ok_vendor workspace_size) 7
  end.

Definition compiled_with_negative_size : Kernel unit := compiled_with (-1).
Definition compiled_with_16_bytes : Kernel unit := compiled_with 16.

(** The buffers of one inference call on [compiled_kernel]. *)
Definition buffer (address : Z) : Value :=
  {| GetTensorRawData := Val (raw_data address);
     GetTensorMutableRawData := Val (raw_data address) |}.

Definition context : KernelContext :=
  {| GetInputCount := Val 2; GetOutputCount := Val 1;
     GetInput := λ i, Val (buffer (100 + Z.of_nat i));
     GetOutput := λ i _, Val (buffer (200 + Z.of_nat i)) |}.

(** A kernel in which the two graph inputs have been translated. *)
Definition kernel_with_inputs : Kernel unit :=
  match for_each [X; W] translate_graph_input (new_Kernel (ok_vendor 0) 7) with
  | Normal _ k => k
  | _ => new_Kernel (ok_vendor 0) 7
  end.

End Samples.

(** ** ep_utils.h: the float tensor test *)

(** [IsFloatTensor]: [result] is set to [false] first and to [true] only at
    the end; the accessors may throw. *)
Definition IsFloatTensor (value_info : ValueInfo) : Exc bool :=
  (let* type_info := vi_TypeInfo value_info in
   let* onnx_type := GetONNXType type_info in
   if bool_decide (onnx_type ≠ ONNX_TYPE_TENSOR) then Val false
   else
     let* type_shape := GetTensorTypeAndShapeInfo type_info in
     let* elem_type := GetElementType type_shape in
     if bool_decide (elem_type ≠ ONNX_TENSOR_ELEMENT_DATA_TYPE_FLOAT)
     then Val false
     else Val true)%exc.

(** ** node_compute_info.cc: the compute state of a fused node *)

Section ComputeInfo.

Context {VS : Type} (vendor : VendorApi VS).

(** The [Kernel*] handed to the host as compute state points to the kernel
    the provider owns under a name: it is that name. [compute_state] is
    written on success only. *)
Definition CreateStateImpl (ep : HipDNNEp VS) (node_name : string)
    : OrtStatus * option string :=
  match GetKernel ep node_name with
  | None =>
      (StatusError ORT_EP_FAIL ("Kernel not found for node: " +:+ node_name),
       None)
  | Some _ => (StatusOK, Some node_name)
  end.

(** [kernel->Execute(kernel_context)] on the kernel the state points to,
    which changes in place. A state that points to no kernel of the provider
    has no defined behaviour. *)
Definition ComputeImpl (compute_state : string)
    (kernel_context : KernelContext) (ep : HipDNNEp VS)
    : Result (OrtStatus * HipDNNEp VS) :=
  match kernels_ ep !! compute_state with
  | None => UndefinedBehaviour
  | Some kernel =>
      match Execute vendor kernel_context kernel with
      | Done (status, kernel') =>
          Done (status,
                {| hipdnn_handle_ := hipdnn_handle_ ep;
                   kernels_ := <[compute_state := kernel']> (kernels_ ep) |})
      | UndefinedBehaviour => UndefinedBehaviour
      end
  end.

End ComputeInfo.

(** ** The HIP runtime, at the boundary the allocator and the data transfer
       use *)

Definition hipError_t : Type := Z.
Definition hipSuccess : hipError_t := 0%Z.

Inductive hipMemcpyKind :=
| hipMemcpyHostToDevice
| hipMemcpyDeviceToHost
| hipMemcpyDeviceToDevice.

Global Instance hipMemcpyKind_eq_dec : EqDecision hipMemcpyKind.
Proof. solve_decision. Defined.

Global Instance VoidPtr_countable : Countable VoidPtr.
Proof.
  refine (inj_countable'
            (λ p, match p with
                  | nullptr => inl ()
                  | workspace_data => inr (inl ())
                  | raw_data address => inr (inr address)
                  end)
            (λ s, match s with
                  | inl _ => nullptr
                  | inr (inl _) => workspace_data
                  | inr (inr address) => raw_data address
                  end) _).
  by intros [].
Defined.

(** The calls made on the runtime, with their arguments, in the order they
    are made; the [std::memcpy] of the data transfer is recorded with them. *)
Inductive HipCall :=
| call_hipSetDevice (device_id : Z)
| call_hipMalloc (size : Z)
| call_hipFree (p : VoidPtr)
| call_hipMemcpy (dst src : VoidPtr) (byte_size : Z) (kind : hipMemcpyKind)
| call_memcpy (dst src : VoidPtr) (byte_size : Z).

(** The runtime is a parameter: each call sees the runtime's own state and
    answers with an error code. *)
Record HipApi (HS : Type) := {
  api_hipSetDevice : Z → HS → hipError_t * HS;
  api_hipMalloc : Z → HS → hipError_t * VoidPtr * HS;
  api_hipFree : VoidPtr → HS → hipError_t * HS;
  api_hipMemcpy : VoidPtr → VoidPtr → Z → hipMemcpyKind → HS → hipError_t * HS;
  hipGetErrorString : hipError_t → string
}.
Arguments api_hipSetDevice {HS} _.
Arguments api_hipMalloc {HS} _.
Arguments api_hipFree {HS} _.
Arguments api_hipMemcpy {HS} _.
Arguments hipGetErrorString {HS} _.

Record Hip (HS : Type) := {
  hip_state : HS;
  hip_calls : list HipCall
}.
Arguments hip_state {HS} _.
Arguments hip_calls {HS} _.

Section HipCalls.

Context {HS : Type} (hip : HipApi HS).

Definition hipSetDevice (device_id : Z) (h : Hip HS) : hipError_t * Hip HS :=
  let '(err, hs) := api_hipSetDevice hip device_id (hip_state h) in
  (err, {| hip_state := hs;
           hip_calls := hip_calls h ++ [call_hipSetDevice device_id] |}).

Definition hipMalloc (size : Z) (h : Hip HS) : hipError_t * VoidPtr * Hip HS :=
  let '(err, ptr, hs) := api_hipMalloc hip size (hip_state h) in
  (err, ptr, {| hip_state := hs;
                hip_calls := hip_calls h ++ [call_hipMalloc size] |}).

Definition hipFree (p : VoidPtr) (h : Hip HS) : hipError_t * Hip HS :=
  let '(err, hs) := api_hipFree hip p (hip_state h) in
  (err, {| hip_state := hs; hip_calls := hip_calls h ++ [call_hipFree p] |}).

Definition hipMemcpy (dst src : VoidPtr) (byte_size : Z) (kind : hipMemcpyKind)
    (h : Hip HS) : hipError_t * Hip HS :=
  let '(err, hs) := api_hipMemcpy hip dst src byte_size kind (hip_state h) in
  (err, {| hip_state := hs;
           hip_calls := hip_calls h ++ [call_hipMemcpy dst src byte_size kind] |}).

Definition memcpy (dst src : VoidPtr) (byte_size : Z) (h : Hip HS) : Hip HS :=
  {| hip_state := hip_state h;
     hip_calls := hip_calls h ++ [call_memcpy dst src byte_size] |}.

End HipCalls.

(** ** Memory descriptions of the host *)

Definition OrtMemoryInfoDeviceType_CPU : Z := 0.
Definition OrtMemoryInfoDeviceType_GPU : Z := 1.
Definition OrtDeviceMemoryType_DEFAULT : Z := 0.

Inductive OrtAllocatorType :=
| OrtInvalidAllocator
| OrtDeviceAllocator
| OrtArenaAllocator
| OrtReadOnlyAllocator.

(** [Ort::MemoryInfo], by the arguments of its constructor. *)
Record OrtMemoryInfo := {
  mi_name : string;
  mi_device_type : Z;
  mi_vendor_id : Z;
  mi_device_id : Z;
  mi_mem_type : Z;
  mi_alignment : Z;
  mi_allocator_type : OrtAllocatorType
}.

(** [OrtKeyValuePairs], in the order the pairs are added; the keys added
    here are pairwise distinct. *)
Definition OrtKeyValuePairs : Type := list (string * string).

Definition AddKeyValuePair (kvps : OrtKeyValuePairs) (key value : string)
    : OrtKeyValuePairs :=
  kvps ++ [(key, value)].

(** ** ep_allocator.h, ep_allocator.cc: the device allocator

    [size_t] values are [Z]; [static_cast<int64_t>] and the arithmetic on the
    [int64_t] statistics wrap around. *)
Module Allocator.

Record AllocatorStats := {
  num_allocs : Z;
  bytes_in_use : Z;
  total_allocated_bytes : Z;
  max_bytes_in_use : Z;
  max_alloc_size : Z
}.

Record HipDeviceAllocator := {
  memory_info_ : OrtMemoryInfo;
  device_id_ : Z;
  allocation_sizes_ : gmap VoidPtr Z;
  stats_ : AllocatorStats
}.

Definition new_HipDeviceAllocator (mem_info : OrtMemoryInfo) (device_id : Z)
    : HipDeviceAllocator :=
  {| memory_info_ := mem_info; device_id_ := device_id;
     allocation_sizes_ := ∅;
     stats_ := {| num_allocs := 0; bytes_in_use := 0;
                  total_allocated_bytes := 0; max_bytes_in_use := 0;
                  max_alloc_size := 0 |} |}.

Definition StatsToKeyValuePairs (stats : AllocatorStats)
    (kvps : OrtKeyValuePairs) : OrtKeyValuePairs :=
  if bool_decide (num_allocs stats > 0)%Z then
    let kvps := AddKeyValuePair kvps "InUse" (pretty (bytes_in_use stats)) in
    let kvps := AddKeyValuePair kvps "TotalAllocated"
                  (pretty (total_allocated_bytes stats)) in
    let kvps := AddKeyValuePair kvps "MaxInUse"
                  (pretty (max_bytes_in_use stats)) in
    let kvps := AddKeyValuePair kvps "NumAllocs" (pretty (num_allocs stats)) in
    AddKeyValuePair kvps "MaxAllocSize" (pretty (max_alloc_size stats))
  else kvps.

Section Impl.

Context {HS : Type} (hip : HipApi HS).

Definition AllocImpl (size : Z) (impl : HipDeviceAllocator) (h : Hip HS)
    : VoidPtr * HipDeviceAllocator * Hip HS :=
  let '(err, h) := hipSetDevice hip (device_id_ impl) h in
  if bool_decide (err ≠ hipSuccess) then (nullptr, impl, h)
  else
    let '(err, ptr, h) := hipMalloc hip size h in
    if bool_decide (err ≠ hipSuccess) then (nullptr, impl, h)
    else
      let stats := stats_ impl in
      let in_use := int64_wrap (bytes_in_use stats + int64_wrap size) in
      (ptr,
       {| memory_info_ := memory_info_ impl; device_id_ := device_id_ impl;
          allocation_sizes_ := <[ptr := size]> (allocation_sizes_ impl);
          stats_ :=
            {| num_allocs := int64_wrap (num_allocs stats + 1);
               bytes_in_use := in_use;
               total_allocated_bytes :=
                 int64_wrap (total_allocated_bytes stats + int64_wrap size);
               max_bytes_in_use := Z.max (max_bytes_in_use stats) in_use;
               max_alloc_size :=
                 Z.max (max_alloc_size stats) (int64_wrap size) |} |},
       h).

(** The result of [hipFree] is not looked at. *)
Definition FreeImpl (p : VoidPtr) (impl : HipDeviceAllocator) (h : Hip HS)
    : HipDeviceAllocator * Hip HS :=
  if bool_decide (p = nullptr) then (impl, h)
  else
    let '(err, h) := hipSetDevice hip (device_id_ impl) h in
    if bool_decide (err ≠ hipSuccess) then (impl, h)
    else
      let '(_, h) := hipFree hip p h in
      match allocation_sizes_ impl !! p with
      | Some size =>
          let stats := stats_ impl in
          ({| memory_info_ := memory_info_ impl; device_id_ := device_id_ impl;
              allocation_sizes_ := delete p (allocation_sizes_ impl);
              stats_ :=
                {| num_allocs := num_allocs stats;
                   bytes_in_use :=
                     int64_wrap (bytes_in_use stats - int64_wrap size);
                   total_allocated_bytes := total_allocated_bytes stats;
                   max_bytes_in_use := max_bytes_in_use stats;
                   max_alloc_size := max_alloc_size stats |} |},
           h)
      | None => (impl, h)
      end.

End Impl.

Definition InfoImpl (impl : HipDeviceAllocator) : OrtMemoryInfo :=
  memory_info_ impl.

Definition GetStatsImpl (impl : HipDeviceAllocator)
    : OrtStatus * OrtKeyValuePairs :=
  (StatusOK, StatsToKeyValuePairs (stats_ impl) []).

End Allocator.

(** ** ep_data_transfer.h, ep_data_transfer.cc: copies between host and
       device *)
Module DataTransfer.

Record OrtMemoryDevice := {
  MemoryDevice_GetMemoryType : Z;
  MemoryDevice_GetDeviceType : Z
}.

Definition CanCopyImpl (src_memory_device dst_memory_device : OrtMemoryDevice)
    : bool :=
  let src_type := MemoryDevice_GetMemoryType src_memory_device in
  let dst_type := MemoryDevice_GetMemoryType dst_memory_device in
  let src_device_type := MemoryDevice_GetDeviceType src_memory_device in
  let dst_device_type := MemoryDevice_GetDeviceType dst_memory_device in
  let src_is_cpu := bool_decide (src_device_type = OrtMemoryInfoDeviceType_CPU) in
  let dst_is_cpu := bool_decide (dst_device_type = OrtMemoryInfoDeviceType_CPU) in
  if src_is_cpu && negb dst_is_cpu
     && bool_decide (dst_type = OrtDeviceMemoryType_DEFAULT)
  then true
  else if negb src_is_cpu
          && bool_decide (src_type = OrtDeviceMemoryType_DEFAULT) && dst_is_cpu
  then true
  else if negb src_is_cpu && negb dst_is_cpu
          && bool_decide (src_type = OrtDeviceMemoryType_DEFAULT)
          && bool_decide (dst_type = OrtDeviceMemoryType_DEFAULT)
  then true
  else false.

(** A tensor value, by the accessors [CopyTensorsImpl] calls on it. *)
Record TensorTypeAndShapeInfo := {
  GetElementCount : Exc Z;
  GetElementType : Exc Z
}.

Record MemoryInfo := {
  GetDeviceType : Z
}.

Record Value := {
  GetTensorTypeAndShapeInfo : Exc TensorTypeAndShapeInfo;
  GetTensorMemoryInfo : Exc MemoryInfo;
  GetTensorRawData : Exc VoidPtr;
  GetTensorMutableRawData : Exc VoidPtr
}.

Record HipDataTransfer := {
  device_id_ : Z
}.

Definition ONNX_TENSOR_ELEMENT_DATA_TYPE_INT32 : Z := 6.
Definition ONNX_TENSOR_ELEMENT_DATA_TYPE_INT64 : Z := 7.
Definition ONNX_TENSOR_ELEMENT_DATA_TYPE_DOUBLE : Z := 11.
Definition ONNX_TENSOR_ELEMENT_DATA_TYPE_BFLOAT16 : Z := 16.

(** The [switch] on the element type; [None] is its [default] case. *)
Definition elem_size_of (elem_type : Z) : option Z :=
  if bool_decide (elem_type = ONNX_TENSOR_ELEMENT_DATA_TYPE_FLOAT) then Some 4%Z
  else if bool_decide (elem_type = ONNX_TENSOR_ELEMENT_DATA_TYPE_FLOAT16)
  then Some 2%Z
  else if bool_decide (elem_type = ONNX_TENSOR_ELEMENT_DATA_TYPE_BFLOAT16)
  then Some 2%Z
  else if bool_decide (elem_type = ONNX_TENSOR_ELEMENT_DATA_TYPE_DOUBLE)
  then Some 8%Z
  else if bool_decide (elem_type = ONNX_TENSOR_ELEMENT_DATA_TYPE_INT32)
  then Some 4%Z
  else if bool_decide (elem_type = ONNX_TENSOR_ELEMENT_DATA_TYPE_INT64)
  then Some 8%Z
  else None.

(** The choice of the copy kind; [None] is the branch that copies with
    [std::memcpy]. *)
Definition kind_of (src_device_type dst_device_type : Z) : option hipMemcpyKind :=
  if bool_decide (src_device_type = OrtMemoryInfoDeviceType_CPU)
     && bool_decide (dst_device_type = OrtMemoryInfoDeviceType_GPU)
  then Some hipMemcpyHostToDevice
  else if bool_decide (src_device_type = OrtMemoryInfoDeviceType_GPU)
          && bool_decide (dst_device_type = OrtMemoryInfoDeviceType_CPU)
  then Some hipMemcpyDeviceToHost
  else if bool_decide (src_device_type = OrtMemoryInfoDeviceType_GPU)
          && bool_decide (dst_device_type = OrtMemoryInfoDeviceType_GPU)
  then Some hipMemcpyDeviceToDevice
  else None.

(** Arithmetic on [size_t]. *)
Definition size_t_wrap (z : Z) : Z := (z mod 2 ^ 64)%Z.

Section Impl.

Context {HS : Type} (hip : HipApi HS).

(** The body of the [try] block of one iteration: it ends the call with an
    error status, or leaves by an exception, or goes on to the next
    iteration, which is the status [StatusOK] here. *)
Definition copy_tensor (src dst : Value) (h : Hip HS) : Exc (OrtStatus * Hip HS) :=
  (let* src_type_shape := GetTensorTypeAndShapeInfo src in
   let* dst_type_shape := GetTensorTypeAndShapeInfo dst in
   let* src_size := GetElementCount src_type_shape in
   let* dst_size := GetElementCount dst_type_shape in
   if bool_decide (src_size ≠ dst_size) then
     Val (StatusError ORT_EP_FAIL
            "Source and destination tensor sizes don't match", h)
   else
     let* elem_type := GetElementType src_type_shape in
     match elem_size_of elem_type with
     | None => Val (StatusError ORT_EP_FAIL "Unsupported tensor element type", h)
     | Some elem_size =>
         let byte_size := size_t_wrap (src_size * elem_size) in
         let* src_mem_info := GetTensorMemoryInfo src in
         let* dst_mem_info := GetTensorMemoryInfo dst in
         let src_device_type := GetDeviceType src_mem_info in
         let dst_device_type := GetDeviceType dst_mem_info in
         let* src_data := GetTensorRawData src in
         let* dst_data := GetTensorMutableRawData dst in
         match kind_of src_device_type dst_device_type with
         | None => Val (StatusOK, memcpy dst_data src_data byte_size h)
         | Some kind =>
             let '(err, h) := hipMemcpy hip dst_data src_data byte_size kind h in
             if bool_decide (err ≠ hipSuccess) then
               Val (StatusError ORT_EP_FAIL
                      ("hipMemcpy failed: " +:+ hipGetErrorString hip err), h)
             else Val (StatusOK, h)
         end
     end)%exc.

(** The loop over the [num_tensors] pairs, with the handlers of each
    iteration. *)
Fixpoint copy_tensors (tensors : list (Value * Value)) (h : Hip HS)
    : OrtStatus * Hip HS :=
  match tensors with
  | [] => (StatusOK, h)
  | (src, dst) :: rest =>
      match copy_tensor src dst h with
      | Raise e => (status_of_exn e, h)
      | Val (StatusOK, h') => copy_tensors rest h'
      | Val (StatusError code msg, h') => (StatusError code msg, h')
      end
  end.

Definition CopyTensorsImpl (impl : HipDataTransfer)
    (tensors : list (Value * Value)) (h : Hip HS) : OrtStatus * Hip HS :=
  let '(err, h) := hipSetDevice hip (device_id_ impl) h in
  if bool_decide (err ≠ hipSuccess) then
    (StatusError ORT_EP_FAIL
       ("Failed to set HIP device: " +:+ hipGetErrorString hip err), h)
  else copy_tensors tensors h.

End Impl.

End DataTransfer.

(** ** ep_factory.h, ep_factory.cc: the factory *)
Module Factory.

Definition OrtHardwareDeviceType_CPU : Z := 0.
Definition OrtHardwareDeviceType_GPU : Z := 1.

Record OrtHardwareDevice := {
  HardwareDevice_Type : Z;
  HardwareDevice_DeviceId : Z
}.

(** An [OrtEpDevice] as the host builds it: the arguments of
    [CreateEpDevice] and the allocator infos added since. *)
Record OrtEpDevice := {
  epd_device : OrtHardwareDevice;
  epd_metadata : OrtKeyValuePairs;
  epd_options : option OrtKeyValuePairs;
  epd_allocator_infos : list OrtMemoryInfo
}.

(** The host decides whether its calls succeed. *)
Record EpApi := {
  CreateEpDevice_status : OrtHardwareDevice → OrtStatus;
  AddAllocatorInfo_status : OrtEpDevice → OrtMemoryInfo → OrtStatus
}.

Definition CreateEpDevice (ep_api : EpApi) (device : OrtHardwareDevice)
    (ep_metadata : OrtKeyValuePairs) (ep_options : option OrtKeyValuePairs)
    : OrtStatus * OrtEpDevice :=
  (CreateEpDevice_status ep_api device,
   {| epd_device := device; epd_metadata := ep_metadata;
      epd_options := ep_options; epd_allocator_infos := [] |}).

Definition EpDevice_AddAllocatorInfo (ep_api : EpApi) (ep_device : OrtEpDevice)
    (memory_info : OrtMemoryInfo) : OrtStatus * OrtEpDevice :=
  (AddAllocatorInfo_status ep_api ep_device memory_info,
   {| epd_device := epd_device ep_device;
      epd_metadata := epd_metadata ep_device;
      epd_options := epd_options ep_device;
      epd_allocator_infos := epd_allocator_infos ep_device ++ [memory_info] |}).

Record HipDNNEpFactory := {
  ep_name_ : string;
  vendor_ : string;
  vendor_id_ : Z;
  ep_version_ : string;
  device_id_ : Z;
  default_memory_info_ : OrtMemoryInfo;
  readonly_memory_info_ : OrtMemoryInfo;
  device_allocator_ : option Allocator.HipDeviceAllocator
}.

(** The constructor: [device_id_] is 0 whether or not a device is found. *)
Definition new_HipDNNEpFactory (ep_name : string) : HipDNNEpFactory :=
  {| ep_name_ := ep_name; vendor_ := "AMD"; vendor_id_ := 4098;
     ep_version_ := "0.1.0"; device_id_ := 0;
     default_memory_info_ :=
       {| mi_name := "HipDNN_GPU";
          mi_device_type := OrtMemoryInfoDeviceType_GPU;
          mi_vendor_id := 4098; mi_device_id := 0;
          mi_mem_type := OrtDeviceMemoryType_DEFAULT; mi_alignment := 0;
          mi_allocator_type := OrtDeviceAllocator |};
     readonly_memory_info_ :=
       {| mi_name := "HipDNN_GPU_readonly";
          mi_device_type := OrtMemoryInfoDeviceType_GPU;
          mi_vendor_id := 4098; mi_device_id := 0;
          mi_mem_type := OrtDeviceMemoryType_DEFAULT; mi_alignment := 0;
          mi_allocator_type := OrtReadOnlyAllocator |};
     device_allocator_ := None |}.

Section Impl.

Context (ep_api : EpApi) (factory : HipDNNEpFactory).

(** The first loop of [GetSupportedDevicesImpl], from device [i] on;
    [num_ep_devices] is the length of [ep_devices]. *)
Fixpoint gpu_devices (devices : list OrtHardwareDevice) (max_ep_devices : nat)
    (ep_devices : list OrtEpDevice) : OrtStatus * list OrtEpDevice :=
  match devices with
  | [] => (StatusOK, ep_devices)
  | device :: rest =>
      if bool_decide (length ep_devices < max_ep_devices) then
        if bool_decide (HardwareDevice_Type device = OrtHardwareDeviceType_GPU)
        then
          let ep_metadata := AddKeyValuePair [] "backend" "hipDNN" in
          let ep_options :=
            AddKeyValuePair [] "device_id" (pretty (device_id_ factory)) in
          match CreateEpDevice ep_api device ep_metadata (Some ep_options) with
          | (StatusError code msg, _) => (StatusError code msg, ep_devices)
          | (StatusOK, ep_device) =>
              match EpDevice_AddAllocatorInfo ep_api ep_device
                      (default_memory_info_ factory) with
              | (StatusError code msg, _) => (StatusError code msg, ep_devices)
              | (StatusOK, ep_device) =>
                  match EpDevice_AddAllocatorInfo ep_api ep_device
                          (readonly_memory_info_ factory) with
                  | (StatusError code msg, _) =>
                      (StatusError code msg, ep_devices)
                  | (StatusOK, ep_device) =>
                      gpu_devices rest max_ep_devices (ep_devices ++ [ep_device])
                  end
              end
          end
        else gpu_devices rest max_ep_devices ep_devices
      else (StatusOK, ep_devices)
  end.

(** The second loop, entered with no device selected; it ends at the first
    CPU device. *)
Fixpoint cpu_device (devices : list OrtHardwareDevice) (max_ep_devices : nat)
    (ep_devices : list OrtEpDevice) : OrtStatus * list OrtEpDevice :=
  match devices with
  | [] => (StatusOK, ep_devices)
  | device :: rest =>
      if bool_decide (length ep_devices < max_ep_devices) then
        if bool_decide (HardwareDevice_Type device = OrtHardwareDeviceType_CPU)
        then
          let ep_metadata := AddKeyValuePair [] "backend" "hipDNN" in
          match CreateEpDevice ep_api device ep_metadata None with
          | (StatusError code msg, _) => (StatusError code msg, ep_devices)
          | (StatusOK, ep_device) =>
              match EpDevice_AddAllocatorInfo ep_api ep_device
                      (default_memory_info_ factory) with
              | (StatusError code msg, _) => (StatusError code msg, ep_devices)
              | (StatusOK, ep_device) => (StatusOK, ep_devices ++ [ep_device])
              end
          end
        else cpu_device rest max_ep_devices ep_devices
      else (StatusOK, ep_devices)
  end.

Definition GetSupportedDevicesImpl (devices : list OrtHardwareDevice)
    (max_ep_devices : nat) : OrtStatus * list OrtEpDevice :=
  match gpu_devices devices max_ep_devices [] with
  | (StatusError code msg, ep_devices) => (StatusError code msg, ep_devices)
  | (StatusOK, ep_devices) =>
      if bool_decide (length ep_devices = 0) then
        cpu_device devices max_ep_devices ep_devices
      else (StatusOK, ep_devices)
  end.

End Impl.

(** [CreateAllocatorImpl]: the allocator handed out is the one the factory
    owns, created at the first call. *)
Definition CreateAllocatorImpl (memory_info : OrtMemoryInfo)
    (factory : HipDNNEpFactory)
    : OrtStatus * Allocator.HipDeviceAllocator * HipDNNEpFactory :=
  let device_allocator :=
    match device_allocator_ factory with
    | None => Allocator.new_HipDeviceAllocator memory_info (device_id_ factory)
    | Some allocator => allocator
    end in
  (StatusOK, device_allocator,
   {| ep_name_ := ep_name_ factory; vendor_ := vendor_ factory;
      vendor_id_ := vendor_id_ factory; ep_version_ := ep_version_ factory;
      device_id_ := device_id_ factory;
      default_memory_info_ := default_memory_info_ factory;
      readonly_memory_info_ := readonly_memory_info_ factory;
      device_allocator_ := Some device_allocator |}).

End Factory.

(** ** Properties stated over the embedding, continued *)

(** *** Row-major strides *)
Definition product (l : list Z) : Z := foldr Z.mul 1%Z l.

Definition in_int64 (z : Z) : Prop := (- 2 ^ 63 ≤ z < 2 ^ 63)%Z.

(** *** Inference calls *)

(** The host's inference calls on one kernel, one after another. *)
Fixpoint Execute_all {VS} (vendor : VendorApi VS) (contexts : list KernelContext)
    (k : Kernel VS) : Result (list OrtStatus * Kernel VS) :=
  match contexts with
  | [] => Done ([], k)
  | context :: rest =>
      match Execute vendor context k with
      | Done (status, k') =>
          match Execute_all vendor rest k' with
          | Done (statuses, k'') => Done (status :: statuses, k'')
          | UndefinedBehaviour => UndefinedBehaviour
          end
      | UndefinedBehaviour => UndefinedBehaviour
      end
  end.

(** The kernel has a shape on record for each output it binds. *)
Definition executable {VS} (k : Kernel VS) : Prop :=
  length (output_shapes_ k) = length (output_uids_ k).

(** Every kernel the provider owns is executable. *)
Definition kernels_executable {VS} (ep : HipDNNEp VS) : Prop :=
  map_Forall (λ _ kernel, executable kernel) (kernels_ ep).

(** *** The statistics of the allocator *)

(** The bytes of the allocations the allocator tracks. *)
Definition tracked_bytes (impl : Allocator.HipDeviceAllocator) : Z :=
  map_fold (λ _ size total, (size + total)%Z) 0%Z
    (Allocator.allocation_sizes_ impl).

(** The statistics agree with the allocations tracked. *)
Record stats_consistent (impl : Allocator.HipDeviceAllocator) : Prop := {
  sizes_in_range :
    map_Forall (λ _ size, (0 ≤ size < 2 ^ 63)%Z)
      (Allocator.allocation_sizes_ impl);
  in_use_is_tracked :
    Allocator.bytes_in_use (Allocator.stats_ impl) = tracked_bytes impl;
  in_use_below_max :
    (Allocator.bytes_in_use (Allocator.stats_ impl)
     ≤ Allocator.max_bytes_in_use (Allocator.stats_ impl))%Z;
  max_below_total :
    (Allocator.max_bytes_in_use (Allocator.stats_ impl)
     ≤ Allocator.total_allocated_bytes (Allocator.stats_ impl))%Z;
  total_in_range :
    (Allocator.total_allocated_bytes (Allocator.stats_ impl) < 2 ^ 63)%Z;
  largest_is_max :
    map_Forall (λ _ size,
                  (size ≤ Allocator.max_alloc_size (Allocator.stats_ impl))%Z)
      (Allocator.allocation_sizes_ impl);
  count_below_num :
    (Z.of_nat (size (Allocator.allocation_sizes_ impl))
     ≤ Allocator.num_allocs (Allocator.stats_ impl))%Z
}.

(** *** What a data transfer copies *)

(** The copy [CopyTensorsImpl] issues for a pair of tensors that can be
    read: as many bytes as the source has elements times the size of its
    element type, in [size_t] arithmetic, from the source's data to the
    destination's, through the runtime with the kind the two device types
    select, or with [std::memcpy] when they select none. *)
Definition copy_of (src dst : DataTransfer.Value) (c : HipCall) : Prop :=
  ∃ src_type_shape dst_type_shape count elem_type elem_size
    src_mem_info dst_mem_info src_data dst_data,
    DataTransfer.GetTensorTypeAndShapeInfo src = Val src_type_shape
    ∧ DataTransfer.GetTensorTypeAndShapeInfo dst = Val dst_type_shape
    ∧ DataTransfer.GetElementCount src_type_shape = Val count
    ∧ DataTransfer.GetElementCount dst_type_shape = Val count
    ∧ DataTransfer.GetElementType src_type_shape = Val elem_type
    ∧ DataTransfer.elem_size_of elem_type = Some elem_size
    ∧ DataTransfer.GetTensorMemoryInfo src = Val src_mem_info
    ∧ DataTransfer.GetTensorMemoryInfo dst = Val dst_mem_info
    ∧ DataTransfer.GetTensorRawData src = Val src_data
    ∧ DataTransfer.GetTensorMutableRawData dst = Val dst_data
    ∧ c = match DataTransfer.kind_of
                  (DataTransfer.GetDeviceType src_mem_info)
                  (DataTransfer.GetDeviceType dst_mem_info) with
          | Some kind =>
              call_hipMemcpy dst_data src_data
                (DataTransfer.size_t_wrap (count * elem_size)) kind
          | None =>
              call_memcpy dst_data src_data
                (DataTransfer.size_t_wrap (count * elem_size))
          end.

Definition is_cpu_or_gpu (device_type : Z) : Prop :=
  device_type = OrtMemoryInfoDeviceType_CPU
  ∨ device_type = OrtMemoryInfoDeviceType_GPU.

(** *** The devices the factory selects *)

(** The entry for a GPU device and the entry for the CPU device of the
    fallback, as the host has them after the factory's calls. *)
Definition gpu_ep_device (factory : Factory.HipDNNEpFactory)
    (device : Factory.OrtHardwareDevice) : Factory.OrtEpDevice :=
  {| Factory.epd_device := device;
     Factory.epd_metadata := [("backend", "hipDNN")];
     Factory.epd_options :=
       Some [("device_id", pretty (Factory.device_id_ factory))];
     Factory.epd_allocator_infos :=
       [Factory.default_memory_info_ factory;
        Factory.readonly_memory_info_ factory] |}.

Definition cpu_ep_device (factory : Factory.HipDNNEpFactory)
    (device : Factory.OrtHardwareDevice) : Factory.OrtEpDevice :=
  {| Factory.epd_device := device;
     Factory.epd_metadata := [("backend", "hipDNN")];
     Factory.epd_options := None;
     Factory.epd_allocator_infos := [Factory.default_memory_info_ factory] |}.

(** The selection made from [devices] with room for [max_ep_devices]
    entries: the first GPU devices, as many as there is room for; without
    any, the first CPU device if there is room for one. *)
Definition selected_devices (factory : Factory.HipDNNEpFactory)
    (devices : list Factory.OrtHardwareDevice) (max_ep_devices : nat)
    : list Factory.OrtEpDevice :=
  let gpus :=
    filter (λ device, Factory.HardwareDevice_Type device
                      = Factory.OrtHardwareDeviceType_GPU) devices in
  let cpus :=
    filter (λ device, Factory.HardwareDevice_Type device
                      = Factory.OrtHardwareDeviceType_CPU) devices in
  match take max_ep_devices gpus with
  | [] => cpu_ep_device factory <$> take (min 1 max_ep_devices) cpus
  | selected => gpu_ep_device factory <$> selected
  end.

(** A host that lets every call succeed. *)
Definition accepts_all (ep_api : Factory.EpApi) : Prop :=
  (∀ device, Factory.CreateEpDevice_status ep_api device = StatusOK)
  ∧ (∀ ep_device memory_info,
       Factory.AddAllocatorInfo_status ep_api ep_device memory_info = StatusOK).

(** The factory after calls of [CreateAllocatorImpl] for the memory infos
    of the list, in order. *)
Definition create_allocators (memory_infos : list OrtMemoryInfo)
    (factory : Factory.HipDNNEpFactory) : Factory.HipDNNEpFactory :=
  foldl (λ factory memory_info,
           (Factory.CreateAllocatorImpl memory_info factory).2)
    factory memory_infos.

(** *** What translation builds *)

(** A tensor object describes a value: its name, shape and element type are
    the value's, its strides those of a dense row-major layout. *)
Definition describes (value_info : ValueInfo) (a : TensorAttributes) : Prop :=
  ∃ name shape elem dtype,
    vi_GetName value_info = Val name
    ∧ GetTensorShape value_info = Val (Some shape)
    ∧ GetTensorElementType value_info = Val elem
    ∧ ToHipDNNDataType elem = Some dtype
    ∧ ta_name a = name
    ∧ ta_dim a = shape
    ∧ ta_stride a = ComputeStrides shape
    ∧ ta_data_type a = dtype.

(** Among the tensor objects named [names], in the order of their creation,
    [name] resolves to the object [attr]: the last one of that name. *)
Definition resolves_to (names : list string) (name : string) (attr : nat)
    : Prop :=
  names !! attr = Some name ∧ ∀ j, (attr < j)%nat → names !! j ≠ Some name.

(** The operation [op] is the translation of the Conv node [node], whose
    output is the tensor object number [position]. *)
Definition conv_of (names : list string) (position : nat) (node : Node)
    (op : ConvFpropNode) : Prop :=
  GetOperatorType node = Val "Conv"
  ∧ ∃ x w more y x_name w_name pads,
      node_GetInputs node = Val (x :: w :: more)
      ∧ node_GetOutputs node = Val [y]
      ∧ vi_GetName x = Val x_name
      ∧ vi_GetName w = Val w_name
      ∧ resolves_to (take position names) x_name (op_x op)
      ∧ resolves_to (take position names) w_name (op_w op)
      ∧ op_y op = position
      ∧ NormalizePads (GetIntsAttrOrDefault node "pads" [0; 0; 0; 0]%Z)
        = Some pads
      ∧ conv_padding (op_attrs op) = take 2 pads
      ∧ conv_stride (op_attrs op)
        = take 2 (GetIntsAttrOrDefault node "strides" [1; 1]%Z)
      ∧ length (conv_stride (op_attrs op)) = 2%nat
      ∧ conv_dilation (op_attrs op)
        = take 2 (GetIntsAttrOrDefault node "dilations" [1; 1]%Z)
      ∧ length (conv_dilation (op_attrs op)) = 2%nat
      ∧ conv_convolution_mode (op_attrs op) = CROSS_CORRELATION
      ∧ conv_compute_data_type (op_attrs op) = FLOAT.

(** The vendor graph of a kernel in translation, after the graph inputs
    [ins], the nodes [nodes] and the graph outputs [outs] have been
    processed. *)
Record GraphInv {VS} (ins : list ValueInfo) (nodes : list Node)
    (outs : list ValueInfo) (k : Kernel VS) : Prop := {
  ginv_tensors : Forall2 describes (ins ++ produced_values nodes) (tensors k);
  ginv_table :
    ∀ name attr,
      symbol_table_ k !! name = Some attr ↔ resolves_to (names k) name attr;
  ginv_one_output : length (produced_values nodes) = length nodes;
  ginv_ops_length : length (graph_ops k) = length nodes;
  ginv_ops :
    ∀ j node op,
      nodes !! j = Some node → graph_ops k !! j = Some op →
      conv_of (names k) (length ins + j) node op;
  ginv_virtual :
    ∀ i a,
      tensors k !! i = Some a →
      (ta_is_virtual a = false
       ↔ (i < length ins)%nat
         ∨ ∃ output name,
             output ∈ outs ∧ vi_GetName output = Val name
             ∧ symbol_table_ k !! name = Some i)
}.

(** A node that translation can take: a Conv node with at least two inputs
    and exactly one output, of static shape and of an element type the
    vendor has, whose pads have two or four elements and whose strides and
    dilations have the two elements read from them. *)
Definition translatable (node : Node) : Prop :=
  GetOperatorType node = Val "Conv"
  ∧ (∃ inputs, node_GetInputs node = Val inputs ∧ (2 ≤ length inputs)%nat)
  ∧ (∃ y shape elem dtype,
       node_GetOutputs node = Val [y]
       ∧ GetTensorShape y = Val (Some shape)
       ∧ GetTensorElementType y = Val elem
       ∧ ToHipDNNDataType elem = Some dtype)
  ∧ is_Some (NormalizePads (GetIntsAttrOrDefault node "pads" [0; 0; 0; 0]%Z))
  ∧ conv_attrs_in_range node.

(** ** More samples

    An inference call, hosts and runtimes that accept or refuse, tensors
    to copy and devices to select from. *)
Module MoreSamples.

(** The kernel [Samples.compiled_kernel] after one inference call. *)
Definition executed_kernel : Kernel unit :=
  match Execute (Samples.ok_vendor 0) Samples.context Samples.compiled_kernel with
  | Done (_, k) => k
  | UndefinedBehaviour => Samples.compiled_kernel
  end.

(** A call that supplies one input where the graph declares two. *)
Definition short_context : KernelContext :=
  {| GetInputCount := Val 1%nat; GetOutputCount := Val 1%nat;
     GetInput := λ i, Val (Samples.buffer (100 + Z.of_nat i));
     GetOutput := λ i _, Val (Samples.buffer (200 + Z.of_nat i)) |}.

(** A node whose operator type cannot be read, after a supported one. *)
Definition unreadable_node : Node :=
  {| node_GetName := Val "broken";
     GetOperatorType := Raise (OrtException 1 "no operator type");
     node_GetInputs := Val [Samples.X; Samples.W];
     node_GetOutputs := Val [Samples.Y];
     GetAttributeByName := Samples.attributes [] |}.

Definition unreadable_graph : Graph :=
  Samples.graph_of [Samples.X; Samples.W] [Samples.Y]
    [Samples.conv0; unreadable_node].

(** A host that accepts one group and no more. *)
Definition accept_first : list (list Node) → list Node → OrtStatus :=
  λ graph_support_info _,
    match graph_support_info with
    | [] => StatusOK
    | _ => StatusError 2 "no room"
    end.

Definition two_conv_graph : Graph :=
  Samples.graph_of [Samples.X; Samples.W] [Samples.Y]
    [Samples.conv0; Samples.conv0].

Definition relu_graph : Graph :=
  Samples.graph_of [Samples.X; Samples.W] [Samples.Y] [Samples.relu_node].

(** A runtime whose calls succeed; its state is the next free address. *)
Definition hip_ok : HipApi Z :=
  {| api_hipSetDevice := λ _ hs, (hipSuccess, hs);
     api_hipMalloc := λ size hs, (hipSuccess, raw_data hs, (hs + size)%Z);
     api_hipFree := λ _ hs, (hipSuccess, hs);
     api_hipMemcpy := λ _ _ _ _ hs, (hipSuccess, hs);
     hipGetErrorString := λ err, "hip error " +:+ pretty err |}.

(** A runtime that has no device. *)
Definition hip_without_device : HipApi Z :=
  {| api_hipSetDevice := λ _ hs, (101%Z, hs);
     api_hipMalloc := λ size hs, (hipSuccess, raw_data hs, (hs + size)%Z);
     api_hipFree := λ _ hs, (hipSuccess, hs);
     api_hipMemcpy := λ _ _ _ _ hs, (hipSuccess, hs);
     hipGetErrorString := λ err, "hip error " +:+ pretty err |}.

Definition hip0 : Hip Z := {| hip_state := 4096%Z; hip_calls := [] |}.

Definition factory0 : Factory.HipDNNEpFactory :=
  Factory.new_HipDNNEpFactory "HipDNN".

Definition allocator0 : Allocator.HipDeviceAllocator :=
  Allocator.new_HipDeviceAllocator (Factory.default_memory_info_ factory0) 0.

(** The allocator after an allocation of 16 bytes, and after freeing it. *)
Definition allocated_16 : VoidPtr * Allocator.HipDeviceAllocator * Hip Z :=
  Allocator.AllocImpl hip_ok 16 allocator0 hip0.

Definition freed_16 : Allocator.HipDeviceAllocator * Hip Z :=
  Allocator.FreeImpl hip_ok allocated_16.1.1 allocated_16.1.2 allocated_16.2.

Definition cpu_memory : DataTransfer.OrtMemoryDevice :=
  {| DataTransfer.MemoryDevice_GetMemoryType := OrtDeviceMemoryType_DEFAULT;
     DataTransfer.MemoryDevice_GetDeviceType := OrtMemoryInfoDeviceType_CPU |}.

Definition gpu_memory : DataTransfer.OrtMemoryDevice :=
  {| DataTransfer.MemoryDevice_GetMemoryType := OrtDeviceMemoryType_DEFAULT;
     DataTransfer.MemoryDevice_GetDeviceType := OrtMemoryInfoDeviceType_GPU |}.

(** A float32 tensor of four elements on a device, at an address. *)
Definition tensor (device_type address : Z) : DataTransfer.Value :=
  {| DataTransfer.GetTensorTypeAndShapeInfo :=
       Val {| DataTransfer.GetElementCount := Val 4%Z;
              DataTransfer.GetElementType :=
                Val ONNX_TENSOR_ELEMENT_DATA_TYPE_FLOAT |};
     DataTransfer.GetTensorMemoryInfo :=
       Val {| DataTransfer.GetDeviceType := device_type |};
     DataTransfer.GetTensorRawData := Val (raw_data address);
     DataTransfer.GetTensorMutableRawData := Val (raw_data address) |}.

Definition upload : DataTransfer.Value * DataTransfer.Value :=
  (tensor OrtMemoryInfoDeviceType_CPU 100, tensor OrtMemoryInfoDeviceType_GPU 4096).

Definition transfer : DataTransfer.HipDataTransfer :=
  {| DataTransfer.device_id_ := 0 |}.

Definition uploaded : OrtStatus * Hip Z :=
  DataTransfer.CopyTensorsImpl hip_ok transfer [upload] hip0.

Definition not_uploaded : OrtStatus * Hip Z :=
  DataTransfer.CopyTensorsImpl hip_without_device transfer [upload] hip0.

(** A CPU device and two GPU devices, and a host that accepts. *)
Definition cpu0 : Factory.OrtHardwareDevice :=
  {| Factory.HardwareDevice_Type := Factory.OrtHardwareDeviceType_CPU;
     Factory.HardwareDevice_DeviceId := 0 |}.

Definition gpu (device_id : Z) : Factory.OrtHardwareDevice :=
  {| Factory.HardwareDevice_Type := Factory.OrtHardwareDeviceType_GPU;
     Factory.HardwareDevice_DeviceId := device_id |}.

Definition accepting_host : Factory.EpApi :=
  {| Factory.CreateEpDevice_status := λ _, StatusOK;
     Factory.AddAllocatorInfo_status := λ _ _, StatusOK |}.

End MoreSamples.

(** * Attribute readers *)

(** C9. Each typed attribute reader returns the caller's default when the
    attribute is absent (the lookup status is not OK or the attribute
    pointer is null) and also when the attribute exists but reading it as
    the requested type fails; it returns the value read otherwise. The
    readers are total functions into the value type: no error leaves them. *)
Theorem attr_readers_fall_back_to_default (node : Node) (name : string)
    (status : OrtStatus) (attr : option OpAttr) :
  GetAttributeByName node name = (status, attr) →
  (IsOK status = false ∨ attr = None →
     (∀ d, GetStringAttrOrDefault node name d = d)
     ∧ (∀ d, GetIntAttrOrDefault node name d = d)
     ∧ (∀ d, GetIntsAttrOrDefault node name d = d))
  ∧ (∀ a, IsOK status = true → attr = Some a →
       (∀ d, GetStringAttrOrDefault node name d = default d (GetValue_string a))
       ∧ (∀ d, GetIntAttrOrDefault node name d = default d (GetValue_int a))
       ∧ (∀ d, GetIntsAttrOrDefault node name d
               = default d (GetValueArray_ints a))).
Proof.
  intros Hget. unfold GetStringAttrOrDefault, GetIntAttrOrDefault,
    GetIntsAttrOrDefault. rewrite Hget. split.
  - intros [Hbad | ->]; [|done].
    rewrite Hbad. by destruct attr.
  - intros a Hok ->. rewrite Hok. simpl.
    repeat split; intros d; by case_match.
Qed.

(** A node carrying a string where an integer list is expected: the list
    reader answers with the default. *)
Lemma attr_readers_fall_back_to_default_witness :
  GetIntsAttrOrDefault
    (Samples.conv_node "c" [] [] [("pads", Samples.string_attr "SAME")])
    "pads" [0; 0; 0; 0]%Z = [0; 0; 0; 0]%Z.
Proof.
  set (node := Samples.conv_node _ _ _ _).
  destruct (attr_readers_fall_back_to_default node "pads" StatusOK
              (Some (Samples.string_attr "SAME")) eq_refl) as [_ H].
  destruct (H (Samples.string_attr "SAME") eq_refl eq_refl) as (_ & _ & H3).
  exact (H3 [0; 0; 0; 0]%Z).
Defined.

(** * The capability matcher *)

(** C2, as the code has it. [IsSupportedConv] accepts a node exactly when
    the six rules hold with the dilation rule read as "the dilations
    attribute (default [1,1]) is the two-element list [1,1]": arity,
    one element type out of float32 and float16 for operand, weight and
    output, static 4-dimensional operand and weight, auto_pad NOTSET,
    group 1. *)
Theorem IsSupportedConv_iff_rules (node : Node) :
  IsSupportedConv node = true ↔ Conv_rules_of_code node.
Proof.
  unfold IsSupportedConv, IsSupportedConv_try, Conv_rules_of_code, Conv_rules.
  split.
  - destruct (node_GetInputs node) as [inputs|] eqn:Hin; [|done].
    destruct (node_GetOutputs node) as [outputs|] eqn:Hout; [|done].
    simpl.
    destruct inputs as [|x [|w inputs]]; [done..|].
    destruct outputs as [|y [|]]; [done| |done].
    destruct (GetTensorElementType x) as [tx|] eqn:Hx; [|done].
    destruct (GetTensorElementType w) as [tw|] eqn:Hw; [|done].
    destruct (GetTensorElementType y) as [ty|] eqn:Hy; [|done].
    simpl.
    repeat match goal with
           | |- context [bool_decide ?P] =>
               destruct (bool_decide_reflect P); simpl; try done
           end;
      (destruct (GetTensorShape x) as [[xs|]|] eqn:Hxs; [| |done];
       (destruct (GetTensorShape w) as [[ws|]|] eqn:Hws; [|done..]); [|done]);
      simpl;
      repeat match goal with
             | |- context [bool_decide ?P] =>
                 destruct (bool_decide_reflect P); simpl; try done
             end;
      intros _; subst;
      exists (x :: w :: inputs), [y], x, w, y;
      repeat match goal with
             | H : ¬ (_ ≠ _) |- _ => apply dec_stable in H
             end.
    all: eexists _, xs, ws; repeat split; simpl; try done; try lia; auto.
    all: destruct (GetIntsAttrOrDefault _ _ _) as [|d0 [|d1 [|]]];
      by simplify_eq/=.
  - intros (inputs & outputs & x & w & y & elem & xs & ws & -> & -> & Hn & Hm
            & Hx & Hw & Hy & Htx & Htw & Hty & Hel & Hxs & Hws & Hlx & Hlw
            & Hpad & Hgroup & Hdil).
    simpl.
    destruct inputs as [|x' [|w' inputs]]; simplify_eq/=.
    destruct outputs as [|y' [|]]; simplify_eq/=.
    rewrite Htx, Htw, Hty. simpl.
    rewrite Hxs, Hws. simpl.
    rewrite Hlx, Hlw, Hpad, Hgroup, Hdil.
    destruct Hel as [-> | ->]; done.
Qed.

(** C2, as the design words it, fails: a node with dilations [1,1,1]
    satisfies all six rules with "all-ones" dilations and is rejected. *)
Lemma IsSupportedConv_all_ones_counterexample :
  Conv_rules_as_specified Samples.conv_dilations_111
  ∧ IsSupportedConv Samples.conv_dilations_111 = false.
Proof.
  split; [|reflexivity].
  exists [Samples.X; Samples.W], [Samples.Y], Samples.X, Samples.W, Samples.Y,
    Samples.float32, [1; 1; 8; 8]%Z, [1; 1; 3; 3]%Z.
  repeat split; try reflexivity; try (simpl; lia); try (by left).
  change (all_ones [1; 1; 1]%Z). by repeat constructor.
Qed.

(** * Translation of a Conv node *)

Lemma NormalizePads_None (pads : list Z) :
  length pads ≠ 2%nat → length pads ≠ 4%nat → NormalizePads pads = None.
Proof.
  intros H2 H4. unfold NormalizePads.
  destruct pads as [|p0 [|p1 [|p2 pads]]]; simpl in *;
    rewrite ?bool_decide_eq_true_2; done.
Qed.

Lemma NormalizePads_Some (pads pads' : list Z) :
  NormalizePads pads = Some pads' → length pads' = 4%nat.
Proof.
  unfold NormalizePads.
  destruct pads as [|p0 [|p1 [|p2 pads]]]; simpl;
    try case_bool_decide; intros; simplify_eq/=; try done.
  lia.
Qed.

(** C5. A two-element pads attribute [h, w] is normalized to [h, w, h, w];
    a pads attribute of any length other than 2 and 4 makes [AddConvNode]
    return an error; and when [AddConvNode] succeeds, the convolution it
    adds to the vendor graph carries the first two elements of the
    normalized pads as its padding, the last two appearing nowhere. *)
Theorem conv_padding_normalization {VS : Type} :
  (∀ h w : Z, NormalizePads [h; w] = Some [h; w; h; w])
  ∧ (∀ (node : Node) (input_attrs : list TensorAttrPtr) (k : Kernel VS),
       length (GetIntsAttrOrDefault node "pads" [0; 0; 0; 0]%Z) ≠ 2%nat →
       length (GetIntsAttrOrDefault node "pads" [0; 0; 0; 0]%Z) ≠ 4%nat →
       ∃ msg, AddConvNode node input_attrs k = Returned ORT_EP_FAIL msg k)
  ∧ (∀ (node : Node) (input_attrs : list TensorAttrPtr) (k k' : Kernel VS)
       (y : TensorAttrPtr),
       AddConvNode node input_attrs k = Normal y k' →
       ∃ p0 p1 p2 p3 op,
         NormalizePads (GetIntsAttrOrDefault node "pads" [0; 0; 0; 0]%Z)
         = Some [p0; p1; p2; p3]
         ∧ graph_ops k' = graph_ops k ++ [op]
         ∧ conv_padding (op_attrs op) = [p0; p1]).
Proof.
  split; [done|]. split.
  - intros node input_attrs k H2 H4. unfold AddConvNode.
    destruct input_attrs as [|x [|w ?]]; [by eexists..|].
    rewrite (NormalizePads_None _ H2 H4). by eexists.
  - intros node input_attrs k k' y. unfold AddConvNode.
    destruct input_attrs as [|x [|w ?]]; [done..|].
    destruct (NormalizePads _) as [pads|] eqn:Hpads; [|done].
    pose proof (NormalizePads_Some _ _ Hpads) as Hlen.
    destruct pads as [|p0 [|p1 [|p2 [|p3 [|]]]]]; try done.
    unfold km_bind, deref, index, conv_fprop, make_shared, modify, km_bind,
      km_ret, undefined, RETURN_ERROR.
    destruct (tensors k !! x); [|done].
    destruct (tensors k !! w); [|done].
    destruct (GetComputeDataType _ _); [|done]. simpl.
    destruct (GetIntsAttrOrDefault node "strides" _ !! 0%nat); [|done].
    destruct (GetIntsAttrOrDefault node "strides" _ !! 1%nat); [|done].
    destruct (GetIntsAttrOrDefault node "dilations" _ !! 0%nat); [|done].
    destruct (GetIntsAttrOrDefault node "dilations" _ !! 1%nat); [|done].
    intros [= <- <-]. simpl. by eexists p0, p1, p2, p3, _.
Qed.

(** The node with pads [1, 2], added to a kernel holding its two inputs:
    the convolution recorded in the graph has padding [1, 2]. *)
Lemma conv_padding_normalization_witness :
  ∃ op, graph_ops
          (match AddConvNode Samples.conv_pads_12 [0; 1]%nat
                   Samples.kernel_with_inputs with
           | Normal _ k' => k'
           | _ => Samples.kernel_with_inputs
           end) = [op]
        ∧ conv_padding (op_attrs op) = [1; 2]%Z.
Proof.
  destruct (proj2 (proj2 (@conv_padding_normalization unit))
              Samples.conv_pads_12 [0; 1]%nat Samples.kernel_with_inputs
              (match AddConvNode Samples.conv_pads_12 [0; 1]%nat
                       Samples.kernel_with_inputs with
               | Normal _ k' => k'
               | _ => Samples.kernel_with_inputs
               end) 2%nat eq_refl)
    as (p0 & p1 & p2 & p3 & op & Hpads & Hops & Hpad).
  exists op. split; [exact Hops|].
  vm_compute in Hpads. injection Hpads as <- <- <- <-. exact Hpad.
Defined.

(** The translation functions on the samples. *)

Example ComputeStrides_NCHW :
  ComputeStrides [1; 1; 8; 8]%Z = [64; 64; 8; 1]%Z.
Proof. reflexivity. Qed.

Example NormalizePads_two : NormalizePads [1; 2]%Z = Some [1; 2; 1; 2]%Z.
Proof. reflexivity. Qed.

Example NormalizePads_three : NormalizePads [1; 2; 3]%Z = None.
Proof. reflexivity. Qed.

Example IsSupportedConv_conv0 : IsSupportedConv Samples.conv0 = true.
Proof. reflexivity. Qed.

(** A strides attribute with a single element is read past its end. *)
Example BuildAndCompile_short_strides :
  BuildAndCompile (Samples.ok_vendor 0)
    (Samples.graph_of [Samples.X; Samples.W] [Samples.Y]
       [Samples.conv_strides_1])
    (new_Kernel (Samples.ok_vendor 0) 7) = UndefinedBehaviour.
Proof. vm_compute. reflexivity. Qed.

(** The fourth stage fails: four stages are called, and the error names
    the stage and carries the vendor's message. *)
Example BuildAndCompile_without_engine :
  ∃ k',
    BuildAndCompile Samples.vendor_without_engine Samples.conv_graph
      (new_Kernel Samples.vendor_without_engine 7)
    = Done (StatusError ORT_EP_FAIL "hipDNN check_support failed: no engine", k')
    ∧ ev_call <$> vendor_calls k'
      = [call_validate; call_build_operation_graph 7;
         call_create_execution_plans [FALLBACK]; call_check_support].
Proof.
  eexists. split; [vm_compute; reflexivity|]. vm_compute. reflexivity.
Qed.

(** * Rules for reasoning about member functions *)

Section Rules.

Context {VS : Type} (U : Prop).
Implicit Types (k : Kernel VS) (E : Kernel VS → Prop).

Lemma wp_ret {A} (a : A) (Q : A → Kernel VS → Prop) E k :
  Q a k → wp U (km_ret a) Q E k.
Proof. done. Qed.

Lemma wp_bind {A B} (c : KM VS A) (f : A → KM VS B)
    (Q : B → Kernel VS → Prop) E k :
  wp U c (λ a k', wp U (f a) Q E k') E k → wp U (km_bind c f) Q E k.
Proof. unfold wp, km_bind. by destruct (c k). Qed.

Lemma wp_mono {A} (c : KM VS A) (Q Q' : A → Kernel VS → Prop) E E' k :
  wp U c Q E k → (∀ a k', Q a k' → Q' a k') → (∀ k', E k' → E' k') →
  wp U c Q' E' k.
Proof. unfold wp. destruct (c k); auto. Qed.

Lemma wp_call {A} (c : Exc A) (Q : A → Kernel VS → Prop) E k :
  (∀ a, c = Val a → Q a k) → E k → wp U (call c) Q E k.
Proof. unfold wp, call. destruct c; auto. Qed.

Lemma wp_get {A} (f : Kernel VS → A) (Q : A → Kernel VS → Prop) E k :
  Q (f k) k → wp U (get f) Q E k.
Proof. done. Qed.

Lemma wp_modify (f : Kernel VS → Kernel VS) (Q : unit → Kernel VS → Prop) E k :
  Q tt (f k) → wp U (modify f) Q E k.
Proof. done. Qed.

Lemma wp_RETURN_ERROR {A} code msg (Q : A → Kernel VS → Prop) E k :
  E k → wp U (RETURN_ERROR code msg) Q E k.
Proof. done. Qed.

Lemma wp_undefined {A} (Q : A → Kernel VS → Prop) E k :
  U → wp U undefined Q E k.
Proof. done. Qed.

Lemma wp_index {A} (v : list A) (i : nat) (Q : A → Kernel VS → Prop) E k :
  (∀ a, v !! i = Some a → Q a k) → (v !! i = None → U) →
  wp U (index v i) Q E k.
Proof.
  intros H HU. unfold index. destruct (v !! i); [by apply H | by apply HU].
Qed.

Lemma wp_deref (p : TensorAttrPtr) (Q : TensorAttributes → Kernel VS → Prop) E k :
  (∀ a, tensors k !! p = Some a → Q a k) → (tensors k !! p = None → U) →
  wp U (deref p) Q E k.
Proof. unfold wp, deref. destruct (tensors k !! p); auto. Qed.

Lemma wp_update (p : TensorAttrPtr) f (Q : unit → Kernel VS → Prop) E k :
  Q tt (with_tensors (alter f p (tensors k)) k) → wp U (update p f) Q E k.
Proof. done. Qed.

Lemma wp_make_shared a (Q : TensorAttrPtr → Kernel VS → Prop) E k :
  Q (length (tensors k)) (with_tensors (tensors k ++ [a]) k) →
  wp U (make_shared a) Q E k.
Proof. done. Qed.

Lemma wp_next_uid (Q : Z → Kernel VS → Prop) E k :
  Q (next_uid_ k) (with_next_uid (int64_wrap (next_uid_ k + 1)) k) →
  wp U next_uid_post_increment Q E k.
Proof. done. Qed.

(** A loop with invariant [I], indexed by the elements already visited. *)
Lemma wp_for_each {A} (l : list A) (body : A → KM VS unit)
    (I : list A → Kernel VS → Prop) E k :
  I [] k →
  (∀ visited x rest k', l = visited ++ x :: rest → I visited k' →
     wp U (body x) (λ _, I (visited ++ [x])) E k') →
  wp U (for_each l body) (λ _, I l) E k.
Proof.
  intros Hinit Hbody.
  enough (∀ visited rest k', l = visited ++ rest → I visited k' →
            wp U (for_each rest body) (λ _, I l) E k') as H
    by exact (H [] l k eq_refl Hinit).
  intros visited rest. revert visited.
  induction rest as [|x rest IH]; intros visited k' Hl Hv; simpl.
  - rewrite app_nil_r in Hl. by subst.
  - apply wp_bind. eapply wp_mono; [by eapply Hbody| |done].
    intros [] k'' Hv'. simpl in Hv'. apply (IH (visited ++ [x])); [|done].
    by rewrite <- app_assoc.
Qed.

Lemma wp_map_each {A B} (l : list A) (body : A → KM VS B)
    (R : A → B → Prop) (I : Kernel VS → Prop) E k :
  I k →
  (∀ x k', x ∈ l → I k' → wp U (body x) (λ y k'', R x y ∧ I k'') E k') →
  wp U (map_each l body) (λ ys k', Forall2 R l ys ∧ I k') E k.
Proof.
  revert k. induction l as [|x l IH]; intros k Hk Hbody; simpl.
  - by split.
  - apply wp_bind. eapply wp_mono; [apply Hbody; [left|done]| |done].
    intros y k' [Hy Hk']. simpl. apply wp_bind.
    eapply wp_mono; [apply IH; [done|]| |done].
    + intros x' k'' Hx'. apply Hbody. by right.
    + intros ys k'' [Hys Hk'']. simpl. split; [by constructor|done].
Qed.

Lemma wp_fold_each {A S} (l : list A) (body : S → A → KM VS S) (s : S)
    (I : list A → S → Kernel VS → Prop) E k :
  I [] s k →
  (∀ visited x rest s' k', l = visited ++ x :: rest → I visited s' k' →
     wp U (body s' x) (λ s'' k'', I (visited ++ [x]) s'' k'') E k') →
  wp U (fold_each l body s) (λ s' k', I l s' k') E k.
Proof.
  intros Hinit Hbody.
  enough (∀ visited rest s' k', l = visited ++ rest → I visited s' k' →
            wp U (fold_each rest body s') (λ s'' k'', I l s'' k'') E k') as H
    by exact (H [] l s k eq_refl Hinit).
  intros visited rest. revert visited.
  induction rest as [|x rest IH]; intros visited s' k' Hl Hv; simpl.
  - rewrite app_nil_r in Hl. by subst.
  - apply wp_bind. eapply wp_mono; [by eapply Hbody| |done].
    intros s'' k'' Hv'. simpl in Hv'. apply (IH (visited ++ [x])); [|done].
    by rewrite <- app_assoc.
Qed.

End Rules.

Ltac kernel_simpl :=
  unfold uids, names in *;
  cbn [handle_ graph_ops graph_state tensors workspace_ input_uids_
       output_uids_ output_shapes_ symbol_table_ next_uid_ vendor_calls
       with_graph with_tensors with_workspace with_input_uids
       with_output_uids with_output_shapes with_symbol_table with_next_uid
       with_vendor_calls] in *.

Ltac wp_step :=
  lazymatch goal with
  | |- wp _ (km_bind _ _) _ _ _ => apply wp_bind
  | |- wp _ (km_ret _) _ _ _ => apply wp_ret
  | |- wp _ (call _) _ _ _ => apply wp_call; [intros ? ?|]
  | |- wp _ (get _) _ _ _ => apply wp_get
  | |- wp _ (modify _) _ _ _ => apply wp_modify
  | |- wp _ (RETURN_ERROR _ _) _ _ _ => apply wp_RETURN_ERROR
  | |- wp _ undefined _ _ _ => apply wp_undefined
  | |- wp _ (index _ _) _ _ _ => apply wp_index; [intros ? ?|intros ?]
  | |- wp _ (deref _) _ _ _ => apply wp_deref; [intros ? ?|intros ?]
  | |- wp _ (update _ _) _ _ _ => apply wp_update
  | |- wp _ (make_shared _) _ _ _ => apply wp_make_shared
  | |- wp _ next_uid_post_increment _ _ _ => apply wp_next_uid
  | |- wp _ (match ?x with _ => _ end) _ _ _ => destruct x eqn:?
  end; cbv beta; kernel_simpl.

Ltac wp_steps := repeat wp_step.

(** * Translation *)

Lemma alter_last {A} (f : A → A) (l : list A) (a : A) :
  alter f (length l) (l ++ [a]) = l ++ [f a].
Proof.
  rewrite <- (Nat.add_0_r (length l)). by rewrite alter_app_r.
Qed.

Lemma nth_uid_succ (n : nat) : int64_wrap (nth_uid n + 1) = nth_uid (S n).
Proof.
  unfold nth_uid, int64_wrap. f_equal.
  set (a := (Z.of_nat n + 1 + 2 ^ 63)%Z).
  replace (a mod 2 ^ 64 - 2 ^ 63 + 1 + 2 ^ 63)%Z with (a mod 2 ^ 64 + 1)%Z
    by lia.
  rewrite Zplus_mod_idemp_l. f_equal. lia.
Qed.

Lemma nth_uid_small (n : nat) :
  (Z.of_nat n + 1 < 2 ^ 63)%Z → nth_uid n = (Z.of_nat n + 1)%Z.
Proof.
  intros H. unfold nth_uid, int64_wrap.
  rewrite Z.mod_small; lia.
Qed.

Section Translation.

Context {VS : Type} (U : Prop).
Implicit Types (k : Kernel VS).

Lemma inv_length k0 ins nodes outs k :
  TranslationInv k0 ins nodes outs k →
  length (tensors k) = length ins + length (produced_values nodes).
Proof.
  intros H. pose proof (inv_uids _ _ _ _ _ H) as Hu.
  apply (f_equal length) in Hu. unfold uids in Hu.
  by rewrite !length_fmap, length_seq in Hu.
Qed.

Lemma translate_graph_input_inv k0 ins input k :
  TranslationInv k0 ins [] [] k →
  wp U (translate_graph_input input)
     (λ _, TranslationInv k0 (ins ++ [input]) [] [])
     (untouched_by_translation k0) k.
Proof.
  intros H. pose proof (inv_length _ _ _ _ _ H) as Hlen. simpl in Hlen.
  assert (untouched_by_translation k0 k) as HE by (split; apply H).
  unfold translate_graph_input, CreateTensorAttr.
  wp_steps; try done;
    rewrite alter_last in *; rewrite list_lookup_middle in * by done;
    [|done].
  simplify_eq/=.
  rewrite H0 in H3. injection H3 as <-.
  assert (length (ins ++ [input]) = S (length ins)) as Hins
    by (rewrite length_app; simpl; lia).
  rewrite Nat.add_0_r in Hlen.
  destruct H. split; kernel_simpl; try done.
  - unfold uids in *. kernel_simpl. rewrite fmap_app, inv_uids0. simpl.
    rewrite Hins, !Nat.add_0_r, seq_S, fmap_app. simpl.
    by rewrite inv_next_uid0, Hlen.
  - apply Forall_app. split; [done|]. by repeat constructor.
  - rewrite inv_next_uid0, nth_uid_succ, length_app. simpl.
    f_equal. lia.
  - intros name attr. unfold names. kernel_simpl.
    rewrite fmap_app. simpl. rewrite lookup_insert.
    case_decide as Hname; simplify_eq/=.
    + intros [= <-]. split.
      * unfold declared_names. rewrite omap_app. simpl.
        unfold value_name at 2. rewrite H0.
        rewrite app_nil_r. apply elem_of_app. right. by left.
      * rewrite <- (length_fmap ta_name). by rewrite list_lookup_middle.
    + intros Hl. destruct (inv_symbol_table0 _ _ Hl) as [Hin Hn]. split.
      * unfold declared_names in *. rewrite omap_app.
        simpl in *. rewrite app_nil_r in *. apply elem_of_app. by left.
      * by apply lookup_app_l_Some.
  - rewrite inv_input_uids0, Hins, seq_S, fmap_app. simpl.
    by rewrite inv_next_uid0, Hlen.
  - unfold names in *. kernel_simpl. rewrite fmap_app. simpl.
    rewrite Hins.
    rewrite take_ge in inv_input_names0 by (rewrite length_fmap; lia).
    rewrite take_ge by (rewrite length_app, length_fmap; simpl; lia).
    apply Forall2_app; [done|]. by repeat constructor.
  - apply Forall2_nil_inv_r in inv_output_uids0. rewrite inv_output_uids0.
    constructor.
Qed.

Lemma fmap_alter_preserved {A B} (f : A → B) (g : A → A) (l : list A) i :
  (∀ a, f (g a) = f a) → f <$> alter g i l = f <$> l.
Proof.
  intros H. rewrite (list_fmap_alter f g id).
  - by rewrite list_alter_id.
  - apply Forall_forall. intros a _. apply H.
Qed.

Lemma def_before_use_app defined nodes1 nodes2 :
  def_before_use defined (nodes1 ++ nodes2)
  ↔ def_before_use defined nodes1
    ∧ def_before_use (defined ++ declared_names (produced_values nodes1)) nodes2.
Proof.
  revert defined. induction nodes1 as [|node nodes1 IH]; intros defined; simpl.
  - unfold produced_values, declared_names. simpl. rewrite app_nil_r.
    naive_solver.
  - rewrite IH. unfold produced_values, declared_names. simpl.
    rewrite omap_app, app_assoc. naive_solver.
Qed.

Lemma lookup_node_input_spec input k :
  wp U (lookup_node_input input)
     (λ attr k', k' = k ∧ ∃ name, vi_GetName input = Val name
                                  ∧ symbol_table_ k !! name = Some attr)
     (λ k', k' = k) k.
Proof. unfold lookup_node_input. wp_steps; eauto. Qed.

Lemma AddNode_spec node input_attrs k :
  U ∨ (Forall (λ attr, is_Some (tensors k !! attr)) input_attrs
       ∧ conv_attrs_in_range node) →
  wp U (AddNode node input_attrs)
     (λ output_attrs k',
        ∃ op, output_attrs = [length (tensors k)]
              ∧ k' = with_graph (graph_ops k ++ [op]) (graph_state k)
                       (with_tensors
                          (tensors k
                           ++ [set_is_virtual true new_TensorAttributes]) k))
     (λ k', k' = k) k.
Proof.
  intros Hrange. unfold AddNode, AddConvNode, conv_fprop.
  wp_steps; eauto;
    (destruct Hrange as [HU | [Hattrs [Hstrides Hdilations]]]; [done|exfalso]).
  all: repeat match goal with
              | H : _ !! _ = None |- _ => apply lookup_ge_None in H
              end.
  all: try apply NormalizePads_Some in Heqo.
  all: repeat match goal with
              | H : Forall _ (_ :: _) |- _ =>
                  apply Forall_cons in H as [?%lookup_lt_is_Some ?]
              end.
  all: simpl in *; lia.
Qed.

Lemma translate_node_inv k0 ins nodes node k :
  TranslationInv k0 ins nodes [] k →
  U ∨ (inputs_defined
         (declared_names ins ++ declared_names (produced_values nodes)) node →
       conv_attrs_in_range node) →
  wp U (translate_node node)
     (λ _, TranslationInv k0 ins (nodes ++ [node]) [])
     (untouched_by_translation k0) k.
Proof.
  intros H Hrange. pose proof (inv_length _ _ _ _ _ H) as Hlen.
  assert (untouched_by_translation k0 k) as HE by (split; apply H).
  unfold translate_node.
  wp_step. wp_step; [|done]. rename a into node_inputs, H0 into Hinputs.
  wp_step.
  eapply wp_mono;
    [apply (wp_map_each _ _ _
              (λ input attr, ∃ name, vi_GetName input = Val name
                                     ∧ symbol_table_ k !! name = Some attr)
              (λ k', k' = k)); [done|]
    | | done].
  { intros input k' _ Hk'. simpl in Hk'. subst k'.
    eapply wp_mono; [apply lookup_node_input_spec| |].
    - by intros attr k' [-> Hattr].
    - by intros k' ->. }
  intros input_attrs k' [Hattrs Hk']. simpl in Hk'. subst k'.
  assert (inputs_defined
            (declared_names ins ++ declared_names (produced_values nodes)) node)
    as Hdefined.
  { intros inputs input name Hin Hel Hname.
    rewrite Hinputs in Hin. injection Hin as <-.
    apply list_elem_of_lookup in Hel as [i Hi].
    destruct (Forall2_lookup_l _ _ _ _ _ Hattrs Hi)
      as (attr & _ & name' & Hname' & Hattr).
    rewrite Hname in Hname'. injection Hname' as <-.
    by destruct (inv_symbol_table _ _ _ _ _ H _ _ Hattr). }
  wp_step.
  eapply wp_mono;
    [apply AddNode_spec| |by intros ? Hk'; simpl in Hk'; subst].
  { destruct Hrange as [HU | Hrange]; [by left|right].
    split; [|by apply Hrange].
    eapply Forall2_Forall_r; [done|].
    apply Forall_forall. intros input _ attr (name & _ & Hattr).
    destruct (inv_symbol_table _ _ _ _ _ H _ _ Hattr) as [_ Hn].
    unfold names in Hn. rewrite list_lookup_fmap in Hn.
    apply fmap_Some in Hn as (a & Ha & _). by exists a. }
  intros output_attrs k' (op & -> & ->). cbv beta. kernel_simpl.
  wp_steps; try done.
  apply bool_decide_eq_false, dec_stable in Heqb. simpl in Heqb.
  destruct a as [|node_output [|]]; simplify_eq/=.
  unfold tag_node_output. wp_steps; try done.
  simplify_eq/=. rewrite alter_last.
  rename a into node_output.
  assert (produced_values (nodes ++ [node])
          = produced_values nodes ++ [node_output]) as Hpv.
  { unfold produced_values. rewrite bind_app. simpl.
    unfold declared_outputs at 2. by rewrite H0. }
  assert (declared_names (produced_values nodes ++ [node_output])
          = declared_names (produced_values nodes) ++ [a0]) as Hdn.
  { unfold declared_names. rewrite omap_app. simpl.
    unfold value_name at 2. by rewrite H2. }
  destruct H. split; kernel_simpl; rewrite ?Hpv; try done.
  - unfold uids in *. kernel_simpl. rewrite fmap_app, inv_uids0. simpl.
    rewrite length_app. simpl.
    replace (length ins + (length (produced_values nodes) + 1))
      with (S (length ins + length (produced_values nodes))) by lia.
    rewrite seq_S, fmap_app. simpl.
    by rewrite inv_next_uid0, Hlen.
  - apply Forall_app. split; [done|]. by repeat constructor.
  - rewrite inv_next_uid0, nth_uid_succ, length_app. simpl.
    f_equal. lia.
  - intros name attr. unfold names. kernel_simpl.
    rewrite fmap_app, Hdn. simpl. rewrite lookup_insert.
    case_decide as Hname; simplify_eq/=.
    + intros [= <-]. split.
      * rewrite app_assoc. apply elem_of_app. right. by left.
      * rewrite <- (length_fmap ta_name). by rewrite list_lookup_middle.
    + intros Hl. destruct (inv_symbol_table0 _ _ Hl) as [Hin Hn]. split.
      * rewrite app_assoc. apply elem_of_app. by left.
      * by apply lookup_app_l_Some.
  - apply def_before_use_app. split; [done|]. by simpl.
  - unfold names in *. kernel_simpl. rewrite fmap_app. simpl.
    rewrite take_app_le by (rewrite length_fmap; lia). done.
  - apply Forall2_nil_inv_r in inv_output_uids0. rewrite inv_output_uids0.
    constructor.
Qed.

Lemma translate_graph_output_inv k0 ins nodes outs output k :
  TranslationInv k0 ins nodes outs k →
  wp U (translate_graph_output output)
     (λ _, TranslationInv k0 ins nodes (outs ++ [output]))
     (untouched_by_translation k0) k.
Proof.
  intros H.
  assert (untouched_by_translation k0 k) as HE by (split; apply H).
  unfold translate_graph_output. wp_steps; try done.
  2:{ exfalso. rewrite list_lookup_alter, decide_True in H1 by done.
      destruct (inv_symbol_table _ _ _ _ _ H _ _ Heqo) as [_ Hn].
      unfold names in Hn. rewrite list_lookup_fmap in Hn.
      apply fmap_Some in Hn as (a' & Ha' & _). by rewrite Ha' in H1. }
  rename a into name, t into attr, a0 into a, l into shape. subst a1.
  rewrite list_lookup_alter in H1. rewrite decide_True in H1 by done.
  apply fmap_Some in H1 as (a' & Ha' & ->).
  destruct H. split; kernel_simpl;
    rewrite ?(fmap_alter_preserved ta_uid), ?(fmap_alter_preserved ta_name)
      by done;
    try done.
  - by apply Forall_alter.
  - by rewrite length_alter.
  - apply Forall2_app.
    + eapply Forall2_impl; [done|]. by intros uid value_info.
    + repeat constructor. exists name, attr. split_and!; [done..|].
      by rewrite list_lookup_fmap, Ha'.
  - apply Forall2_app; [done|]. by repeat constructor.
Qed.

(** Translation, started on a new kernel, establishes the invariant for the
    graph's inputs, nodes and outputs as read from the host. *)
Lemma Translate_inv (vendor : VendorApi VS) graph handle :
  U ∨ reached_nodes_in_range graph →
  wp U (Translate vendor graph)
     (λ _ k, ∃ ins outs nodes,
               graph_GetInputs graph = Val ins
               ∧ graph_GetOutputs graph = Val outs
               ∧ graph_GetNodes graph = Val nodes
               ∧ TranslationInv (new_Kernel vendor handle) ins nodes outs k)
     (untouched_by_translation (new_Kernel vendor handle))
     (new_Kernel vendor handle).
Proof.
  intros Hrange. set (k0 := new_Kernel vendor handle).
  assert (TranslationInv k0 [] [] []
            (with_graph [] (v_new_graph vendor) k0)) as H0.
  { split; try done; kernel_simpl; constructor. }
  unfold Translate. wp_step. wp_step. wp_step. wp_step; [|done].
  rename a into ins, H into Hins.
  wp_step. wp_step; [|done]. rename a into outs, H into Houts.
  wp_step.
  eapply wp_mono;
    [apply (wp_for_each _ _ _ (λ visited, TranslationInv k0 visited [] []));
       [done|] | |done].
  { intros visited input rest k' _ Hk'. by apply translate_graph_input_inv. }
  intros [] k1 H1. cbv beta.
  assert (untouched_by_translation k0 k1) as HE1 by (split; apply H1).
  wp_step. wp_step; [|done]. rename a into nodes, H into Hnodes.
  wp_step.
  eapply wp_mono;
    [apply (wp_for_each _ _ _ (λ visited, TranslationInv k0 ins visited []));
       [done|] | |done].
  { intros visited node rest k' Hsplit Hk'. apply translate_node_inv; [done|].
    destruct Hrange as [HU | Hrange]; [by left|right]. intros Hdefined.
    apply (Hrange ins nodes visited node rest); [done..|].
    apply def_before_use_app. split; [apply Hk'|]. by simpl. }
  intros [] k2 H2. cbv beta.
  eapply wp_mono;
    [apply (wp_for_each _ _ _ (λ visited, TranslationInv k0 ins nodes visited));
       [done|] | |done].
  { intros visited output rest k' _ Hk'. by apply translate_graph_output_inv. }
  intros [] k3 H3. by exists ins, outs, nodes.
Qed.

Lemma wp_vendor_stage c stage (Q : hipdnn_error → Kernel VS → Prop) E k :
  (∀ error vs,
     Q error
       (with_vendor_calls
          (vendor_calls k
           ++ [{| ev_call := c; ev_error := error; ev_workspace_size := None |}])
          (with_graph (graph_ops k) vs k))) →
  wp U (vendor_stage c stage) Q E k.
Proof.
  intros H. unfold wp, vendor_stage.
  destruct (stage _ _) as [error vs]. apply H.
Qed.

Lemma wp_get_workspace_size (vendor : VendorApi VS)
    (Q : hipdnn_error * Z → Kernel VS → Prop) E k :
  (∀ error workspace_size vs,
     Q (error, workspace_size)
       (with_vendor_calls
          (vendor_calls k
           ++ [{| ev_call := call_get_workspace_size; ev_error := error;
                  ev_workspace_size := Some workspace_size |}])
          (with_graph (graph_ops k) vs k))) →
  wp U (get_workspace_size vendor) Q E k.
Proof.
  intros H. unfold wp, get_workspace_size.
  destruct (v_get_workspace_size _ _ _) as [[error workspace_size] vs].
  apply H.
Qed.

Lemma CompileGraph_same_translation (vendor : VendorApi VS) k :
  wp U (CompileGraph vendor) (λ _ k', same_translation k k')
     (same_translation k) k.
Proof.
  unfold CompileGraph.
  repeat first
    [ wp_step
    | apply wp_vendor_stage; intros ? ?; kernel_simpl
    | apply wp_get_workspace_size; intros ? ? ?; kernel_simpl ];
    by repeat split.
Qed.

End Translation.

Section BuildAndCompile.

Context {VS : Type}.
Implicit Types (k : Kernel VS).

(** A successful [BuildAndCompile] on a new kernel is a translation that
    ran to its end followed by a compilation that did. *)
Lemma BuildAndCompile_success (vendor : VendorApi VS) graph handle k' :
  BuildAndCompile vendor graph (new_Kernel vendor handle) = Done (StatusOK, k') →
  ∃ ins outs nodes k1,
    graph_GetInputs graph = Val ins
    ∧ graph_GetOutputs graph = Val outs
    ∧ graph_GetNodes graph = Val nodes
    ∧ TranslationInv (new_Kernel vendor handle) ins nodes outs k1
    ∧ CompileGraph vendor k1 = Normal tt k'
    ∧ same_translation k1 k'.
Proof.
  unfold BuildAndCompile, BuildAndCompile_try, km_bind.
  pose proof (Translate_inv True vendor graph handle (or_introl I)) as Ht.
  unfold wp in Ht.
  destruct (Translate vendor graph _) as [[] k1| | |]; [|done..].
  destruct Ht as (ins & outs & nodes & Hins & Houts & Hnodes & Hinv).
  pose proof (CompileGraph_same_translation True vendor k1) as Hc.
  unfold wp in Hc.
  destruct (CompileGraph vendor k1) as [[] k2| | |] eqn:Hcompile; [|done..].
  intros [= <-]. by exists ins, outs, nodes, k1.
Qed.

(** A translation that does not run to its end makes [BuildAndCompile]
    fail before any vendor stage is called. *)
Lemma BuildAndCompile_translation_fails (vendor : VendorApi VS) graph handle :
  (∀ k1, Translate vendor graph (new_Kernel vendor handle) ≠ Normal tt k1) →
  BuildAndCompile vendor graph (new_Kernel vendor handle) = UndefinedBehaviour
  ∨ ∃ code msg k',
      BuildAndCompile vendor graph (new_Kernel vendor handle)
      = Done (StatusError code msg, k')
      ∧ vendor_calls k' = [].
Proof.
  intros Hfail.
  unfold BuildAndCompile, BuildAndCompile_try, km_bind.
  pose proof (Translate_inv True vendor graph handle (or_introl I)) as Ht.
  unfold wp in Ht.
  destruct (Translate vendor graph _) as [[] k1|code msg k1|e k1|].
  - by destruct (Hfail k1).
  - right. eexists _, _, _. split; [done|]. by destruct Ht.
  - right. eexists _, _, _. split; [done|]. by destruct Ht.
  - by left.
Qed.

Lemma nth_uid_seq (n : nat) :
  (Z.of_nat n < 2 ^ 63)%Z →
  nth_uid <$> seq 0 n = (λ i, Z.of_nat i + 1)%Z <$> seq 0 n.
Proof.
  intros Hn. apply list_fmap_ext. intros i j Hj.
  apply lookup_seq in Hj as [-> Hi]. apply nth_uid_small. lia.
Qed.

Lemma successors_sorted (start n : nat) :
  StronglySorted Z.lt ((λ i, Z.of_nat i + 1)%Z <$> seq start n).
Proof.
  revert start. induction n as [|n IH]; intros start; simpl; constructor.
  - apply IH.
  - apply Forall_fmap, Forall_seq. intros i Hi. simpl. lia.
Qed.

(** C4. After a successful [BuildAndCompile] of a graph with [N] tensor
    values (its declared inputs and the declared outputs of its nodes),
    [N] below 2^63: the counter started at 1, exactly [N] tensor objects
    exist and their uids are, in the order of assignment, 1, 2, ..., [N];
    each has its uid assigned; the uids are pairwise distinct, strictly
    increasing and at least 1; and the counter has been advanced [N] times. *)
Theorem BuildAndCompile_uids (vendor : VendorApi VS) graph handle k' ins nodes :
  BuildAndCompile vendor graph (new_Kernel vendor handle) = Done (StatusOK, k') →
  graph_GetInputs graph = Val ins →
  graph_GetNodes graph = Val nodes →
  (Z.of_nat (length ins + length (produced_values nodes)) < 2 ^ 63)%Z →
  next_uid_ (new_Kernel vendor handle) = 1%Z
  ∧ length (tensors k') = length ins + length (produced_values nodes)
  ∧ uids k'
    = (λ i, Z.of_nat i + 1)%Z
        <$> seq 0 (length ins + length (produced_values nodes))
  ∧ Forall (λ a, ta_uid_assigned a = true) (tensors k')
  ∧ NoDup (uids k')
  ∧ StronglySorted Z.lt (uids k')
  ∧ Forall (λ uid, (1 ≤ uid)%Z) (uids k')
  ∧ next_uid_ k'
    = int64_wrap (Z.of_nat (length ins + length (produced_values nodes)) + 1).
Proof.
  intros Hok Hins Hnodes HN.
  apply BuildAndCompile_success in Hok
    as (ins' & outs & nodes' & k1 & Hins' & _ & Hnodes' & Hinv & _ & Hsame).
  rewrite Hins in Hins'. injection Hins' as <-.
  rewrite Hnodes in Hnodes'. injection Hnodes' as <-.
  destruct Hsame as (Ht & _ & _ & _ & _ & Hnext & _).
  pose proof (inv_length _ _ _ _ _ Hinv) as Hlen.
  assert (uids k'
          = (λ i, Z.of_nat i + 1)%Z
              <$> seq 0 (length ins + length (produced_values nodes))) as Hu.
  { unfold uids. rewrite Ht. fold (uids k1).
    rewrite (inv_uids _ _ _ _ _ Hinv). by apply nth_uid_seq. }
  split_and!.
  - done.
  - by rewrite Ht.
  - done.
  - rewrite Ht. apply Hinv.
  - rewrite Hu. apply NoDup_fmap_2; [|apply NoDup_seq].
    intros i j Hij. lia.
  - rewrite Hu. apply successors_sorted.
  - rewrite Hu. apply Forall_fmap, Forall_seq. intros i _. simpl. lia.
  - rewrite Hnext, (inv_next_uid _ _ _ _ _ Hinv), Hlen. done.
Qed.

(** Translation has defined behaviour when the strides and dilations of
    the nodes it reaches are in range. *)
Lemma Translate_defined (vendor : VendorApi VS) graph handle :
  reached_nodes_in_range graph →
  Translate vendor graph (new_Kernel vendor handle) ≠ Undefined.
Proof.
  intros Hrange Hundef.
  pose proof (Translate_inv False vendor graph handle (or_intror Hrange)) as Ht.
  unfold wp in Ht. by rewrite Hundef in Ht.
Qed.

(** A node that reads an undefined name is the last node translation can
    reach. *)
Lemma undefined_input_bounds_reach graph ins pre node post :
  graph_GetInputs graph = Val ins →
  graph_GetNodes graph = Val (pre ++ node :: post) →
  ¬ inputs_defined
      (declared_names ins ++ declared_names (produced_values pre)) node →
  Forall conv_attrs_in_range pre →
  reached_nodes_in_range graph.
Proof.
  intros Hins Hnodes Hundef Hpre ins' nodes visited node' rest
    Hins' Hnodes' Hsplit Hdef.
  rewrite Hins in Hins'. injection Hins' as <-.
  rewrite Hnodes in Hnodes'. injection Hnodes' as <-.
  destruct (decide (length visited < length pre)) as [Hlt | Hge].
  - assert (pre !! length visited = Some node') as Hnode'.
    { rewrite <- (lookup_app_l pre (node :: post)) by done.
      rewrite Hsplit. by apply list_lookup_middle. }
    by eapply Forall_lookup_1.
  - exfalso. apply Hundef.
    assert (visited ++ [node']
            = pre ++ node :: take (length visited - length pre) post) as Heq.
    { transitivity (take (S (length visited)) (pre ++ node :: post)).
      - rewrite Hsplit, take_app_ge by lia.
        replace (S (length visited) - length visited) with 1 by lia. done.
      - rewrite take_app_ge by lia.
        replace (S (length visited) - length pre)
          with (S (length visited - length pre)) by lia.
        done. }
    rewrite Heq in Hdef.
    by apply def_before_use_app in Hdef as [_ [Hnode _]].
Qed.

(** C7. Node inputs are resolved in one pass over the nodes in graph order:
    when some node reads a name that is neither the name of a declared graph
    input nor the name of an output of an earlier node, [BuildAndCompile]
    on a new kernel does not succeed. It returns an error status and no
    vendor build stage has been called, compilation did not start; the one
    other outcome is that an earlier node already took the run out of
    defined behaviour, which cannot happen when the strides and dilations
    of the earlier nodes have the two elements that are read from them. *)
Theorem BuildAndCompile_undefined_input (vendor : VendorApi VS) graph handle
    ins pre node post inputs input name :
  graph_GetInputs graph = Val ins →
  graph_GetNodes graph = Val (pre ++ node :: post) →
  node_GetInputs node = Val inputs →
  input ∈ inputs →
  vi_GetName input = Val name →
  name ∉ declared_names ins ++ declared_names (produced_values pre) →
  (BuildAndCompile vendor graph (new_Kernel vendor handle) = UndefinedBehaviour
   ∨ ∃ code msg k',
       BuildAndCompile vendor graph (new_Kernel vendor handle)
       = Done (StatusError code msg, k')
       ∧ vendor_calls k' = [])
  ∧ (Forall conv_attrs_in_range pre →
     ∃ code msg k',
       BuildAndCompile vendor graph (new_Kernel vendor handle)
       = Done (StatusError code msg, k')
       ∧ vendor_calls k' = []).
Proof.
  intros Hins Hnodes Hinputs Hin Hname Hundef.
  assert (¬ inputs_defined
              (declared_names ins ++ declared_names (produced_values pre)) node)
    as Hnot by (intros Hdefined; apply Hundef; by eapply Hdefined).
  assert (∀ k1, Translate vendor graph (new_Kernel vendor handle)
                ≠ Normal tt k1) as Hfail.
  { intros k1 Hk1.
    pose proof (Translate_inv True vendor graph handle (or_introl I)) as Ht.
    unfold wp in Ht. rewrite Hk1 in Ht.
    destruct Ht as (ins' & outs & nodes' & Hins' & _ & Hnodes' & Hinv).
    rewrite Hins in Hins'. injection Hins' as <-.
    rewrite Hnodes in Hnodes'. injection Hnodes' as <-.
    pose proof (inv_def_before_use _ _ _ _ _ Hinv) as Hdef.
    by apply def_before_use_app in Hdef as [_ [Hnode _]]. }
  pose proof (BuildAndCompile_translation_fails vendor graph handle Hfail)
    as Hresult.
  split; [done|]. intros Hpre.
  destruct Hresult as [Hub | Herr]; [exfalso | done].
  apply (Translate_defined vendor graph handle);
    [by eapply undefined_input_bounds_reach|].
  revert Hub. unfold BuildAndCompile, BuildAndCompile_try, km_bind.
  destruct (Translate vendor graph _) as [[] k1| | |]; [|done..].
  by destruct (Hfail k1).
Qed.

End BuildAndCompile.

(** The single Conv subgraph: three tensor values, uids 1, 2, 3. *)
Lemma BuildAndCompile_uids_witness :
  uids Samples.compiled_kernel = [1; 2; 3]%Z
  ∧ NoDup (uids Samples.compiled_kernel).
Proof.
  assert (BuildAndCompile (Samples.ok_vendor 0) Samples.conv_graph
            (new_Kernel (Samples.ok_vendor 0) 7)
          = Done (StatusOK, Samples.compiled_kernel)) as Hok
    by (vm_compute; reflexivity).
  assert (Z.of_nat (length [Samples.X; Samples.W]
                    + length (produced_values [Samples.conv0])) < 2 ^ 63)%Z
    as HN by (vm_compute; reflexivity).
  destruct (BuildAndCompile_uids (Samples.ok_vendor 0) Samples.conv_graph 7
              Samples.compiled_kernel [Samples.X; Samples.W] [Samples.conv0]
              Hok eq_refl eq_refl HN)
    as (_ & _ & Hu & _ & Hnd & _).
  split; [exact Hu | exact Hnd].
Defined.

(** The Conv subgraph whose weight is not a declared input: the node reads
    "W", which nothing defines, and the build fails before compilation. *)
Lemma BuildAndCompile_undefined_input_witness :
  ∃ code msg k',
    BuildAndCompile (Samples.ok_vendor 0) Samples.graph_without_W
      (new_Kernel (Samples.ok_vendor 0) 7)
    = Done (StatusError code msg, k')
    ∧ vendor_calls k' = [].
Proof.
  assert ("W" ∉ declared_names [Samples.X]
                ++ declared_names (produced_values [])) as Hundef
    by (vm_compute; by intros [=]%list_elem_of_singleton).
  assert (Samples.W ∈ [Samples.X; Samples.W]) as Hin by (right; left).
  destruct (BuildAndCompile_undefined_input (Samples.ok_vendor 0)
              Samples.graph_without_W 7 [Samples.X] [] Samples.conv0 []
              [Samples.X; Samples.W] Samples.W "W"
              eq_refl eq_refl eq_refl Hin eq_refl Hundef) as [_ H].
  apply H. constructor.
Defined.

(** * Execution *)

Section Execution.

Context {VS : Type} (vendor : VendorApi VS).
Implicit Types (k : Kernel VS).

Lemma seq_split_index (n : nat) (visited rest : list nat) (x : nat) :
  seq 0 n = visited ++ x :: rest → x = length visited ∧ x < n.
Proof.
  intros H.
  assert (seq 0 n !! length visited = Some x) as Hx
    by (rewrite H; apply list_lookup_middle; done).
  apply lookup_seq in Hx. simpl in Hx. naive_solver.
Qed.

Lemma bind_all_snoc pairs uid data m :
  bind_all (pairs ++ [(uid, data)]) m = <[uid := data]> (bind_all pairs m).
Proof. unfold bind_all. by rewrite foldl_app. Qed.

(** A loop that fetches one buffer per uid and binds it. *)
Lemma wp_binding_loop (uid_list : list Z)
    (body : gmap Z VoidPtr → nat → KM VS (gmap Z VoidPtr))
    (R : nat → VoidPtr → Prop) (m0 : gmap Z VoidPtr) k :
  (∀ m i, wp True (body m i)
             (λ m' k', k' = k ∧ ∃ data uid, R i data ∧ uid_list !! i = Some uid
                                            ∧ m' = <[uid := data]> m)
             (λ k', k' = k) k) →
  wp True (fold_each (seq 0 (length uid_list)) body m0)
     (λ m k', k' = k ∧ ∃ data, Forall2 R (seq 0 (length uid_list)) data
                               ∧ m = bind_all (zip uid_list data) m0)
     (λ k', k' = k) k.
Proof.
  intros Hbody.
  eapply wp_mono;
    [apply (wp_fold_each _ _ _ _
              (λ visited m k',
                 k' = k ∧ ∃ data, Forall2 R visited data
                   ∧ m = bind_all (zip (take (length visited) uid_list) data) m0))
    | | done].
  - split; [done|]. exists []. split; [constructor|done].
  - intros visited i rest m k' Hsplit [-> (data & Hdata & ->)].
    apply seq_split_index in Hsplit as [-> Hi].
    eapply wp_mono; [apply Hbody| |done].
    intros m' k' [-> (p & uid & Hp & Huid & ->)]. split; [done|].
    exists (data ++ [p]). split; [apply Forall2_app; by repeat constructor|].
    rewrite length_app. simpl. rewrite Nat.add_1_r.
    rewrite (take_S_r _ _ _ Huid).
    rewrite zip_with_app
      by (rewrite length_take, <- (Forall2_length _ _ _ Hdata); lia).
    simpl. by rewrite bind_all_snoc.
  - intros m k' [-> (data & Hdata & ->)]. split; [done|]. exists data.
    split; [done|]. rewrite length_seq. by rewrite take_ge.
Qed.

Lemma BuildVariantPack_spec (context : KernelContext) k :
  wp True (BuildVariantPack context)
     (λ variant_pack k',
        k' = k ∧ ∃ in_data out_data,
          fetched_inputs context k in_data
          ∧ fetched_outputs context k out_data
          ∧ variant_pack
            = bind_all (zip (input_uids_ k) in_data
                        ++ zip (output_uids_ k) out_data) ∅)
     (λ k', k' = k) k.
Proof.
  unfold BuildVariantPack. wp_step. wp_step. wp_step.
  eapply wp_mono;
    [apply (wp_binding_loop _ _ (λ i p, input_buffer context i = Val p))
    | | done].
  { intros m i. wp_steps; try done. split; [done|].
    eexists _, _. split_and!; [|done..].
    unfold input_buffer. rewrite H. simpl. done. }
  intros m k' [-> (in_data & Hin & ->)]. cbv beta.
  wp_step. wp_step. wp_step. wp_step.
  eapply wp_mono;
    [apply (wp_binding_loop _ _
              (λ i p, ∃ shape, output_shapes_ k !! i = Some shape
                               ∧ output_buffer context i shape = Val p))
    | | done].
  { intros m i. wp_steps; try done. split; [done|].
    eexists _, _. split_and!; [|done..].
    eexists. split; [done|].
    unfold output_buffer. rewrite H0. simpl. done. }
  intros m k' [-> (out_data & Hout & ->)]. split; [done|].
  exists in_data, out_data. split_and!; [done..|].
  unfold bind_all. by rewrite foldl_app.
Qed.

(** [Execute] either makes no vendor call, or exactly one: [execute] with
    the kernel's handle, the variant pack built from the buffers fetched in
    order, and the workspace pointer. *)
Lemma Execute_spec (context : KernelContext) k s k' :
  Execute vendor context k = Done (s, k') →
  vendor_calls k' = vendor_calls k
  ∨ ∃ in_data out_data error,
      fetched_inputs context k in_data
      ∧ fetched_outputs context k out_data
      ∧ vendor_calls k'
        = vendor_calls k
          ++ [execute_event k
                (bind_all (zip (input_uids_ k) in_data
                           ++ zip (output_uids_ k) out_data) ∅)
                error].
Proof.
  set (P := λ k' : Kernel VS,
    vendor_calls k' = vendor_calls k
    ∨ ∃ in_data out_data error,
        fetched_inputs context k in_data
        ∧ fetched_outputs context k out_data
        ∧ vendor_calls k'
          = vendor_calls k
            ++ [execute_event k
                  (bind_all (zip (input_uids_ k) in_data
                             ++ zip (output_uids_ k) out_data) ∅)
                  error]).
  assert (wp True (Execute_try vendor context) (λ _, P) P k) as Hwp.
  { assert (P k) as HP by (by left).
    unfold Execute_try. wp_steps; try done.
    eapply wp_mono; [apply BuildVariantPack_spec| |by intros ? ->].
    intros variant_pack k1 [-> (in_data & out_data & Hin & Hout & ->)].
    cbv beta. wp_step. wp_step. wp_step. wp_step. wp_step.
    apply wp_vendor_stage. intros error vs. kernel_simpl.
    assert (P (with_vendor_calls
                 (vendor_calls k
                  ++ [{| ev_call :=
                           call_execute (handle_ k)
                             (bind_all (zip (input_uids_ k) in_data
                                        ++ zip (output_uids_ k) out_data) ∅)
                             (workspace_ptr k);
                         ev_error := error; ev_workspace_size := None |}])
                 (with_graph (graph_ops k) vs k))) as HP'
      by (right; by exists in_data, out_data, error).
    wp_steps; done. }
  unfold wp in Hwp. unfold Execute.
  destruct (Execute_try vendor context k) as [[] k1|code msg k1|[]|];
    intros; by simplify_eq.
Qed.

Lemma bind_all_lookup pairs (m : gmap Z VoidPtr) i uid data :
  NoDup (pairs.*1) → pairs !! i = Some (uid, data) →
  bind_all pairs m !! uid = Some data.
Proof.
  revert i. induction pairs as [|[uid' data'] pairs IH] using rev_ind;
    intros i Hnd Hi; [done|].
  rewrite bind_all_snoc. rewrite fmap_app in Hnd. simpl in Hnd.
  apply NoDup_app in Hnd as (Hnd & Hne & _).
  destruct (decide (i = length pairs)) as [->|Hlast].
  - rewrite list_lookup_middle in Hi by done. injection Hi as -> ->.
    apply lookup_insert_eq.
  - rewrite lookup_app_l in Hi.
    2:{ apply lookup_lt_Some in Hi. rewrite length_app in Hi. simpl in Hi. lia. }
    rewrite lookup_insert_ne; [by eapply IH|].
    intros ->. apply (Hne uid); [|by left].
    apply list_elem_of_fmap. exists (uid, data). split; [done|].
    by eapply list_elem_of_lookup_2.
Qed.

(** With pairwise distinct uids, the variant pack maps every input uid to
    the buffer fetched for that input and every output uid to the buffer
    fetched for that output. *)
Lemma variant_pack_lookup (context : KernelContext) k in_data out_data :
  fetched_inputs context k in_data →
  fetched_outputs context k out_data →
  NoDup (input_uids_ k ++ output_uids_ k) →
  ∀ i uid,
    (input_uids_ k !! i = Some uid →
     bind_all (zip (input_uids_ k) in_data ++ zip (output_uids_ k) out_data) ∅
       !! uid = in_data !! i)
    ∧ (output_uids_ k !! i = Some uid →
       bind_all (zip (input_uids_ k) in_data ++ zip (output_uids_ k) out_data) ∅
         !! uid = out_data !! i).
Proof.
  intros Hin Hout Hnd i uid.
  apply Forall2_length in Hin, Hout. rewrite length_seq in Hin, Hout.
  assert ((zip (input_uids_ k) in_data ++ zip (output_uids_ k) out_data).*1
          = input_uids_ k ++ output_uids_ k) as Hfst
    by (rewrite fmap_app, !fst_zip by lia; done).
  split; intros Hi.
  - destruct (lookup_lt_is_Some_2 in_data i) as [p Hp];
      [apply lookup_lt_Some in Hi; lia|].
    rewrite Hp. apply (bind_all_lookup _ _ i); [by rewrite Hfst|].
    apply lookup_app_l_Some. apply lookup_zip_with_Some. eauto.
  - destruct (lookup_lt_is_Some_2 out_data i) as [p Hp];
      [apply lookup_lt_Some in Hi; lia|].
    rewrite Hp.
    apply (bind_all_lookup _ _ (length (zip (input_uids_ k) in_data) + i));
      [by rewrite Hfst|].
    rewrite lookup_app_r by lia.
    replace (length (zip (input_uids_ k) in_data) + i
             - length (zip (input_uids_ k) in_data)) with i by lia.
    apply lookup_zip_with_Some. eauto.
Qed.


End Execution.


(** One inference call on the compiled Conv kernel: the vendor receives the
    variant pack 1 -> first input, 2 -> second input, 3 -> output, and a
    null workspace pointer, the vendor having asked for no workspace. *)
Example Execute_sample :
  ∃ k',
    Execute (Samples.ok_vendor 0) Samples.context Samples.compiled_kernel
    = Done (StatusOK, k')
    ∧ ev_call <$> last (vendor_calls k')
      = Some (call_execute 7
                (<[3%Z := raw_data 200]>
                   (<[2%Z := raw_data 101]> (<[1%Z := raw_data 100]> ∅)))
                nullptr).
Proof.
  eexists. split; [vm_compute; reflexivity|]. vm_compute. reflexivity.
Qed.

(** * Compilation of the vendor graph *)

Section CompileGraph.

Context {VS : Type} (vendor : VendorApi VS).

(** A stage answered with an error: the events before it, and the event. *)
Local Tactic Notation "stage_fails" open_constr(good) constr(c) constr(e)
    hyp(B) :=
  eexists good, {| ev_call := c; ev_error := e; ev_workspace_size := _ |}, _;
  simpl; rewrite B;
  split_and!; [ | | |reflexivity| ];
  [ by rewrite <- ?app_assoc | by eexists
  | unfold stage_ok; by repeat constructor | done ].


End CompileGraph.



(** * The execution provider *)

Section EpProofs.

Context {VS : Type} (vendor : VendorApi VS).
Implicit Types (ep : HipDNNEp VS).

Lemma emplace_subseteq name (kernel : Kernel VS) kernels :
  kernels ⊆ emplace name kernel kernels.
Proof.
  unfold emplace. destruct (kernels !! name) eqn:H; [done|].
  by apply insert_subseteq.
Qed.

Lemma dom_emplace name (kernel : Kernel VS) kernels :
  dom (emplace name kernel kernels) = {[name]} ∪ dom kernels.
Proof.
  unfold emplace. destruct (kernels !! name) eqn:H.
  - apply elem_of_dom_2 in H. set_solver.
  - apply dom_insert_L.
Qed.

(** The loop of [CompileImpl] goes through a request left to right: after a
    prefix that compiled, it continues from the provider that prefix left. *)
Lemma CompileImpl_loop_app pre rest ep infos ep' infos' :
  CompileImpl_loop vendor pre ep infos = Done (StatusOK, ep', infos') →
  CompileImpl_loop vendor (pre ++ rest) ep infos
  = CompileImpl_loop vendor rest ep' infos'.
Proof.
  revert ep infos. induction pre as [|[graph fused_node] pre IH];
    intros ep infos; simpl.
  - by intros [= <- <-].
  - destruct (graph_GetNodes graph) as [nodes|[]]; [|done..].
    case_bool_decide; [done|].
    destruct (BuildAndCompile _ _ _) as [[[] kernel]|]; [|done..].
    destruct (node_GetName fused_node) as [name|[]]; [|done..].
    apply IH.
Qed.

Lemma CompileImpl_loop_success requests ep infos ep' infos' :
  CompileImpl_loop vendor requests ep infos = Done (StatusOK, ep', infos') →
  hipdnn_handle_ ep' = hipdnn_handle_ ep
  ∧ kernels_ ep ⊆ kernels_ ep'
  ∧ dom (kernels_ ep') = dom (kernels_ ep) ∪ list_to_set (fused_names requests)
  ∧ length infos' = length infos + length requests.
Proof.
  revert ep infos. induction requests as [|[graph fused_node] requests IH];
    intros ep infos; simpl.
  - intros [= <- <-]. split_and!; [done|done|set_solver|lia].
  - destruct (graph_GetNodes graph) as [nodes|[]]; [|done..].
    case_bool_decide; [done|].
    destruct (BuildAndCompile _ _ _) as [[[] kernel]|]; [|done..].
    destruct (node_GetName fused_node) as [name|[]] eqn:Hname; [|done..].
    intros Hloop. apply IH in Hloop as (Hh & Hsub & Hdom & Hlen). simpl in *.
    split_and!.
    + done.
    + etrans; [apply (emplace_subseteq name kernel)|done].
    + rewrite Hdom, dom_emplace. set_solver.
    + rewrite Hlen, length_app. simpl. lia.
Qed.

(** C1, as the code has it. When a subgraph of a compile request fails in
    [BuildAndCompile], the call stops there and returns that error; the
    provider is left as the subgraphs before the failing one left it: every
    kernel that was registered before the call is still registered, the
    subgraphs before the failing one are registered under their names, and
    nothing is registered for the failing subgraph or any later one. One
    compute handle has been written per subgraph before the failing one. *)
Theorem CompileImpl_stops_at_first_failure
    pre graph fused_node post ep ep' infos nodes code msg k' :
  CompileImpl vendor pre ep = Done (StatusOK, ep', infos) →
  graph_GetNodes graph = Val nodes →
  nodes ≠ [] →
  BuildAndCompile vendor graph (new_Kernel vendor (hipdnn_handle_ ep'))
  = Done (StatusError code msg, k') →
  CompileImpl vendor (pre ++ (graph, fused_node) :: post) ep
  = Done (StatusError code msg, ep', infos)
  ∧ kernels_ ep ⊆ kernels_ ep'
  ∧ dom (kernels_ ep') = dom (kernels_ ep) ∪ list_to_set (fused_names pre)
  ∧ length infos = length pre.
Proof.
  unfold CompileImpl. intros Hpre Hnodes Hne Hfail.
  rewrite (CompileImpl_loop_app _ _ _ _ _ _ Hpre). simpl.
  rewrite Hnodes, bool_decide_eq_false_2, Hfail by done.
  apply CompileImpl_loop_success in Hpre as (_ & Hsub & Hdom & Hlen).
  done.
Qed.

(** C10. A subgraph without nodes makes the compile call fail: when the
    subgraphs before it compiled, the call returns the error "Empty graph
    provided for compilation" and leaves the provider as those subgraphs
    left it, with no kernel registered for the empty subgraph; and whatever
    comes before it, the call never returns success. *)
Theorem CompileImpl_empty_graph graph fused_node :
  graph_GetNodes graph = Val [] →
  (∀ pre post ep ep' infos,
     CompileImpl vendor pre ep = Done (StatusOK, ep', infos) →
     CompileImpl vendor (pre ++ (graph, fused_node) :: post) ep
     = Done (StatusError ORT_EP_FAIL "Empty graph provided for compilation",
             ep', infos))
  ∧ (∀ pre post ep ep' infos,
       CompileImpl vendor (pre ++ (graph, fused_node) :: post) ep
       ≠ Done (StatusOK, ep', infos)).
Proof.
  intros Hnodes. unfold CompileImpl. split.
  - intros pre post ep ep' infos Hpre.
    rewrite (CompileImpl_loop_app _ _ _ _ _ _ Hpre). simpl.
    by rewrite Hnodes.
  - intros pre post ep. generalize (@nil NodeComputeInfo). revert ep.
    induction pre as [|[graph' fused_node'] pre IH];
      intros ep infos0 ep' infos; simpl.
    + by rewrite Hnodes.
    + destruct (graph_GetNodes graph') as [nodes|[]]; [|done..].
      case_bool_decide; [done|].
      destruct (BuildAndCompile _ _ _) as [[[] kernel]|]; [|done..].
      destruct (node_GetName fused_node') as [name|[]]; [|done..].
      apply IH.
Qed.

End EpProofs.

(** C1, as the design words it, fails: in a request of a well-formed and a
    malformed subgraph, [BuildAndCompile] fails on the second, the call
    returns that error, and the kernel of the first stays registered. *)
Lemma CompileImpl_all_or_nothing_counterexample :
  BuildAndCompile (Samples.ok_vendor 0) Samples.graph_without_W
    (new_Kernel (Samples.ok_vendor 0) 7)
  = match BuildAndCompile (Samples.ok_vendor 0) Samples.graph_without_W
            (new_Kernel (Samples.ok_vendor 0) 7) with
    | Done (_, k) =>
        Done (StatusError ORT_EP_FAIL "Input not found in symbol table: W", k)
    | UndefinedBehaviour => UndefinedBehaviour
    end
  ∧ CompileImpl (Samples.ok_vendor 0) Samples.half_good_request Samples.ep0
    = Done (StatusError ORT_EP_FAIL "Input not found in symbol table: W",
            Samples.ep_after_half_good_request, [MkNodeComputeInfo])
  ∧ kernels_ Samples.ep_after_half_good_request !! "fused0"
    = Some Samples.compiled_kernel
  ∧ kernels_ Samples.ep_after_half_good_request ≠ kernels_ Samples.ep0.
Proof.
  split_and!.
  - vm_compute. reflexivity.
  - vm_compute. reflexivity.
  - vm_compute. reflexivity.
  - intros H. apply (f_equal (λ m, m !! "fused0")) in H.
    vm_compute in H. discriminate H.
Qed.

(** A request of the well-formed subgraph followed by the malformed one:
    the first kernel is registered, the call returns the second's error. *)
Lemma CompileImpl_stops_at_first_failure_witness :
  CompileImpl (Samples.ok_vendor 0) Samples.half_good_request Samples.ep0
  = Done (StatusError ORT_EP_FAIL "Input not found in symbol table: W",
          Samples.ep_after_half_good_request, [MkNodeComputeInfo])
  ∧ dom (kernels_ Samples.ep_after_half_good_request)
    = dom (kernels_ Samples.ep0)
      ∪ list_to_set (fused_names [(Samples.conv_graph, Samples.fused "fused0")]).
Proof.
  assert (CompileImpl (Samples.ok_vendor 0)
            [(Samples.conv_graph, Samples.fused "fused0")] Samples.ep0
          = Done (StatusOK, Samples.ep_after_half_good_request,
                  [MkNodeComputeInfo])) as Hpre
    by (vm_compute; reflexivity).
  assert ([Samples.conv0] ≠ []) as Hne by discriminate.
  assert (BuildAndCompile (Samples.ok_vendor 0) Samples.graph_without_W
            (new_Kernel (Samples.ok_vendor 0)
               (hipdnn_handle_ Samples.ep_after_half_good_request))
          = Done (StatusError ORT_EP_FAIL "Input not found in symbol table: W",
                  match BuildAndCompile (Samples.ok_vendor 0)
                          Samples.graph_without_W
                          (new_Kernel (Samples.ok_vendor 0) 7) with
                  | Done (_, k) => k
                  | UndefinedBehaviour => new_Kernel (Samples.ok_vendor 0) 7
                  end)) as Hfail
    by (vm_compute; reflexivity).
  destruct (CompileImpl_stops_at_first_failure (Samples.ok_vendor 0)
              [(Samples.conv_graph, Samples.fused "fused0")]
              Samples.graph_without_W (Samples.fused "fused1") []
              Samples.ep0 _ _ [Samples.conv0] _ _ _ Hpre eq_refl Hne Hfail)
    as (Hcall & _ & Hdom & _).
  split; [exact Hcall | exact Hdom].
Defined.

(** A request of the well-formed subgraph followed by an empty one. *)
Lemma CompileImpl_empty_graph_witness :
  CompileImpl (Samples.ok_vendor 0)
    ([(Samples.conv_graph, Samples.fused "fused0")]
     ++ (Samples.empty_graph, Samples.fused "fused1") :: []) Samples.ep0
  = Done (StatusError ORT_EP_FAIL "Empty graph provided for compilation",
          Samples.ep_after_half_good_request, [MkNodeComputeInfo]).
Proof.
  assert (CompileImpl (Samples.ok_vendor 0)
            [(Samples.conv_graph, Samples.fused "fused0")] Samples.ep0
          = Done (StatusOK, Samples.ep_after_half_good_request,
                  [MkNodeComputeInfo])) as Hpre
    by (vm_compute; reflexivity).
  exact (proj1 (CompileImpl_empty_graph (Samples.ok_vendor 0)
                  Samples.empty_graph (Samples.fused "fused1") eq_refl)
           _ [] _ _ _ Hpre).
Defined.

(** * The capability query *)

Lemma collect_supported_filter (nodes : list Node) :
  Forall (λ node, ∃ op_type, GetOperatorType node = Val op_type) nodes →
  collect_supported nodes = Val (filter (λ node, verdict node = true) nodes).
Proof.
  induction 1 as [|node nodes [op_type Hop] _ IH]; [done|].
  simpl. rewrite IH. rewrite filter_cons. unfold verdict, IsSupportedOp.
  rewrite Hop. simpl. case_bool_decide; simpl; [|done].
  by destruct (IsSupportedConv node).
Qed.

Lemma claim_nodes_accepted AddNodesToFuse (nodes : list Node) info :
  (∀ info group, AddNodesToFuse info group = StatusOK) →
  claim_nodes AddNodesToFuse nodes info
  = (StatusOK, info ++ ((λ node, [node]) <$> nodes)).
Proof.
  intros Hok. revert info. induction nodes as [|node nodes IH]; intros info.
  - simpl. by rewrite app_nil_r.
  - simpl. rewrite Hok, IH. by rewrite <- app_assoc.
Qed.

(** C8. The capability matcher fails closed. A node of any operator type
    other than Conv is unsupported. When reading the inputs, outputs, types
    or shapes of a Conv node throws, the exception does not leave
    [IsSupportedConv] and the verdict is unsupported. So a capability query
    over nodes whose operator types can be read, with a host that accepts
    the claimed groups, succeeds whatever else the nodes throw, and claims,
    one group per node and in graph order, exactly the nodes with a
    positive verdict. *)
Theorem capability_fails_closed :
  (∀ node op_type,
     GetOperatorType node = Val op_type → op_type ≠ "Conv" →
     IsSupportedOp node = Val false)
  ∧ (∀ node e,
       IsSupportedConv_try node = Raise e → IsSupportedConv node = false)
  ∧ (∀ node e,
       GetOperatorType node = Val "Conv" →
       IsSupportedConv_try node = Raise e →
       IsSupportedOp node = Val false)
  ∧ (∀ AddNodesToFuse graph nodes info,
       graph_GetNodes graph = Val nodes →
       Forall (λ node, ∃ op_type, GetOperatorType node = Val op_type) nodes →
       (∀ info group, AddNodesToFuse info group = StatusOK) →
       GetCapabilityImpl AddNodesToFuse graph info
       = (StatusOK,
          info ++ ((λ node, [node])
                     <$> filter (λ node, verdict node = true) nodes))).
Proof.
  split_and!.
  - intros node op_type Hop Hne. unfold IsSupportedOp. rewrite Hop. simpl.
    by rewrite bool_decide_eq_false_2.
  - intros node e Hraise. unfold IsSupportedConv. by rewrite Hraise.
  - intros node e Hop Hraise. unfold IsSupportedOp, IsSupportedConv.
    rewrite Hop, Hraise. done.
  - intros AddNodesToFuse graph nodes info Hnodes Hops Hok.
    unfold GetCapabilityImpl. rewrite Hnodes.
    case_bool_decide as Hnil; [subst; simpl; by rewrite app_nil_r|].
    rewrite (collect_supported_filter _ Hops).
    case_bool_decide as Hnone.
    + rewrite Hnone. simpl. by rewrite app_nil_r.
    + by apply claim_nodes_accepted.
Qed.

(** A graph of a Relu node, a Conv node whose input cannot be described and
    a supported Conv node: the query succeeds and claims the last one. *)
Lemma capability_fails_closed_witness :
  IsSupportedOp Samples.relu_node = Val false
  ∧ IsSupportedOp Samples.conv_opaque = Val false
  ∧ GetCapabilityImpl Samples.accept_all Samples.mixed_graph []
    = (StatusOK, [[Samples.conv0]]).
Proof.
  destruct capability_fails_closed as (Hother & _ & Hthrow & Hquery).
  split_and!.
  - apply (Hother Samples.relu_node "Relu"); [reflexivity | discriminate].
  - apply (Hthrow Samples.conv_opaque (OrtException 1 "no type information"));
      reflexivity.
  - apply (Hquery Samples.accept_all Samples.mixed_graph
             [Samples.relu_node; Samples.conv_opaque; Samples.conv0] []).
    + reflexivity.
    + repeat constructor; by eexists.
    + reflexivity.
Defined.

(** * Strides *)

Lemma int64_wrap_in_range (z : Z) : in_int64 z → int64_wrap z = z.
Proof. unfold in_int64, int64_wrap. intros H. rewrite Z.mod_small; lia. Qed.

Lemma int64_wrap_mul_l (a b : Z) : int64_wrap (int64_wrap a * b) = int64_wrap (a * b).
Proof.
  unfold int64_wrap. f_equal.
  replace ((a + 2 ^ 63) mod 2 ^ 64 - 2 ^ 63)%Z
    with ((a + 2 ^ 63) mod 2 ^ 64 + - 2 ^ 63)%Z by lia.
  rewrite Z.mul_add_distr_r, <- Z.add_assoc.
  rewrite Zplus_mod, Zmult_mod_idemp_l, <- Zplus_mod. f_equal. lia.
Qed.

(** The loop of [ComputeStrides], seen from the last dimension: the strides
    of the dimensions visited and the running product. *)
Lemma ComputeStrides_loop (shape : list Z) :
  foldr (λ d '(strides, stride), (stride :: strides, int64_wrap (stride * d)))
    ([], 1%Z) shape
  = ((λ i, int64_wrap (product (drop (S i) shape))) <$> seq 0 (length shape),
     int64_wrap (product shape)).
Proof.
  induction shape as [|d shape IH]; [done|].
  simpl. rewrite IH. f_equal.
  - f_equal. by rewrite <- fmap_S_seq, <- list_fmap_compose.
  - rewrite int64_wrap_mul_l. f_equal. lia.
Qed.

(** X1. [ComputeStrides] lays a tensor out densely in row-major order: it
    returns one stride per dimension, and the stride of a dimension is the
    product of the dimensions that follow it, taken in 64-bit arithmetic;
    it is that product itself when the product fits in 64 bits. The stride
    of the last dimension is 1. *)
Theorem ComputeStrides_row_major (shape : list Z) :
  length (ComputeStrides shape) = length shape
  ∧ (∀ i, i < length shape →
       ComputeStrides shape !! i
       = Some (int64_wrap (product (drop (S i) shape))))
  ∧ (∀ i, i < length shape → in_int64 (product (drop (S i) shape)) →
       ComputeStrides shape !! i = Some (product (drop (S i) shape)))
  ∧ (shape ≠ [] → last (ComputeStrides shape) = Some 1%Z).
Proof.
  unfold ComputeStrides. rewrite ComputeStrides_loop. simpl.
  assert (∀ i, i < length shape →
            ((λ i, int64_wrap (product (drop (S i) shape)))
               <$> seq 0 (length shape)) !! i
            = Some (int64_wrap (product (drop (S i) shape)))) as Hi.
  { intros i Hlt. by rewrite list_lookup_fmap, lookup_seq_lt. }
  split_and!.
  - by rewrite length_fmap, length_seq.
  - done.
  - intros i Hlt Hrange. by rewrite Hi, int64_wrap_in_range.
  - intros Hne. rewrite last_lookup, length_fmap, length_seq.
    destruct shape as [|d shape]; [done|]. simpl length. simpl pred.
    rewrite Hi by (simpl; lia).
    rewrite drop_ge by (simpl; lia). done.
Qed.

(** A tensor of shape 2 x 3 x 4 x 5. *)
Lemma ComputeStrides_row_major_witness :
  ComputeStrides [2; 3; 4; 5]%Z !! 1 = Some 20%Z
  ∧ last (ComputeStrides [2; 3; 4; 5]%Z) = Some 1%Z.
Proof.
  destruct (ComputeStrides_row_major [2; 3; 4; 5]%Z) as (_ & _ & Hexact & Hlast).
  split.
  - apply (Hexact 1); [simpl; lia|]. unfold in_int64. simpl. lia.
  - apply Hlast. discriminate.
Defined.

(** * Execution, continued *)

Section ExecutionMore.

Context {VS : Type} (vendor : VendorApi VS).
Implicit Types (k : Kernel VS).

(** Filling the variant pack changes nothing in the kernel, and reads no
    vector past its end when there is a shape for each output. *)
Lemma BuildVariantPack_defined (context : KernelContext) k :
  executable k →
  wp False (BuildVariantPack context) (λ _ k', k' = k) (λ k', k' = k) k.
Proof.
  intros Hex. unfold BuildVariantPack. wp_step. wp_step. wp_step.
  eapply wp_mono;
    [apply (wp_fold_each _ _ _ _ (λ _ _ k', k' = k)); [done|] | |done].
  { intros visited i rest m k' Hsplit ->.
    apply seq_split_index in Hsplit as [-> Hi].
    wp_steps; try done. apply lookup_ge_None in H1. lia. }
  intros m k' ->. cbv beta. wp_step. wp_step. wp_step. wp_step.
  eapply wp_mono;
    [apply (wp_fold_each _ _ _ _ (λ _ _ k', k' = k)); [done|] | |done].
  - intros visited i rest m' k' Hsplit ->.
    apply seq_split_index in Hsplit as [-> Hi].
    wp_steps; try done.
    + apply lookup_ge_None in H2. lia.
    + apply lookup_ge_None in H. unfold executable in Hex. lia.
  - by intros m' k' ->.
Qed.

Lemma BuildVariantPack_same (context : KernelContext) k :
  match BuildVariantPack context k with
  | Normal _ k' | Returned _ _ k' | Thrown _ k' => k' = k
  | Undefined => True
  end.
Proof.
  pose proof (BuildVariantPack_spec context k) as H. unfold wp in H.
  destruct (BuildVariantPack context k); naive_solver.
Qed.

(** What one [Execute] does to the kernel and how its status comes about. *)
Lemma Execute_cases (context : KernelContext) k s k' :
  Execute vendor context k = Done (s, k') →
  (s ≠ StatusOK ∧ k' = k)
  ∨ ∃ variant_pack error vs,
      k' = with_vendor_calls
             (vendor_calls k ++ [execute_event k variant_pack error])
             (with_graph (graph_ops k) vs k)
      ∧ s = if is_bad error
            then StatusError ORT_EP_FAIL
                   ("hipDNN execute failed: " +:+ get_message error)
            else StatusOK.
Proof.
  unfold Execute, Execute_try, km_bind, call, get, RETURN_ERROR, km_ret.
  destruct (GetInputCount context) as [input_count|[]];
    [|intros [= <- <-]; by left..].
  case_bool_decide; [intros [= <- <-]; by left|].
  destruct (GetOutputCount context) as [output_count|[]];
    [|intros [= <- <-]; by left..].
  case_bool_decide; [intros [= <- <-]; by left|].
  pose proof (BuildVariantPack_same context k) as Hsame.
  destruct (BuildVariantPack context k) as [variant_pack k1|code msg k1|[] k1|];
    try subst k1; [|intros [= <- <-]; by left..|done].
  unfold vendor_stage.
  destruct (v_execute vendor _ _ _ _ _) as [error vs]. simpl.
  destruct (is_bad error) eqn:Hbad; intros [= <- <-]; right;
    exists variant_pack, error, vs; by rewrite Hbad.
Qed.

(** X2. [Execute] leaves the compiled kernel as it is: tensors, uid lists,
    output shapes, symbol table, uid counter, handle, operations and
    workspace are those before the call. When the call fails before the
    vendor is reached, nothing at all has changed in the kernel; otherwise
    the vendor has been called once, and the status is success exactly when
    the vendor's answer is good, and the vendor's message behind "hipDNN
    execute failed: " when it is bad. *)
Theorem Execute_keeps_kernel (context : KernelContext) k s k' :
  Execute vendor context k = Done (s, k') →
  same_translation k k'
  ∧ workspace_ k' = workspace_ k
  ∧ ((s ≠ StatusOK ∧ k' = k)
     ∨ ∃ variant_pack error,
         vendor_calls k'
         = vendor_calls k ++ [execute_event k variant_pack error]
         ∧ (is_bad error = false → s = StatusOK)
         ∧ (is_bad error = true →
            s = StatusError ORT_EP_FAIL
                  ("hipDNN execute failed: " +:+ get_message error))).
Proof.
  intros Hex.
  destruct (Execute_cases _ _ _ _ Hex)
    as [[Hs ->] | (variant_pack & error & vs & -> & ->)].
  - split_and!; [by repeat split|done|by left].
  - split_and!; [by repeat split|done|right].
    exists variant_pack, error. split; [done|].
    by destruct (is_bad error).
Qed.

Lemma Execute_executable (context : KernelContext) k :
  executable k →
  ∃ s k', Execute vendor context k = Done (s, k')
          ∧ executable k' ∧ same_translation k k'
          ∧ workspace_ k' = workspace_ k.
Proof.
  intros Hex.
  assert (wp False (Execute_try vendor context)
            (λ _ _, True) (λ _, True) k) as Hwp.
  { unfold Execute_try. wp_steps; try done.
    eapply wp_mono; [by apply BuildVariantPack_defined| |done].
    intros variant_pack k1 ->. cbv beta. wp_step. wp_step. wp_step. wp_step.
    wp_step. apply wp_vendor_stage. intros error vs. by wp_steps. }
  unfold wp in Hwp.
  assert (∃ s k', Execute vendor context k = Done (s, k')) as (s & k' & Hrun).
  { unfold Execute.
    destruct (Execute_try vendor context k) as [[] k1|code msg k1|[] k1|];
      [by eexists _, _..|done]. }
  exists s, k'. split; [done|].
  destruct (Execute_cases _ _ _ _ Hrun)
    as [[_ ->] | (variant_pack & error & vs & -> & _)].
  - split_and!; [done|by repeat split|done].
  - split_and!; [done|by repeat split|done].
Qed.

Lemma same_translation_trans k1 k2 k3 :
  same_translation k1 k2 → same_translation k2 k3 → same_translation k1 k3.
Proof.
  unfold same_translation.
  intros (? & ? & ? & ? & ? & ? & ? & ?) (? & ? & ? & ? & ? & ? & ? & ?).
  split_and!; congruence.
Qed.

Lemma Execute_all_executable (contexts : list KernelContext) k :
  executable k →
  ∃ statuses k', Execute_all vendor contexts k = Done (statuses, k')
                 ∧ length statuses = length contexts
                 ∧ same_translation k k'
                 ∧ workspace_ k' = workspace_ k.
Proof.
  revert k. induction contexts as [|context contexts IH]; intros k Hex.
  - exists [], k. split_and!; [done|done|by repeat split|done].
  - destruct (Execute_executable context k Hex)
      as (s & k1 & Hrun & Hex1 & Hsame1 & Hw1).
    destruct (IH k1 Hex1) as (statuses & k' & Hall & Hlen & Hsame & Hw).
    exists (s :: statuses), k'. simpl. rewrite Hrun, Hall.
    split_and!; [done|by rewrite Hlen| |by rewrite Hw].
    by eapply same_translation_trans.
Qed.

(** A kernel that [BuildAndCompile] accepted has a shape on record for each
    of its output uids, one input uid per declared input and one output uid
    per declared output. *)
Lemma BuildAndCompile_executable graph handle k' :
  BuildAndCompile vendor graph (new_Kernel vendor handle) = Done (StatusOK, k') →
  executable k'
  ∧ ∀ ins outs,
      graph_GetInputs graph = Val ins → graph_GetOutputs graph = Val outs →
      length (input_uids_ k') = length ins
      ∧ length (output_uids_ k') = length outs.
Proof.
  intros Hok.
  apply BuildAndCompile_success in Hok
    as (ins & outs & nodes & k1 & Hins & Houts & _ & Hinv & _ & Hsame).
  destruct Hsame as (_ & Hiu & Hou & Hos & _).
  unfold executable. rewrite Hiu, Hou, Hos.
  pose proof (Forall2_length _ _ _ (inv_output_uids _ _ _ _ _ Hinv)) as H1.
  pose proof (Forall2_length _ _ _ (inv_output_shapes _ _ _ _ _ Hinv)) as H2.
  split; [congruence|].
  intros ins' outs' Hins' Houts'.
  rewrite Hins in Hins'. injection Hins' as <-.
  rewrite Houts in Houts'. injection Houts' as <-.
  split; [|done].
  by rewrite (inv_input_uids _ _ _ _ _ Hinv), length_fmap, length_seq.
Qed.

(** X3. A kernel that [BuildAndCompile] accepted can be executed any number
    of times: every call of [Execute] returns a status, whatever buffers
    and counts the host supplies and whatever the vendor answers; no call
    reads a vector past its end, and the compiled state and the workspace
    stay those of the compilation throughout. *)
Theorem compiled_kernel_executes graph handle k' (contexts : list KernelContext) :
  BuildAndCompile vendor graph (new_Kernel vendor handle) = Done (StatusOK, k') →
  ∃ statuses k'',
    Execute_all vendor contexts k' = Done (statuses, k'')
    ∧ length statuses = length contexts
    ∧ same_translation k' k''
    ∧ workspace_ k'' = workspace_ k'.
Proof.
  intros Hok. apply Execute_all_executable.
  by apply BuildAndCompile_executable in Hok as [Hex _].
Qed.

(** X4. The counts of an inference call are checked against the compiled
    graph before any buffer is fetched: when the host's input count differs
    from the number of declared graph inputs, or else its output count from
    the number of declared graph outputs, [Execute] returns the mismatch
    error that names both numbers; the kernel is left as it was and the
    vendor is not called. *)
Theorem Execute_count_mismatch graph handle k' ins outs
    (context : KernelContext) (input_count : nat) :
  BuildAndCompile vendor graph (new_Kernel vendor handle) = Done (StatusOK, k') →
  graph_GetInputs graph = Val ins →
  graph_GetOutputs graph = Val outs →
  GetInputCount context = Val input_count →
  (input_count ≠ length ins →
   Execute vendor context k'
   = Done (StatusError ORT_EP_FAIL
             ("Input count mismatch: expected " +:+ pretty (length ins)
              +:+ ", got " +:+ pretty input_count), k'))
  ∧ (∀ output_count,
       input_count = length ins →
       GetOutputCount context = Val output_count →
       output_count ≠ length outs →
       Execute vendor context k'
       = Done (StatusError ORT_EP_FAIL
                 ("Output count mismatch: expected " +:+ pretty (length outs)
                  +:+ ", got " +:+ pretty output_count), k')).
Proof.
  intros Hok Hins Houts Hcount.
  apply BuildAndCompile_executable in Hok as [_ Hlen].
  destruct (Hlen ins outs Hins Houts) as [Hin Hout].
  unfold Execute, Execute_try, km_bind, call, get, RETURN_ERROR.
  rewrite Hcount, Hin. split.
  - intros Hne. by rewrite bool_decide_eq_true_2.
  - intros output_count -> Hcount' Hne.
    rewrite bool_decide_eq_false_2 by (by intros ?).
    rewrite Hcount', Hout. by rewrite bool_decide_eq_true_2.
Qed.

End ExecutionMore.

(** One inference call on the compiled Conv kernel. *)
Lemma Execute_keeps_kernel_witness :
  same_translation Samples.compiled_kernel MoreSamples.executed_kernel
  ∧ workspace_ MoreSamples.executed_kernel = workspace_ Samples.compiled_kernel.
Proof.
  assert (Execute (Samples.ok_vendor 0) Samples.context Samples.compiled_kernel
          = Done (StatusOK, MoreSamples.executed_kernel)) as Hrun
    by (vm_compute; reflexivity).
  destruct (Execute_keeps_kernel (Samples.ok_vendor 0) Samples.context
              Samples.compiled_kernel StatusOK MoreSamples.executed_kernel Hrun)
    as (Hsame & Hworkspace & _).
  split; [exact Hsame | exact Hworkspace].
Defined.

(** Two inference calls, one after the other, on the compiled Conv kernel. *)
Lemma compiled_kernel_executes_witness :
  ∃ statuses k'',
    Execute_all (Samples.ok_vendor 0) [Samples.context; Samples.context]
      Samples.compiled_kernel
    = Done (statuses, k'')
    ∧ length statuses = 2%nat.
Proof.
  assert (BuildAndCompile (Samples.ok_vendor 0) Samples.conv_graph
            (new_Kernel (Samples.ok_vendor 0) 7)
          = Done (StatusOK, Samples.compiled_kernel)) as Hok
    by (vm_compute; reflexivity).
  destruct (compiled_kernel_executes (Samples.ok_vendor 0) Samples.conv_graph 7
              Samples.compiled_kernel [Samples.context; Samples.context] Hok)
    as (statuses & k'' & Hall & Hlen & _).
  exists statuses, k''. split; [exact Hall | exact Hlen].
Defined.

(** A call with one input on the kernel compiled for two. *)
Lemma Execute_count_mismatch_witness :
  Execute (Samples.ok_vendor 0) MoreSamples.short_context Samples.compiled_kernel
  = Done (StatusError ORT_EP_FAIL
            ("Input count mismatch: expected " +:+ pretty 2%nat
             +:+ ", got " +:+ pretty 1%nat), Samples.compiled_kernel).
Proof.
  assert (BuildAndCompile (Samples.ok_vendor 0) Samples.conv_graph
            (new_Kernel (Samples.ok_vendor 0) 7)
          = Done (StatusOK, Samples.compiled_kernel)) as Hok
    by (vm_compute; reflexivity).
  assert (1%nat ≠ length [Samples.X; Samples.W]) as Hne by (simpl; lia).
  exact (proj1 (Execute_count_mismatch (Samples.ok_vendor 0) Samples.conv_graph 7
                  Samples.compiled_kernel [Samples.X; Samples.W] [Samples.Y]
                  MoreSamples.short_context 1%nat Hok eq_refl eq_refl eq_refl)
           Hne).
Defined.

(** * The capability query, continued *)

(** The claiming loop stops at the first group the host rejects. *)
Lemma claim_nodes_prefix AddNodesToFuse (nodes : list Node) info s info' :
  claim_nodes AddNodesToFuse nodes info = (s, info') →
  ∃ claimed rest,
    nodes = claimed ++ rest
    ∧ info' = info ++ ((λ node, [node]) <$> claimed)
    ∧ match rest with
      | [] => s = StatusOK
      | node :: _ => s = AddNodesToFuse info' [node] ∧ s ≠ StatusOK
      end.
Proof.
  revert info. induction nodes as [|node nodes IH]; intros info; simpl.
  - intros [= <- <-]. exists [], []. simpl. by rewrite app_nil_r.
  - destruct (AddNodesToFuse info [node]) as [|code msg] eqn:Hhost.
    + intros Hrest.
      apply IH in Hrest as (claimed & rest & -> & -> & Hs).
      exists (node :: claimed), rest. simpl.
      split_and!; [done|by rewrite <- app_assoc|done].
    + intros [= <- <-]. exists [], (node :: nodes). simpl.
      rewrite app_nil_r. by rewrite Hhost.
Qed.

Lemma collect_supported_raises (pre : list Node) node post e :
  Forall (λ node, ∃ op_type, GetOperatorType node = Val op_type) pre →
  GetOperatorType node = Raise e →
  collect_supported (pre ++ node :: post) = Raise e.
Proof.
  intros Hpre Hraise. induction Hpre as [|node' pre [op_type Hop] _ IH]; simpl.
  - unfold IsSupportedOp. by rewrite Hraise.
  - rewrite IH. unfold IsSupportedOp. rewrite Hop. simpl.
    by case_bool_decide.
Qed.

(** X5. A capability query claims nothing when the graph cannot be read:
    when reading the nodes of the graph throws, or when the operator type
    of some node cannot be read, the query returns the status of that
    exception, which is an error, and no group has been handed to the host,
    whatever the verdicts on the nodes before the unreadable one. *)
Theorem GetCapabilityImpl_unreadable AddNodesToFuse graph info :
  (∀ e, graph_GetNodes graph = Raise e →
     GetCapabilityImpl AddNodesToFuse graph info = (status_of_exn e, info))
  ∧ (∀ pre node post e,
       graph_GetNodes graph = Val (pre ++ node :: post) →
       Forall (λ node, ∃ op_type, GetOperatorType node = Val op_type) pre →
       GetOperatorType node = Raise e →
       GetCapabilityImpl AddNodesToFuse graph info = (status_of_exn e, info))
  ∧ (∀ e, status_of_exn e ≠ StatusOK).
Proof.
  split_and!.
  - intros e Hnodes. unfold GetCapabilityImpl. by rewrite Hnodes.
  - intros pre node post e Hnodes Hpre Hraise.
    unfold GetCapabilityImpl. rewrite Hnodes.
    rewrite bool_decide_eq_false_2 by (by destruct pre).
    by rewrite (collect_supported_raises _ _ _ _ Hpre Hraise).
  - by intros [].
Qed.

(** X6. Whatever the host answers, the groups a capability query has
    claimed are single supported nodes in graph order: the nodes with a
    positive verdict, up to the first one the host rejects. The query
    returns success when the host accepted them all and the host's error
    for the first rejected node otherwise; the groups accepted before stay
    claimed. *)
Theorem GetCapabilityImpl_claims_prefix AddNodesToFuse graph nodes info s info' :
  graph_GetNodes graph = Val nodes →
  Forall (λ node, ∃ op_type, GetOperatorType node = Val op_type) nodes →
  GetCapabilityImpl AddNodesToFuse graph info = (s, info') →
  ∃ claimed rest,
    filter (λ node, verdict node = true) nodes = claimed ++ rest
    ∧ info' = info ++ ((λ node, [node]) <$> claimed)
    ∧ match rest with
      | [] => s = StatusOK
      | node :: _ => s = AddNodesToFuse info' [node] ∧ s ≠ StatusOK
      end.
Proof.
  intros Hnodes Hops. unfold GetCapabilityImpl. rewrite Hnodes.
  rewrite (collect_supported_filter _ Hops).
  case_bool_decide as Hnil.
  { intros [= <- <-]. subst nodes. exists [], []. simpl.
    by rewrite app_nil_r. }
  case_bool_decide as Hnone.
  { intros [= <- <-]. rewrite Hnone. exists [], []. simpl.
    by rewrite app_nil_r. }
  intros Hclaim.
  apply claim_nodes_prefix in Hclaim as (claimed & rest & Hsplit & -> & Hs).
  by exists claimed, rest.
Qed.

(** A supported node followed by a node whose operator type cannot be
    read: the query fails and claims nothing. *)
Lemma GetCapabilityImpl_unreadable_witness :
  GetCapabilityImpl Samples.accept_all MoreSamples.unreadable_graph []
  = (status_of_exn (OrtException 1 "no operator type"), []).
Proof.
  destruct (GetCapabilityImpl_unreadable Samples.accept_all
              MoreSamples.unreadable_graph []) as (_ & Hnode & _).
  apply (Hnode [Samples.conv0] MoreSamples.unreadable_node []).
  - reflexivity.
  - repeat constructor. by eexists.
  - reflexivity.
Defined.

(** Two supported nodes and a host that accepts one group: the first node
    is claimed, the query returns the host's error for the second. *)
Lemma GetCapabilityImpl_claims_prefix_witness :
  ∃ claimed rest,
    filter (λ node, verdict node = true) [Samples.conv0; Samples.conv0]
    = claimed ++ rest
    ∧ [[Samples.conv0]] = [] ++ ((λ node, [node]) <$> claimed)
    ∧ match rest with
      | [] => StatusError 2 "no room" = StatusOK
      | node :: _ =>
          StatusError 2 "no room"
          = MoreSamples.accept_first [[Samples.conv0]] [node]
          ∧ StatusError 2 "no room" ≠ StatusOK
      end.
Proof.
  assert (GetCapabilityImpl MoreSamples.accept_first MoreSamples.two_conv_graph []
          = (StatusError 2 "no room", [[Samples.conv0]])) as Hrun
    by (vm_compute; reflexivity).
  apply (GetCapabilityImpl_claims_prefix MoreSamples.accept_first
           MoreSamples.two_conv_graph [Samples.conv0; Samples.conv0] []
           (StatusError 2 "no room") [[Samples.conv0]]).
  - reflexivity.
  - repeat constructor; by eexists.
  - exact Hrun.
Defined.

(** * Compute states *)

Section ComputeInfoProofs.

Context {VS : Type} (vendor : VendorApi VS).
Implicit Types (ep : HipDNNEp VS).

(** Where the kernels registered by a compile request come from: a name
    registered before keeps its kernel, and a new name gets the kernel
    compiled from the first subgraph of the request that carries it. *)
Lemma CompileImpl_loop_registered requests ep infos ep' infos' :
  CompileImpl_loop vendor requests ep infos = Done (StatusOK, ep', infos') →
  (∀ i graph fused_node,
     requests !! i = Some (graph, fused_node) →
     ∃ name, node_GetName fused_node = Val name
             ∧ is_Some (kernels_ ep' !! name))
  ∧ (∀ name kernel,
       kernels_ ep' !! name = Some kernel →
       kernels_ ep !! name = Some kernel
       ∨ (kernels_ ep !! name = None
          ∧ ∃ i graph fused_node,
              requests !! i = Some (graph, fused_node)
              ∧ node_GetName fused_node = Val name
              ∧ BuildAndCompile vendor graph
                  (new_Kernel vendor (hipdnn_handle_ ep))
                = Done (StatusOK, kernel)
              ∧ ∀ j graph' fused_node',
                  (j < i)%nat → requests !! j = Some (graph', fused_node') →
                  node_GetName fused_node' ≠ Val name)).
Proof.
  revert ep infos. induction requests as [|[graph fused_node] requests IH];
    intros ep infos; simpl.
  - intros [= <- <-]. split; [done|]. intros name kernel Hk. by left.
  - destruct (graph_GetNodes graph) as [nodes|[]]; [|done..].
    case_bool_decide; [done|].
    destruct (BuildAndCompile _ _ _) as [[[] kernel0]|] eqn:Hbuild; [|done..].
    destruct (node_GetName fused_node) as [name0|[]] eqn:Hname0; [|done..].
    intros Hloop.
    pose proof (CompileImpl_loop_success _ _ _ _ _ _ Hloop)
      as (_ & Hsub & _ & _).
    apply IH in Hloop as [Hreg Horigin]. simpl in *.
    assert (is_Some (emplace name0 kernel0 (kernels_ ep) !! name0)) as Hin0.
    { apply elem_of_dom. rewrite dom_emplace. set_solver. }
    split.
    + intros [|i] graph' fused_node' Hi; simpl in Hi.
      * injection Hi as <- <-. exists name0. split; [done|].
        destruct Hin0 as [kernel Hkernel]. exists kernel.
        by eapply lookup_weaken.
      * by eapply Hreg.
    + intros name kernel Hk.
      destruct (Horigin _ _ Hk) as [Hold | [Hnew Hfirst]].
      * unfold emplace in Hold.
        destruct (kernels_ ep !! name0) eqn:Hep; [by left|].
        destruct (decide (name = name0)) as [->|Hne].
        -- rewrite lookup_insert_eq in Hold. injection Hold as <-.
           right. split; [done|]. exists 0, graph, fused_node.
           split_and!; [done..|]. intros j ? ? Hj. lia.
        -- rewrite lookup_insert_ne in Hold by done. by left.
      * assert (name ≠ name0) as Hne.
        { intros ->. rewrite Hnew in Hin0. by destruct Hin0. }
        right. split.
        { destruct (kernels_ ep !! name) eqn:Hep; [|done].
          eapply lookup_weaken in Hep; [|apply (emplace_subseteq name0 kernel0)].
          by rewrite Hep in Hnew. }
        destruct Hfirst as (i & graph' & fused_node' & Hi & Hn & Hb & Hfirst).
        exists (S i), graph', fused_node'. split_and!; [done..|].
        intros [|j] graph'' fused_node'' Hlt Hj; simpl in Hj.
        -- injection Hj as <- <-. rewrite Hname0. congruence.
        -- eapply Hfirst; [|done]. lia.
Qed.

(** X7. After a compile call that succeeded, the compute state of every
    fused node of the request can be created: [CreateStateImpl] finds a
    kernel under the node's name. That kernel is the one registered under
    the name before the call, if there was one; otherwise it is the kernel
    [BuildAndCompile] built from the first subgraph of the request that
    carries the name. For a name that is neither registered before nor in
    the request, [CreateStateImpl] writes no state and returns the error
    "Kernel not found for node: " followed by the name. *)
Theorem CreateState_after_Compile requests ep ep' infos :
  CompileImpl vendor requests ep = Done (StatusOK, ep', infos) →
  (∀ i graph fused_node,
     requests !! i = Some (graph, fused_node) →
     ∃ name kernel,
       node_GetName fused_node = Val name
       ∧ CreateStateImpl ep' name = (StatusOK, Some name)
       ∧ GetKernel ep' name = Some kernel
       ∧ (GetKernel ep name = Some kernel
          ∨ (GetKernel ep name = None
             ∧ ∃ j graph' fused_node',
                 (j ≤ i)%nat
                 ∧ requests !! j = Some (graph', fused_node')
                 ∧ node_GetName fused_node' = Val name
                 ∧ BuildAndCompile vendor graph'
                     (new_Kernel vendor (hipdnn_handle_ ep))
                   = Done (StatusOK, kernel)
                 ∧ ∀ j' graph'' fused_node'',
                     (j' < j)%nat → requests !! j' = Some (graph'', fused_node'') →
                     node_GetName fused_node'' ≠ Val name)))
  ∧ (∀ name,
       GetKernel ep name = None → name ∉ fused_names requests →
       CreateStateImpl ep' name
       = (StatusError ORT_EP_FAIL ("Kernel not found for node: " +:+ name),
          None)).
Proof.
  unfold CompileImpl, CreateStateImpl, GetKernel. intros Hloop.
  pose proof (CompileImpl_loop_success _ _ _ _ _ _ Hloop)
    as (_ & _ & Hdom & _).
  apply CompileImpl_loop_registered in Hloop as [Hreg Horigin].
  split.
  - intros i graph fused_node Hi.
    destruct (Hreg _ _ _ Hi) as (name & Hname & [kernel Hkernel]).
    exists name, kernel. rewrite Hkernel. split_and!; [done..|].
    destruct (Horigin _ _ Hkernel) as [Hold | [Hnew Hfirst]]; [by left|right].
    split; [done|].
    destruct Hfirst as (j & graph' & fused_node' & Hj & Hn & Hb & Hfirst).
    exists j, graph', fused_node'. split_and!; [|done..].
    destruct (decide (j ≤ i)%nat) as [|Hgt]; [done|].
    destruct (Hfirst i graph fused_node); [lia|done..].
  - intros name Hold Hnot.
    assert (kernels_ ep' !! name = None) as ->; [|done].
    apply not_elem_of_dom. rewrite Hdom.
    apply not_elem_of_dom in Hold. set_solver.
Qed.

Lemma CompileImpl_loop_executable requests ep infos s ep' infos' :
  kernels_executable ep →
  CompileImpl_loop vendor requests ep infos = Done (s, ep', infos') →
  kernels_executable ep'.
Proof.
  revert ep infos. induction requests as [|[graph fused_node] requests IH];
    intros ep infos Hex; simpl.
  - by intros [= <- <- <-].
  - destruct (graph_GetNodes graph) as [nodes|]; [|by intros [= <- <- <-]].
    case_bool_decide; [by intros [= <- <- <-]|].
    destruct (BuildAndCompile _ _ _) as [[[] kernel0]|] eqn:Hbuild;
      [|by intros [= <- <- <-]|done].
    destruct (node_GetName fused_node) as [name0|];
      [|by intros [= <- <- <-]].
    apply IH. unfold kernels_executable, emplace in *. simpl.
    destruct (kernels_ ep !! name0); [done|].
    apply map_Forall_insert_2; [|done].
    by apply BuildAndCompile_executable in Hbuild as [? _].
Qed.

(** X8. A provider whose kernels are executable stays so through compile
    calls, whatever their outcome, and through compute calls. On such a
    provider a compute call on a state that [CreateStateImpl] handed out
    returns a status, for every inference context; it executes the kernel
    registered under that name, whose compiled state it leaves as it is,
    and it touches no other kernel: the same names are registered
    afterwards, the other names with the kernels they had. *)
Theorem ComputeImpl_session requests ep s ep' infos :
  kernels_executable ep →
  CompileImpl vendor requests ep = Done (s, ep', infos) →
  kernels_executable ep'
  ∧ ∀ name state (context : KernelContext),
      CreateStateImpl ep' name = (StatusOK, Some state) →
      ∃ kernel status kernel',
        GetKernel ep' name = Some kernel
        ∧ Execute vendor context kernel = Done (status, kernel')
        ∧ same_translation kernel kernel'
        ∧ ∃ ep'',
            ComputeImpl vendor state context ep' = Done (status, ep'')
            ∧ kernels_executable ep''
            ∧ GetKernel ep'' name = Some kernel'
            ∧ dom (kernels_ ep'') = dom (kernels_ ep')
            ∧ ∀ other, other ≠ name → GetKernel ep'' other = GetKernel ep' other.
Proof.
  intros Hex Hcompile.
  apply (CompileImpl_loop_executable _ _ _ _ _ _ Hex) in Hcompile as Hex'.
  split; [done|].
  unfold CreateStateImpl, ComputeImpl, GetKernel.
  intros name state context.
  destruct (kernels_ ep' !! name) as [kernel|] eqn:Hkernel; [|done].
  intros [= <-]. rewrite Hkernel.
  destruct (Execute_executable vendor context kernel)
    as (status & kernel' & Hrun & Hex1 & Hsame & _);
    [by eapply Hex'|].
  exists kernel, status, kernel'. rewrite Hrun.
  split_and!; [done..|]. eexists. split; [done|]. simpl. split_and!.
  - unfold kernels_executable. simpl. by apply map_Forall_insert_2.
  - apply lookup_insert_eq.
  - rewrite dom_insert_L. apply elem_of_dom_2 in Hkernel. set_solver.
  - intros other Hne. by rewrite lookup_insert_ne.
Qed.

End ComputeInfoProofs.

(** The request of one well-formed subgraph: the state of its fused node
    can be created, and the kernel found is the one built from it. *)
Lemma CreateState_after_Compile_witness :
  CreateStateImpl Samples.ep_after_half_good_request "fused0"
  = (StatusOK, Some "fused0")
  ∧ CreateStateImpl Samples.ep_after_half_good_request "fused1"
    = (StatusError ORT_EP_FAIL ("Kernel not found for node: " +:+ "fused1"),
       None).
Proof.
  assert (CompileImpl (Samples.ok_vendor 0)
            [(Samples.conv_graph, Samples.fused "fused0")] Samples.ep0
          = Done (StatusOK, Samples.ep_after_half_good_request,
                  [MkNodeComputeInfo])) as Hcompile
    by (vm_compute; reflexivity).
  destruct (CreateState_after_Compile (Samples.ok_vendor 0)
              [(Samples.conv_graph, Samples.fused "fused0")] Samples.ep0
              Samples.ep_after_half_good_request [MkNodeComputeInfo] Hcompile)
    as [Hfound Hmissing].
  split.
  - destruct (Hfound 0%nat Samples.conv_graph (Samples.fused "fused0") eq_refl)
      as (name & kernel & Hname & Hstate & _).
    injection Hname as <-. exact Hstate.
  - apply Hmissing; [reflexivity|].
    vm_compute. by intros [=]%list_elem_of_singleton.
Defined.

(** A compute call on the state of the fused node of that request. *)
Lemma ComputeImpl_session_witness :
  ∃ status ep'',
    ComputeImpl (Samples.ok_vendor 0) "fused0" Samples.context
      Samples.ep_after_half_good_request
    = Done (status, ep'')
    ∧ dom (kernels_ ep'') = dom (kernels_ Samples.ep_after_half_good_request).
Proof.
  assert (CompileImpl (Samples.ok_vendor 0)
            [(Samples.conv_graph, Samples.fused "fused0")] Samples.ep0
          = Done (StatusOK, Samples.ep_after_half_good_request,
                  [MkNodeComputeInfo])) as Hcompile
    by (vm_compute; reflexivity).
  assert (kernels_executable Samples.ep0) as Hex by apply map_Forall_empty.
  assert (CreateStateImpl Samples.ep_after_half_good_request "fused0"
          = (StatusOK, Some "fused0")) as Hstate
    by (vm_compute; reflexivity).
  destruct (ComputeImpl_session (Samples.ok_vendor 0)
              [(Samples.conv_graph, Samples.fused "fused0")] Samples.ep0
              StatusOK Samples.ep_after_half_good_request [MkNodeComputeInfo]
              Hex Hcompile) as [_ Hcompute].
  destruct (Hcompute "fused0" "fused0" Samples.context Hstate)
    as (kernel & status & kernel' & _ & _ & _ & ep'' & Hrun & _ & _ & Hdom & _).
  exists status, ep''. split; [exact Hrun | exact Hdom].
Defined.

(** * The device allocator *)

Section AllocatorProofs.

Import Allocator.

Context {HS : Type} (hip : HipApi HS).
Implicit Types (impl : HipDeviceAllocator) (h : Hip HS).

Lemma tracked_bytes_insert impl p (size : Z) :
  allocation_sizes_ impl !! p = None →
  map_fold (λ _ size total, (size + total)%Z) 0%Z
    (<[p := size]> (allocation_sizes_ impl))
  = (size + tracked_bytes impl)%Z.
Proof.
  intros Hfresh. unfold tracked_bytes.
  rewrite map_fold_insert_L; [done| |done]. intros. lia.
Qed.

Lemma tracked_bytes_delete impl p (size : Z) :
  allocation_sizes_ impl !! p = Some size →
  map_fold (λ _ size total, (size + total)%Z) 0%Z
    (delete p (allocation_sizes_ impl))
  = (tracked_bytes impl - size)%Z.
Proof.
  intros Htracked. unfold tracked_bytes.
  rewrite (map_fold_delete_L _ _ p size (allocation_sizes_ impl));
    [lia| |done].
  intros. lia.
Qed.

Lemma tracked_bytes_nonneg impl :
  map_Forall (λ _ size, (0 ≤ size < 2 ^ 63)%Z) (allocation_sizes_ impl) →
  (0 ≤ tracked_bytes impl)%Z.
Proof.
  unfold tracked_bytes. generalize (allocation_sizes_ impl). intros m.
  induction m as [|p size m Hfresh Hfold IH] using map_first_key_ind.
  - by rewrite map_fold_empty.
  - intros [Hsize Hm]%map_Forall_insert; [|done].
    rewrite map_fold_insert_first_key by done. specialize (IH Hm). lia.
Qed.

(** What a successful allocation is: both runtime calls answered
    [hipSuccess], and the allocator tracks the new address. *)
Lemma AllocImpl_cases (size : Z) impl h :
  (AllocImpl hip size impl h).1.2 = impl
  ∧ (AllocImpl hip size impl h).1.1 = nullptr
  ∨ ∃ err ptr h',
      (AllocImpl hip size impl h).1
      = (ptr,
         {| memory_info_ := memory_info_ impl; device_id_ := device_id_ impl;
            allocation_sizes_ := <[ptr := size]> (allocation_sizes_ impl);
            stats_ :=
              {| num_allocs := int64_wrap (num_allocs (stats_ impl) + 1);
                 bytes_in_use :=
                   int64_wrap (bytes_in_use (stats_ impl) + int64_wrap size);
                 total_allocated_bytes :=
                   int64_wrap (total_allocated_bytes (stats_ impl)
                               + int64_wrap size);
                 max_bytes_in_use :=
                   Z.max (max_bytes_in_use (stats_ impl))
                     (int64_wrap (bytes_in_use (stats_ impl) + int64_wrap size));
                 max_alloc_size :=
                   Z.max (max_alloc_size (stats_ impl)) (int64_wrap size) |} |})
      ∧ hipMalloc hip size (hipSetDevice hip (device_id_ impl) h).2
        = (err, ptr, h')
      ∧ err = hipSuccess.
Proof.
  unfold AllocImpl.
  destruct (hipSetDevice hip (device_id_ impl) h) as [err0 h0]. simpl.
  case_bool_decide; [by left|].
  destruct (hipMalloc hip size h0) as [[err ptr] h'] eqn:Hmalloc.
  case_bool_decide as Herr; [by left|]. right.
  by exists err, ptr, h'.
Qed.

Lemma AllocImpl_consistent (size : Z) impl h :
  stats_consistent impl →
  (0 ≤ size)%Z →
  (total_allocated_bytes (stats_ impl) + size < 2 ^ 63)%Z →
  (num_allocs (stats_ impl) < 2 ^ 63 - 1)%Z →
  allocation_sizes_ impl !! (AllocImpl hip size impl h).1.1 = None →
  stats_consistent (AllocImpl hip size impl h).1.2.
Proof.
  intros Hc Hsize Htotal Hnum Hfresh.
  destruct (AllocImpl_cases size impl h)
    as [[-> _] | (err & ptr & h' & Heq & _ & _)]; [done|].
  rewrite Heq in *. simpl in *. clear Heq.
  destruct Hc as [Hrange Hin Hmax Hpeak Htot Hlarge Hcnt].
  pose proof (tracked_bytes_nonneg _ Hrange) as Hnn.
  assert (int64_wrap size = size) as Hwrap
    by (apply int64_wrap_in_range; unfold in_int64; lia).
  assert (0 ≤ Z.of_nat (base.size (allocation_sizes_ impl)))%Z as Hcount by lia.
  rewrite Hwrap.
  rewrite !int64_wrap_in_range by (unfold in_int64; lia).
  split; simpl.
  - apply map_Forall_insert_2; [lia|done].
  - unfold tracked_bytes. simpl. rewrite tracked_bytes_insert by done. lia.
  - lia.
  - lia.
  - lia.
  - apply map_Forall_insert_2; [lia|].
    eapply map_Forall_impl; [done|]. simpl. intros. lia.
  - rewrite map_size_insert_None by done. lia.
Qed.

Lemma FreeImpl_cases (p : VoidPtr) impl h :
  (FreeImpl hip p impl h).1 = impl
  ∨ ∃ size,
      allocation_sizes_ impl !! p = Some size
      ∧ p ≠ nullptr
      ∧ (hipSetDevice hip (device_id_ impl) h).1 = hipSuccess
      ∧ (FreeImpl hip p impl h).1
        = {| memory_info_ := memory_info_ impl; device_id_ := device_id_ impl;
             allocation_sizes_ := delete p (allocation_sizes_ impl);
             stats_ :=
               {| num_allocs := num_allocs (stats_ impl);
                  bytes_in_use :=
                    int64_wrap (bytes_in_use (stats_ impl) - int64_wrap size);
                  total_allocated_bytes := total_allocated_bytes (stats_ impl);
                  max_bytes_in_use := max_bytes_in_use (stats_ impl);
                  max_alloc_size := max_alloc_size (stats_ impl) |} |}.
Proof.
  unfold FreeImpl. case_bool_decide as Hnull; [by left|].
  destruct (hipSetDevice hip (device_id_ impl) h) as [err0 h0]. simpl.
  case_bool_decide as Herr; [by left|].
  destruct (hipFree hip p h0) as [err1 h1].
  destruct (allocation_sizes_ impl !! p) as [size|]; [|by left].
  right. by exists size.
Qed.

Lemma FreeImpl_consistent (p : VoidPtr) impl h :
  stats_consistent impl → stats_consistent (FreeImpl hip p impl h).1.
Proof.
  intros Hc.
  destruct (FreeImpl_cases p impl h) as [-> | (size & Hp & _ & _ & ->)];
    [done|].
  destruct Hc as [Hrange0 Hin Hmax Hpeak Htot Hlarge Hcnt].
  pose proof (tracked_bytes_delete _ _ _ Hp) as Hdel.
  pose proof (tracked_bytes_nonneg _ Hrange0) as Hnn0.
  pose proof (map_Forall_lookup_1 _ _ _ _ Hrange0 Hp) as Hsize.
  simpl in Hsize.
  assert (map_Forall (λ _ size, (0 ≤ size < 2 ^ 63)%Z)
            (delete p (allocation_sizes_ impl))) as Hrange
    by (by apply map_Forall_delete).
  pose proof (tracked_bytes_nonneg
                {| memory_info_ := memory_info_ impl;
                   device_id_ := device_id_ impl;
                   allocation_sizes_ := delete p (allocation_sizes_ impl);
                   stats_ := stats_ impl |} Hrange) as Hnn.
  unfold tracked_bytes in Hnn. simpl in Hnn. rewrite Hdel in Hnn.
  rewrite (int64_wrap_in_range size) by (unfold in_int64; lia).
  rewrite int64_wrap_in_range by (unfold in_int64; lia).
  split; simpl.
  - done.
  - unfold tracked_bytes at 1. simpl. rewrite Hdel. lia.
  - lia.
  - lia.
  - lia.
  - by apply map_Forall_delete.
  - rewrite map_size_delete_Some by done. lia.
Qed.

(** X9. The statistics of the allocator agree with the allocations it
    tracks: the bytes in use are the sum of the tracked sizes, at most the
    peak, which is at most the total ever allocated; no tracked allocation
    is larger than the largest on record, and there are at most as many
    as were counted. This holds of a new allocator; [FreeImpl] keeps it,
    whatever pointer it is given and whatever the runtime answers; and
    [AllocImpl] keeps it when the counters stay below 2^63 and the address
    the call returns is not one the allocator already tracks. *)
Theorem allocator_stats_consistent :
  (∀ mem_info device_id,
     stats_consistent (new_HipDeviceAllocator mem_info device_id))
  ∧ (∀ size impl h,
       stats_consistent impl →
       (0 ≤ size)%Z →
       (total_allocated_bytes (stats_ impl) + size < 2 ^ 63)%Z →
       (num_allocs (stats_ impl) < 2 ^ 63 - 1)%Z →
       allocation_sizes_ impl !! (AllocImpl hip size impl h).1.1 = None →
       stats_consistent (AllocImpl hip size impl h).1.2)
  ∧ (∀ p impl h,
       stats_consistent impl → stats_consistent (FreeImpl hip p impl h).1).
Proof.
  split_and!.
  - intros mem_info device_id. by split.
  - apply AllocImpl_consistent.
  - apply FreeImpl_consistent.
Qed.

Lemma int64_wrap_sub_l (a b : Z) :
  int64_wrap (int64_wrap a - b) = int64_wrap (a - b).
Proof.
  unfold int64_wrap. f_equal.
  replace ((a + 2 ^ 63) mod 2 ^ 64 - 2 ^ 63 - b + 2 ^ 63)%Z
    with ((a + 2 ^ 63) mod 2 ^ 64 + - b)%Z by lia.
  rewrite Zplus_mod_idemp_l. f_equal. lia.
Qed.

(** X10. Allocating and freeing is a round trip for the allocator's
    tracking. When [AllocImpl] returns an address, which the allocator did
    not track before, and [FreeImpl] is called on it: if the runtime
    accepts the device, the runtime is asked to free that address, and the
    tracked allocations and the bytes in use are again those before the
    allocation, whatever the runtime answers to the free; if the runtime
    does not accept the device, nothing is freed and the allocation stays
    tracked. After the free, freeing the same address once more changes
    nothing in the allocator; and freeing the null pointer never changes
    anything, nor calls the runtime. *)
Theorem AllocImpl_FreeImpl_round_trip (size : Z) impl h p impl1 h1 impl2 h2 :
  AllocImpl hip size impl h = (p, impl1, h1) →
  p ≠ nullptr →
  allocation_sizes_ impl !! p = None →
  in_int64 (bytes_in_use (stats_ impl)) →
  FreeImpl hip p impl1 h1 = (impl2, h2) →
  allocation_sizes_ impl1 !! p = Some size
  ∧ ((hipSetDevice hip (device_id_ impl1) h1).1 = hipSuccess →
     allocation_sizes_ impl2 = allocation_sizes_ impl
     ∧ bytes_in_use (stats_ impl2) = bytes_in_use (stats_ impl)
     ∧ last (hip_calls h2) = Some (call_hipFree p)
     ∧ ∀ h3, (FreeImpl hip p impl2 h3).1 = impl2)
  ∧ ((hipSetDevice hip (device_id_ impl1) h1).1 ≠ hipSuccess →
     impl2 = impl1
     ∧ hip_calls h2 = hip_calls h1 ++ [call_hipSetDevice (device_id_ impl1)])
  ∧ ∀ impl3 h3, FreeImpl hip nullptr impl3 h3 = (impl3, h3).
Proof.
  intros Halloc Hp Hfresh Hrange Hfree.
  destruct (AllocImpl_cases size impl h)
    as [[_ Hnull] | (err & ptr & h' & Heq & _ & _)];
    rewrite Halloc in *; simpl in *; [done|].
  injection Heq as <- ->. simpl in *.
  split; [apply lookup_insert_eq|].
  revert Hfree. unfold FreeImpl. rewrite bool_decide_eq_false_2 by done.
  cbn [device_id_ allocation_sizes_ stats_ memory_info_].
  destruct (hipSetDevice hip (device_id_ impl) h1) as [err0 h1'] eqn:Hset.
  assert (hip_calls h1'
          = hip_calls h1 ++ [call_hipSetDevice (device_id_ impl)]) as Hcalls1.
  { unfold hipSetDevice in Hset.
    destruct (api_hipSetDevice hip _ _) as [err0' hs0].
    by injection Hset as <- <-. }
  simpl. case_bool_decide as Herr.
  - intros [= <- <-]. split; [by intros ?|]. by split.
  - destruct (hipFree hip p h1') as [err1 h2'] eqn:Hfree.
    assert (hip_calls h2' = hip_calls h1' ++ [call_hipFree p]) as Hcalls2.
    { unfold hipFree in Hfree.
      destruct (api_hipFree hip _ _) as [err1' hs1].
      by injection Hfree as <- <-. }
    rewrite lookup_insert_eq. intros [= <- <-]. simpl.
    split; [|split; [by intros ?|done]]. intros _. split_and!.
    + by rewrite delete_insert_eq, delete_id.
    + rewrite int64_wrap_sub_l.
      replace (bytes_in_use (stats_ impl) + int64_wrap size - int64_wrap size)%Z
        with (bytes_in_use (stats_ impl)) by lia.
      by apply int64_wrap_in_range.
    + by rewrite Hcalls2, last_snoc.
    + intros h3.
      destruct (hipSetDevice hip (device_id_ impl) h3) as [err2 h4].
      case_bool_decide; [done|].
      destruct (hipFree hip p h4) as [err3 h5]. simpl.
      by rewrite lookup_delete_eq.
Qed.

(** X11. What the allocator reports. While no allocation has been counted
    the report is empty, and for an allocator whose statistics are
    consistent nothing is tracked then. Once an allocation has been counted
    the report has the five entries InUse, TotalAllocated, MaxInUse,
    NumAllocs and MaxAllocSize, in this order and in decimal, and for a
    consistent allocator InUse is the sum of the tracked sizes. After an
    allocation that returned an address the report is never empty, as long
    as the count stays below 2^63; freeing does not change the count. *)
Theorem GetStatsImpl_report impl :
  stats_consistent impl →
  (num_allocs (stats_ impl) = 0%Z →
   GetStatsImpl impl = (StatusOK, []) ∧ allocation_sizes_ impl = ∅)
  ∧ (num_allocs (stats_ impl) ≠ 0%Z →
     GetStatsImpl impl
     = (StatusOK,
        [("InUse", pretty (tracked_bytes impl));
         ("TotalAllocated", pretty (total_allocated_bytes (stats_ impl)));
         ("MaxInUse", pretty (max_bytes_in_use (stats_ impl)));
         ("NumAllocs", pretty (num_allocs (stats_ impl)));
         ("MaxAllocSize", pretty (max_alloc_size (stats_ impl)))]))
  ∧ (∀ (size : Z) h,
       (num_allocs (stats_ impl) < 2 ^ 63 - 1)%Z →
       (AllocImpl hip size impl h).1.1 ≠ nullptr →
       num_allocs (stats_ (AllocImpl hip size impl h).1.2) ≠ 0%Z)
  ∧ (∀ p h,
       num_allocs (stats_ (FreeImpl hip p impl h).1)
       = num_allocs (stats_ impl)).
Proof.
  intros Hc. destruct Hc as [Hrange Hin Hmax Hpeak Htot Hlarge Hcnt].
  assert (0 ≤ Z.of_nat (base.size (allocation_sizes_ impl)))%Z as Hnn by lia.
  unfold GetStatsImpl, StatsToKeyValuePairs, AddKeyValuePair. split_and!.
  - intros Hzero. rewrite bool_decide_eq_false_2 by lia. split; [done|].
    apply map_size_empty_inv. lia.
  - intros Hne. rewrite bool_decide_eq_true_2 by lia. simpl.
    by rewrite Hin.
  - intros size h Hnum Hp.
    destruct (AllocImpl_cases size impl h)
      as [[_ Hnull] | (err & ptr & h' & Heq & _ & _)]; [done|].
    rewrite Heq. simpl.
    rewrite int64_wrap_in_range by (unfold in_int64; lia). lia.
  - intros p h.
    by destruct (FreeImpl_cases p impl h) as [-> | (size & _ & _ & _ & ->)].
Qed.

End AllocatorProofs.

(** An allocation of 16 bytes from a new allocator. *)
Lemma allocator_stats_consistent_witness :
  stats_consistent MoreSamples.allocated_16.1.2
  ∧ tracked_bytes MoreSamples.allocated_16.1.2 = 16%Z.
Proof.
  destruct (allocator_stats_consistent MoreSamples.hip_ok)
    as (Hnew & Halloc & _).
  split; [|vm_compute; reflexivity].
  apply (Halloc 16%Z MoreSamples.allocator0 MoreSamples.hip0).
  - apply Hnew.
  - lia.
  - simpl. lia.
  - simpl. lia.
  - vm_compute. reflexivity.
Defined.

(** The allocation of 16 bytes, freed. *)
Lemma AllocImpl_FreeImpl_round_trip_witness :
  Allocator.allocation_sizes_ MoreSamples.freed_16.1
  = Allocator.allocation_sizes_ MoreSamples.allocator0
  ∧ Allocator.bytes_in_use (Allocator.stats_ MoreSamples.freed_16.1)
    = Allocator.bytes_in_use (Allocator.stats_ MoreSamples.allocator0).
Proof.
  assert (Allocator.AllocImpl MoreSamples.hip_ok 16 MoreSamples.allocator0
            MoreSamples.hip0
          = (MoreSamples.allocated_16.1.1, MoreSamples.allocated_16.1.2,
             MoreSamples.allocated_16.2)) as Halloc
    by (vm_compute; reflexivity).
  assert (MoreSamples.allocated_16.1.1 ≠ nullptr) as Hp
    by (vm_compute; discriminate).
  assert (Allocator.allocation_sizes_ MoreSamples.allocator0
            !! MoreSamples.allocated_16.1.1 = None) as Hfresh
    by (vm_compute; reflexivity).
  assert (in_int64
            (Allocator.bytes_in_use (Allocator.stats_ MoreSamples.allocator0)))
    as Hrange by (unfold in_int64; simpl; lia).
  assert (Allocator.FreeImpl MoreSamples.hip_ok MoreSamples.allocated_16.1.1
            MoreSamples.allocated_16.1.2 MoreSamples.allocated_16.2
          = (MoreSamples.freed_16.1, MoreSamples.freed_16.2)) as Hfree
    by (vm_compute; reflexivity).
  destruct (AllocImpl_FreeImpl_round_trip MoreSamples.hip_ok 16
              MoreSamples.allocator0 MoreSamples.hip0 _ _ _ _ _
              Halloc Hp Hfresh Hrange Hfree) as (_ & Hrestored & _).
  destruct Hrestored as (Htracking & Hbytes & _); [vm_compute; reflexivity|].
  split; [exact Htracking | exact Hbytes].
Defined.

(** A new allocator reports nothing. *)
Lemma GetStatsImpl_report_witness :
  Allocator.GetStatsImpl MoreSamples.allocator0 = (StatusOK, []).
Proof.
  assert (stats_consistent MoreSamples.allocator0) as Hc by (by split).
  destruct (GetStatsImpl_report MoreSamples.hip_ok MoreSamples.allocator0 Hc)
    as (Hempty & _).
  destruct Hempty as [Hreport _]; [reflexivity|]. exact Hreport.
Defined.

(** * The data transfer *)

Section DataTransferProofs.

Import DataTransfer.

Context {HS : Type} (hip : HipApi HS).
Implicit Types (h : Hip HS).

(** X12. [CanCopyImpl] accepts a pair of memory devices exactly when they
    are not both CPU devices and every one of the two that is not a CPU
    device has the default memory type; so it accepts a pair exactly when
    it accepts the reversed pair. For a pair it accepts whose devices are
    CPU or GPU devices, [CopyTensorsImpl] selects a copy through the
    runtime: host to device from a CPU, device to host to a CPU, device to
    device otherwise. A device of another type is accepted by [CanCopyImpl]
    like a GPU, and copied by [CopyTensorsImpl] with [std::memcpy], like a
    copy between two CPU devices, which [CanCopyImpl] does not accept. *)
Theorem CanCopyImpl_iff (src dst : OrtMemoryDevice) :
  (CanCopyImpl src dst = true
   ↔ ¬ (MemoryDevice_GetDeviceType src = OrtMemoryInfoDeviceType_CPU
        ∧ MemoryDevice_GetDeviceType dst = OrtMemoryInfoDeviceType_CPU)
     ∧ (MemoryDevice_GetDeviceType src ≠ OrtMemoryInfoDeviceType_CPU →
        MemoryDevice_GetMemoryType src = OrtDeviceMemoryType_DEFAULT)
     ∧ (MemoryDevice_GetDeviceType dst ≠ OrtMemoryInfoDeviceType_CPU →
        MemoryDevice_GetMemoryType dst = OrtDeviceMemoryType_DEFAULT))
  ∧ CanCopyImpl src dst = CanCopyImpl dst src
  ∧ (CanCopyImpl src dst = true →
     is_cpu_or_gpu (MemoryDevice_GetDeviceType src) →
     is_cpu_or_gpu (MemoryDevice_GetDeviceType dst) →
     kind_of (MemoryDevice_GetDeviceType src) (MemoryDevice_GetDeviceType dst)
     = Some (if bool_decide (MemoryDevice_GetDeviceType src
                             = OrtMemoryInfoDeviceType_CPU)
             then hipMemcpyHostToDevice
             else if bool_decide (MemoryDevice_GetDeviceType dst
                                  = OrtMemoryInfoDeviceType_CPU)
             then hipMemcpyDeviceToHost
             else hipMemcpyDeviceToDevice))
  ∧ (¬ (is_cpu_or_gpu (MemoryDevice_GetDeviceType src)
        ∧ is_cpu_or_gpu (MemoryDevice_GetDeviceType dst)) →
     kind_of (MemoryDevice_GetDeviceType src) (MemoryDevice_GetDeviceType dst)
     = None)
  ∧ kind_of OrtMemoryInfoDeviceType_CPU OrtMemoryInfoDeviceType_CPU = None.
Proof.
  unfold CanCopyImpl, kind_of, is_cpu_or_gpu.
  destruct src as [src_type src_device], dst as [dst_type dst_device]. simpl.
  unfold OrtMemoryInfoDeviceType_CPU, OrtMemoryInfoDeviceType_GPU,
    OrtDeviceMemoryType_DEFAULT.
  split_and!.
  - repeat case_bool_decide; simpl; split; naive_solver.
  - repeat case_bool_decide; simpl; naive_solver.
  - repeat case_bool_decide; simpl; naive_solver.
  - repeat case_bool_decide; simpl; naive_solver.
  - done.
Qed.

Lemma hipMemcpy_calls dst src (byte_size : Z) kind h err h' :
  hipMemcpy hip dst src byte_size kind h = (err, h') →
  hip_calls h' = hip_calls h ++ [call_hipMemcpy dst src byte_size kind].
Proof.
  unfold hipMemcpy. destruct (api_hipMemcpy hip _ _ _ _ _) as [err' hs].
  by intros [= <- <-].
Qed.

Lemma hipSetDevice_calls (device_id : Z) h err h' :
  hipSetDevice hip device_id h = (err, h') →
  hip_calls h' = hip_calls h ++ [call_hipSetDevice device_id].
Proof.
  unfold hipSetDevice. destruct (api_hipSetDevice hip _ _) as [err' hs].
  by intros [= <- <-].
Qed.

(** One iteration: when it goes on to the next, the copy of the pair has
    been issued; when it ends the call, at most that copy has been. *)
Lemma copy_tensor_spec (src dst : Value) h :
  match copy_tensor hip src dst h with
  | Val (StatusOK, h') =>
      ∃ c, copy_of src dst c ∧ hip_calls h' = hip_calls h ++ [c]
  | Val (StatusError code msg, h') =>
      hip_calls h' = hip_calls h
      ∨ ∃ c err, copy_of src dst c ∧ hip_calls h' = hip_calls h ++ [c]
                 ∧ err ≠ hipSuccess
                 ∧ code = ORT_EP_FAIL
                 ∧ msg = "hipMemcpy failed: " +:+ hipGetErrorString hip err
  | Raise _ => True
  end.
Proof.
  unfold copy_tensor.
  destruct (GetTensorTypeAndShapeInfo src) as [src_type_shape|] eqn:H1;
    [simpl|done].
  destruct (GetTensorTypeAndShapeInfo dst) as [dst_type_shape|] eqn:H2;
    [simpl|done].
  destruct (GetElementCount src_type_shape) as [src_size|] eqn:H3;
    [simpl|done].
  destruct (GetElementCount dst_type_shape) as [dst_size|] eqn:H4;
    [simpl|done].
  case_bool_decide as Hsize; [by left|]. subst.
  destruct (GetElementType src_type_shape) as [elem_type|] eqn:H5;
    [simpl|done].
  destruct (elem_size_of elem_type) as [elem_size|] eqn:H6; [|by left].
  destruct (GetTensorMemoryInfo src) as [src_mem_info|] eqn:H7; [simpl|done].
  destruct (GetTensorMemoryInfo dst) as [dst_mem_info|] eqn:H8; [simpl|done].
  destruct (GetTensorRawData src) as [src_data|] eqn:H9; [simpl|done].
  destruct (GetTensorMutableRawData dst) as [dst_data|] eqn:H10; [simpl|done].
  destruct (kind_of _ _) as [kind|] eqn:Hkind.
  - destruct (hipMemcpy hip _ _ _ _ _) as [err h'] eqn:Hcopy.
    apply hipMemcpy_calls in Hcopy.
    assert (copy_of src dst
              (call_hipMemcpy dst_data src_data
                 (size_t_wrap (dst_size * elem_size)) kind)) as Hc.
    { exists src_type_shape, dst_type_shape, dst_size, elem_type, elem_size,
        src_mem_info, dst_mem_info, src_data, dst_data.
      rewrite Hkind. by split_and!. }
    case_bool_decide as Herr.
    + right. eexists _, err. by split_and!.
    + by eexists.
  - eexists. split; [|done].
    exists src_type_shape, dst_type_shape, dst_size, elem_type, elem_size,
      src_mem_info, dst_mem_info, src_data, dst_data.
    rewrite Hkind. by split_and!.
Qed.

Lemma copy_tensors_spec (tensors : list (Value * Value)) h s h' :
  copy_tensors hip tensors h = (s, h') →
  ∃ copied rest calls,
    tensors = copied ++ rest
    ∧ Forall2 (λ pair c, copy_of pair.1 pair.2 c) copied calls
    ∧ match s with
      | StatusOK => rest = [] ∧ hip_calls h' = hip_calls h ++ calls
      | StatusError code msg =>
          ∃ src dst rest',
            rest = (src, dst) :: rest'
            ∧ (hip_calls h' = hip_calls h ++ calls
               ∨ ∃ c err,
                   copy_of src dst c
                   ∧ hip_calls h' = hip_calls h ++ calls ++ [c]
                   ∧ err ≠ hipSuccess
                   ∧ code = ORT_EP_FAIL
                   ∧ msg = "hipMemcpy failed: " +:+ hipGetErrorString hip err)
      end.
Proof.
  revert h. induction tensors as [|[src dst] tensors IH]; intros h; simpl.
  - intros [= <- <-]. exists [], [], []. simpl. rewrite app_nil_r.
    split_and!; [done|constructor|done..].
  - pose proof (copy_tensor_spec src dst h) as Hone.
    destruct (copy_tensor hip src dst h) as [[[|code msg] h1]|e].
    + destruct Hone as (c & Hc & Hcalls). intros Hrest.
      apply IH in Hrest as (copied & rest & calls & -> & Hcopied & Hs).
      exists ((src, dst) :: copied), rest, (c :: calls).
      split_and!; [done|by constructor|].
      rewrite Hcalls in Hs.
      destruct s; [by rewrite <- app_assoc in Hs|].
      destruct Hs as (src' & dst' & rest' & -> & Hs).
      exists src', dst', rest'. split; [done|].
      destruct Hs as [Hs | (c0 & err & Hc0 & Hs & Herr)].
      * left. by rewrite <- app_assoc in Hs.
      * right. exists c0, err. split; [done|].
        by rewrite <- app_assoc in Hs.
    + intros [= <- <-]. exists [], ((src, dst) :: tensors), [].
      split_and!; [done|constructor|]. exists src, dst, tensors.
      split; [done|]. rewrite app_nil_r. simpl.
      destruct Hone as [Hnone | (c & err & Hc & Hcalls & Herr)];
        [by left|right]. by exists c, err.
    + intros [= <- <-]. exists [], ((src, dst) :: tensors), [].
      split_and!; [done|constructor|].
      destruct e; simpl; exists src, dst, tensors;
        (split; [done|]); left; by rewrite app_nil_r.
Qed.

(** X13. A call of [CopyTensorsImpl] that succeeds has selected the device
    once and then issued exactly one copy per pair of tensors, in the order
    of the pairs: each copy moves as many bytes as the source tensor has
    elements times the size of its element type, from the source's data to
    the destination's, through the runtime with the kind that the device
    types of the two tensors select, or with [std::memcpy] when they select
    none. Of every pair the two element counts are equal and the element
    type of the source is one of the six the switch knows. *)
Theorem CopyTensorsImpl_success (impl : HipDataTransfer)
    (tensors : list (Value * Value)) h h' :
  CopyTensorsImpl hip impl tensors h = (StatusOK, h') →
  ∃ calls,
    hip_calls h'
    = hip_calls h ++ call_hipSetDevice (device_id_ impl) :: calls
    ∧ Forall2 (λ pair c, copy_of pair.1 pair.2 c) tensors calls.
Proof.
  unfold CopyTensorsImpl.
  destruct (hipSetDevice hip (device_id_ impl) h) as [err h0] eqn:Hset.
  apply hipSetDevice_calls in Hset.
  case_bool_decide; [done|]. intros Hcopy.
  apply copy_tensors_spec in Hcopy
    as (copied & rest & calls & -> & Hcopied & -> & Hcalls).
  exists calls. rewrite app_nil_r. split; [|done].
  by rewrite Hcalls, Hset, <- app_assoc.
Qed.

(** X14. A call of [CopyTensorsImpl] that fails has stopped at the first
    failure. When the runtime does not accept the device, the call returns
    the error "Failed to set HIP device: " with the runtime's text and no
    copy has been issued. Otherwise the call failed at one pair: the copies
    of the pairs before it have been issued, in order; of the failing pair
    either nothing has been issued, or its copy has and the runtime
    answered it with an error, which the call returns behind "hipMemcpy
    failed: "; nothing has been issued for the pairs after it. *)
Theorem CopyTensorsImpl_failure (impl : HipDataTransfer)
    (tensors : list (Value * Value)) h code msg h' :
  CopyTensorsImpl hip impl tensors h = (StatusError code msg, h') →
  (hip_calls h' = hip_calls h ++ [call_hipSetDevice (device_id_ impl)]
   ∧ ∃ err, err ≠ hipSuccess
            ∧ code = ORT_EP_FAIL
            ∧ msg = "Failed to set HIP device: " +:+ hipGetErrorString hip err)
  ∨ ∃ copied src dst rest calls,
      tensors = copied ++ (src, dst) :: rest
      ∧ Forall2 (λ pair c, copy_of pair.1 pair.2 c) copied calls
      ∧ (hip_calls h'
         = hip_calls h ++ call_hipSetDevice (device_id_ impl) :: calls
         ∨ ∃ c err,
             copy_of src dst c
             ∧ hip_calls h'
               = hip_calls h
                 ++ call_hipSetDevice (device_id_ impl) :: calls ++ [c]
             ∧ err ≠ hipSuccess
             ∧ code = ORT_EP_FAIL
             ∧ msg = "hipMemcpy failed: " +:+ hipGetErrorString hip err).
Proof.
  unfold CopyTensorsImpl.
  destruct (hipSetDevice hip (device_id_ impl) h) as [err h0] eqn:Hset.
  apply hipSetDevice_calls in Hset.
  case_bool_decide as Herr.
  - intros [= <- <- <-]. left. split; [done|]. by exists err.
  - intros Hcopy. right.
    apply copy_tensors_spec in Hcopy
      as (copied & rest & calls & -> & Hcopied
          & src & dst & rest' & -> & Hcalls).
    exists copied, src, dst, rest', calls. split_and!; [done..|].
    destruct Hcalls as [Hcalls | (c & err' & Hc & Hcalls & Herr')];
      rewrite Hset, <- !app_assoc in Hcalls; simpl in Hcalls;
      [by left|right]. by exists c, err'.
Qed.

End DataTransferProofs.

(** From host memory to the default memory of a GPU. *)
Lemma CanCopyImpl_iff_witness :
  DataTransfer.CanCopyImpl MoreSamples.cpu_memory MoreSamples.gpu_memory = true
  ∧ DataTransfer.kind_of OrtMemoryInfoDeviceType_CPU OrtMemoryInfoDeviceType_GPU
    = Some hipMemcpyHostToDevice.
Proof.
  destruct (CanCopyImpl_iff MoreSamples.cpu_memory MoreSamples.gpu_memory)
    as (Hiff & _ & Hkind & _).
  assert (DataTransfer.CanCopyImpl MoreSamples.cpu_memory MoreSamples.gpu_memory
          = true) as Hcan.
  { apply Hiff. split_and!.
    - intros [_ Hgpu]. discriminate Hgpu.
    - intros Hcpu. reflexivity.
    - intros Hgpu. reflexivity. }
  split; [exact Hcan|].
  apply (Hkind Hcan); [by left | by right].
Defined.

(** Four float32 elements from host memory to a GPU. *)
Lemma CopyTensorsImpl_success_witness :
  ∃ calls,
    hip_calls MoreSamples.uploaded.2
    = hip_calls MoreSamples.hip0 ++ call_hipSetDevice 0 :: calls
    ∧ Forall2 (λ pair c, copy_of pair.1 pair.2 c) [MoreSamples.upload] calls.
Proof.
  assert (DataTransfer.CopyTensorsImpl MoreSamples.hip_ok MoreSamples.transfer
            [MoreSamples.upload] MoreSamples.hip0
          = (StatusOK, MoreSamples.uploaded.2)) as Hrun
    by (vm_compute; reflexivity).
  exact (CopyTensorsImpl_success MoreSamples.hip_ok MoreSamples.transfer
           [MoreSamples.upload] MoreSamples.hip0 _ Hrun).
Defined.

(** The same copy with a runtime that has no device. *)
Lemma CopyTensorsImpl_failure_witness :
  hip_calls MoreSamples.not_uploaded.2 = [call_hipSetDevice 0].
Proof.
  assert (DataTransfer.CopyTensorsImpl MoreSamples.hip_without_device
            MoreSamples.transfer [MoreSamples.upload] MoreSamples.hip0
          = (StatusError ORT_EP_FAIL
               ("Failed to set HIP device: "
                +:+ hipGetErrorString MoreSamples.hip_without_device 101%Z),
             MoreSamples.not_uploaded.2)) as Hrun
    by (vm_compute; reflexivity).
  destruct (CopyTensorsImpl_failure MoreSamples.hip_without_device
              MoreSamples.transfer [MoreSamples.upload] MoreSamples.hip0
              _ _ _ Hrun)
    as [[Hcalls _] | (copied & src & dst & rest & calls & _ & _ & Hcalls)].
  - exact Hcalls.
  - vm_compute. reflexivity.
Defined.

(** * The factory *)

Section FactoryProofs.

Import Factory.

Context (ep_api : EpApi) (factory : HipDNNEpFactory).

Local Abbreviation is_gpu :=
  (λ device, HardwareDevice_Type device = OrtHardwareDeviceType_GPU).
Local Abbreviation is_cpu :=
  (λ device, HardwareDevice_Type device = OrtHardwareDeviceType_CPU).

Lemma gpu_devices_spec (devices : list OrtHardwareDevice) (max_ep_devices : nat)
    (ep_devices : list OrtEpDevice) s result :
  gpu_devices ep_api factory devices max_ep_devices ep_devices = (s, result) →
  ∃ more,
    result = ep_devices ++ more
    ∧ more `prefix_of`
        (gpu_ep_device factory
           <$> take (max_ep_devices - length ep_devices) (filter is_gpu devices))
    ∧ (s = StatusOK ∨ accepts_all ep_api →
       s = StatusOK
       ∧ more = gpu_ep_device factory
                  <$> take (max_ep_devices - length ep_devices)
                        (filter is_gpu devices)).
Proof.
  revert ep_devices.
  induction devices as [|device devices IH]; intros ep_devices; simpl.
  - intros [= <- <-]. exists []. rewrite app_nil_r, filter_nil, take_nil.
    by split_and!.
  - case_bool_decide as Hroom.
    2:{ intros [= <- <-]. exists []. rewrite app_nil_r.
        replace (max_ep_devices - length ep_devices) with 0 by lia.
        by split_and!. }
    rewrite filter_cons. case_bool_decide as Hgpu.
    2:{ rewrite decide_False by done. apply IH. }
    rewrite decide_True by done.
    assert (max_ep_devices - length ep_devices
            = S (max_ep_devices - length (ep_devices ++ [gpu_ep_device factory device])))
      as Hmax by (rewrite length_app; simpl; lia).
    unfold CreateEpDevice, EpDevice_AddAllocatorInfo, AddKeyValuePair. simpl.
    destruct (CreateEpDevice_status ep_api device) as [|code msg] eqn:Hcreate.
    2:{ intros [= <- <-]. exists []. rewrite app_nil_r.
        split_and!; [done|apply prefix_nil|].
        intros [|[Hacc _]]; [done|]. by rewrite Hacc in Hcreate. }
    destruct (AddAllocatorInfo_status ep_api _ (default_memory_info_ factory))
      as [|code msg] eqn:Hdefault.
    2:{ intros [= <- <-]. exists []. rewrite app_nil_r.
        split_and!; [done|apply prefix_nil|].
        intros [|[_ Hacc]]; [done|]. by rewrite Hacc in Hdefault. }
    destruct (AddAllocatorInfo_status ep_api _ (readonly_memory_info_ factory))
      as [|code msg] eqn:Hreadonly.
    2:{ intros [= <- <-]. exists []. rewrite app_nil_r.
        split_and!; [done|apply prefix_nil|].
        intros [|[_ Hacc]]; [done|]. by rewrite Hacc in Hreadonly. }
    intros Hrest. apply IH in Hrest as (more & -> & Hprefix & Hok).
    exists (gpu_ep_device factory device :: more).
    rewrite Hmax. simpl. split_and!.
    + by rewrite <- app_assoc.
    + by apply prefix_cons.
    + intros Hs. destruct (Hok Hs) as [-> ->]. done.
Qed.

Lemma cpu_device_spec (devices : list OrtHardwareDevice) (max_ep_devices : nat)
    (ep_devices : list OrtEpDevice) s result :
  cpu_device ep_api factory devices max_ep_devices ep_devices = (s, result) →
  ∃ more,
    result = ep_devices ++ more
    ∧ more `prefix_of`
        (cpu_ep_device factory
           <$> take (min 1 (max_ep_devices - length ep_devices))
                 (filter is_cpu devices))
    ∧ (s = StatusOK ∨ accepts_all ep_api →
       s = StatusOK
       ∧ more = cpu_ep_device factory
                  <$> take (min 1 (max_ep_devices - length ep_devices))
                        (filter is_cpu devices)).
Proof.
  induction devices as [|device devices IH]; simpl.
  - intros [= <- <-]. exists []. rewrite app_nil_r, filter_nil, take_nil.
    by split_and!.
  - case_bool_decide as Hroom.
    2:{ intros [= <- <-]. exists []. rewrite app_nil_r.
        replace (max_ep_devices - length ep_devices) with 0 by lia.
        by split_and!. }
    rewrite filter_cons. case_bool_decide as Hcpu.
    2:{ rewrite decide_False by done. apply IH. }
    rewrite decide_True by done.
    destruct (max_ep_devices - length ep_devices) as [|room] eqn:Hleft; [lia|].
    unfold CreateEpDevice, EpDevice_AddAllocatorInfo, AddKeyValuePair. simpl.
    destruct (CreateEpDevice_status ep_api device) as [|code msg] eqn:Hcreate.
    2:{ intros [= <- <-]. exists []. rewrite app_nil_r.
        split_and!; [done|apply prefix_nil|].
        intros [|[Hacc _]]; [done|]. by rewrite Hacc in Hcreate. }
    destruct (AddAllocatorInfo_status ep_api _ (default_memory_info_ factory))
      as [|code msg] eqn:Hdefault.
    2:{ intros [= <- <-]. exists []. rewrite app_nil_r.
        split_and!; [done|apply prefix_nil|].
        intros [|[_ Hacc]]; [done|]. by rewrite Hacc in Hdefault. }
    intros [= <- <-]. exists [cpu_ep_device factory device].
    by split_and!.
Qed.

(** X15. The devices [GetSupportedDevicesImpl] hands back. With a host that
    lets every call succeed the call succeeds and hands back the selection:
    an entry for each of the first GPU devices of the list, in order and
    as many as there is room for, each with the backend metadata, the
    device id option and the default and the read-only allocator info; and
    when that leaves nothing, an entry for the first CPU device, if there
    is room for one, with the backend metadata, no options and the
    default allocator info only. With any host, what is handed back is a
    prefix of the selection, all of it when the call succeeds, and never
    more than there is room for. *)
Theorem GetSupportedDevicesImpl_selection (devices : list OrtHardwareDevice)
    (max_ep_devices : nat) s ep_devices :
  GetSupportedDevicesImpl ep_api factory devices max_ep_devices = (s, ep_devices) →
  ep_devices `prefix_of` selected_devices factory devices max_ep_devices
  ∧ (length ep_devices ≤ max_ep_devices)%nat
  ∧ (length ep_devices ≤ length devices)%nat
  ∧ (s = StatusOK ∨ accepts_all ep_api →
     s = StatusOK
     ∧ ep_devices = selected_devices factory devices max_ep_devices).
Proof.
  unfold GetSupportedDevicesImpl. intros Hrun.
  assert (ep_devices `prefix_of` selected_devices factory devices max_ep_devices
          ∧ (s = StatusOK ∨ accepts_all ep_api →
             s = StatusOK
             ∧ ep_devices = selected_devices factory devices max_ep_devices))
    as [Hprefix Hok].
  { unfold selected_devices. revert Hrun.
    destruct (gpu_devices _ _ _ _ _) as [s1 gpus] eqn:Hgpus.
    apply gpu_devices_spec in Hgpus as (more & -> & Hprefix & Hok).
    simpl in *. rewrite Nat.sub_0_r in *.
    destruct s1 as [|code msg].
    - destruct (Hok (or_introl eq_refl)) as [_ ->].
      rewrite length_fmap.
      destruct (take max_ep_devices (filter is_gpu devices)) as [|gpu gpus];
        simpl.
      + intros Hcpu.
        apply cpu_device_spec in Hcpu as (more & -> & Hprefix' & Hok').
        simpl in *. by rewrite Nat.sub_0_r in *.
      + intros [= <- <-]. by split.
    - intros [= <- <-]. split.
      + destruct (take max_ep_devices (filter is_gpu devices)); [|done].
        simpl in *. apply prefix_nil_inv in Hprefix. rewrite Hprefix.
        apply prefix_nil.
      + intros Hs. by destruct (Hok Hs). }
  split_and!; [done| | |done].
  - apply prefix_length in Hprefix. etrans; [done|].
    unfold selected_devices.
    destruct (take max_ep_devices _) as [|gpu gpus] eqn:Htake.
    + rewrite length_fmap, length_take. lia.
    + rewrite <- Htake, length_fmap, length_take. lia.
  - apply prefix_length in Hprefix. etrans; [done|].
    unfold selected_devices.
    destruct (take max_ep_devices _) as [|gpu gpus] eqn:Htake.
    + rewrite length_fmap, length_take.
      pose proof (length_filter is_cpu devices). lia.
    + rewrite <- Htake, length_fmap, length_take.
      pose proof (length_filter is_gpu devices). lia.
Qed.

End FactoryProofs.

Section FactoryAllocator.

Import Factory.

Lemma CreateAllocatorImpl_existing (memory_info : OrtMemoryInfo)
    (factory : HipDNNEpFactory) allocator :
  device_allocator_ factory = Some allocator →
  CreateAllocatorImpl memory_info factory = (StatusOK, allocator, factory).
Proof.
  unfold CreateAllocatorImpl. intros Hsome. rewrite Hsome.
  destruct factory. simpl in *. by subst.
Qed.

Lemma create_allocators_existing (memory_infos : list OrtMemoryInfo)
    (factory : HipDNNEpFactory) allocator :
  device_allocator_ factory = Some allocator →
  create_allocators memory_infos factory = factory.
Proof.
  intros Hsome. unfold create_allocators.
  induction memory_infos as [|memory_info memory_infos IH]; [done|].
  cbn [foldl]. by rewrite (CreateAllocatorImpl_existing _ _ _ Hsome).
Qed.

(** X16. The factory has one allocator. The first call of
    [CreateAllocatorImpl] creates it, for the memory info of that call and
    the factory's device, with nothing tracked; every later call hands out
    that same allocator and leaves the factory as it is, whatever memory
    info it is called with: the allocator's [InfoImpl] stays the memory
    info of the first call, and what the allocator tracks is not reset. *)
Theorem CreateAllocatorImpl_once (factory : HipDNNEpFactory) :
  (∀ memory_info,
     device_allocator_ factory = None →
     CreateAllocatorImpl memory_info factory
     = (StatusOK,
        Allocator.new_HipDeviceAllocator memory_info (device_id_ factory),
        (CreateAllocatorImpl memory_info factory).2)
     ∧ device_allocator_ (CreateAllocatorImpl memory_info factory).2
       = Some (Allocator.new_HipDeviceAllocator memory_info
                 (device_id_ factory)))
  ∧ (∀ memory_info allocator,
       device_allocator_ factory = Some allocator →
       CreateAllocatorImpl memory_info factory = (StatusOK, allocator, factory))
  ∧ (∀ first later memory_info,
       device_allocator_ factory = None →
       let factory' := create_allocators (first :: later) factory in
       CreateAllocatorImpl memory_info factory'
       = (StatusOK,
          Allocator.new_HipDeviceAllocator first (device_id_ factory),
          factory')
       ∧ Allocator.InfoImpl (CreateAllocatorImpl memory_info factory').1.2
         = first).
Proof.
  split_and!.
  - intros memory_info Hnone. unfold CreateAllocatorImpl. by rewrite Hnone.
  - intros memory_info allocator. apply CreateAllocatorImpl_existing.
  - intros first later memory_info Hnone. cbv zeta.
    assert (device_allocator_ (CreateAllocatorImpl first factory).2
            = Some (Allocator.new_HipDeviceAllocator first (device_id_ factory)))
      as Hfirst by (unfold CreateAllocatorImpl; by rewrite Hnone).
    assert (create_allocators (first :: later) factory
            = (CreateAllocatorImpl first factory).2) as ->
      by (unfold create_allocators; cbn [foldl];
          by eapply create_allocators_existing).
    by rewrite (CreateAllocatorImpl_existing memory_info _ _ Hfirst).
Qed.

End FactoryAllocator.

(** A CPU device and two GPU devices with room for one entry: the first
    GPU device is selected. *)
Lemma GetSupportedDevicesImpl_selection_witness :
  Factory.GetSupportedDevicesImpl MoreSamples.accepting_host
    MoreSamples.factory0
    [MoreSamples.cpu0; MoreSamples.gpu 0; MoreSamples.gpu 1] 1
  = (StatusOK, [gpu_ep_device MoreSamples.factory0 (MoreSamples.gpu 0)]).
Proof.
  destruct (Factory.GetSupportedDevicesImpl MoreSamples.accepting_host
              MoreSamples.factory0
              [MoreSamples.cpu0; MoreSamples.gpu 0; MoreSamples.gpu 1] 1)
    as [s ep_devices] eqn:Hrun.
  destruct (GetSupportedDevicesImpl_selection MoreSamples.accepting_host
              MoreSamples.factory0
              [MoreSamples.cpu0; MoreSamples.gpu 0; MoreSamples.gpu 1] 1
              s ep_devices Hrun) as (_ & _ & _ & Hok).
  destruct Hok as [-> ->]; [right; by split|]. reflexivity.
Defined.

(** The allocator is asked for with the default memory info, then with the
    read-only one. *)
Lemma CreateAllocatorImpl_once_witness :
  Allocator.InfoImpl
    (Factory.CreateAllocatorImpl
       (Factory.readonly_memory_info_ MoreSamples.factory0)
       (create_allocators
          [Factory.default_memory_info_ MoreSamples.factory0]
          MoreSamples.factory0)).1.2
  = Factory.default_memory_info_ MoreSamples.factory0.
Proof.
  destruct (CreateAllocatorImpl_once MoreSamples.factory0) as (_ & _ & Hlater).
  exact (proj2 (Hlater (Factory.default_memory_info_ MoreSamples.factory0) []
                  (Factory.readonly_memory_info_ MoreSamples.factory0)
                  eq_refl)).
Defined.

(** * The float tensor test *)

(** X17. [IsFloatTensor] is the test on the element type that
    [GetTensorElementType] reads: its result is true exactly when that
    element type is float32, and it throws exactly when reading the element
    type throws, the same exception. A value that is not a tensor is not a
    float tensor, and neither is a float16 tensor, which the translation
    accepts. *)
Theorem IsFloatTensor_element_type (value_info : ValueInfo) :
  (∀ elem_type,
     GetTensorElementType value_info = Val elem_type →
     IsFloatTensor value_info
     = Val (bool_decide (elem_type = ONNX_TENSOR_ELEMENT_DATA_TYPE_FLOAT)))
  ∧ (∀ e, GetTensorElementType value_info = Raise e →
          IsFloatTensor value_info = Raise e)
  ∧ (GetTensorElementType value_info
     = Val ONNX_TENSOR_ELEMENT_DATA_TYPE_FLOAT16 →
     IsFloatTensor value_info = Val false
     ∧ ToHipDNNDataType ONNX_TENSOR_ELEMENT_DATA_TYPE_FLOAT16 = Some HALF).
Proof.
  assert (∀ elem_type,
            GetTensorElementType value_info = Val elem_type →
            IsFloatTensor value_info
            = Val (bool_decide
                     (elem_type = ONNX_TENSOR_ELEMENT_DATA_TYPE_FLOAT))) as Hval.
  { unfold GetTensorElementType, IsFloatTensor. intros elem_type.
    destruct (vi_TypeInfo value_info) as [type_info|]; simpl; [|done].
    destruct (GetONNXType type_info) as [onnx_type|]; simpl; [|done].
    case_bool_decide.
    - by intros [= <-].
    - destruct (GetTensorTypeAndShapeInfo type_info) as [type_shape|];
        simpl; [|done].
      intros ->. simpl. by repeat case_bool_decide. }
  split_and!; [done| |].
  - unfold GetTensorElementType, IsFloatTensor. intros e.
    destruct (vi_TypeInfo value_info) as [type_info|]; simpl; [|by intros [= ->]].
    destruct (GetONNXType type_info) as [onnx_type|]; simpl; [|by intros [= ->]].
    case_bool_decide; [done|].
    destruct (GetTensorTypeAndShapeInfo type_info) as [type_shape|];
      simpl; [|by intros [= ->]].
    by intros ->.
  - intros Hhalf. by rewrite (Hval _ Hhalf).
Qed.

(** The float32 input of the sample graph. *)
Lemma IsFloatTensor_element_type_witness :
  IsFloatTensor Samples.X = Val true.
Proof.
  destruct (IsFloatTensor_element_type Samples.X) as (Hval & _).
  exact (Hval ONNX_TENSOR_ELEMENT_DATA_TYPE_FLOAT eq_refl).
Defined.

(** * The vendor graph that translation builds *)

Section GraphProofs.

Context {VS : Type}.
Implicit Types (k : Kernel VS).

Lemma wp_conj {A} (c : KM VS A) (Q1 Q2 : A → Kernel VS → Prop)
    (E1 E2 : Kernel VS → Prop) k :
  wp True c Q1 E1 k → wp True c Q2 E2 k →
  wp True c (λ a k', Q1 a k' ∧ Q2 a k') (λ k', E1 k' ∧ E2 k') k.
Proof. unfold wp. by destruct (c k). Qed.

Lemma resolves_to_snoc_eq (names : list string) (name : string) (attr : nat) :
  resolves_to (names ++ [name]) name attr ↔ attr = length names.
Proof.
  unfold resolves_to. split.
  - intros [Hattr Hlast].
    destruct (decide (attr < length names)%nat) as [Hlt|Hge].
    + destruct (Hlast (length names) Hlt). by apply list_lookup_middle.
    + apply lookup_lt_Some in Hattr. rewrite length_app in Hattr.
      simpl in Hattr. lia.
  - intros ->. split; [by apply list_lookup_middle|].
    intros j Hj. rewrite lookup_ge_None_2; [done|].
    rewrite length_app. simpl. lia.
Qed.

Lemma resolves_to_snoc_ne (names : list string) (name other : string)
    (attr : nat) :
  name ≠ other →
  resolves_to (names ++ [other]) name attr ↔ resolves_to names name attr.
Proof.
  intros Hne. unfold resolves_to. split.
  - intros [Hattr Hlast]. split.
    + apply lookup_app_Some in Hattr as [Hattr | [_ Hattr]]; [done|].
      apply list_lookup_singleton_Some in Hattr as [_ ->]. done.
    + intros j Hj Hname. apply (Hlast j Hj). by apply lookup_app_l_Some.
  - intros [Hattr Hlast]. split; [by apply lookup_app_l_Some|].
    intros j Hj Hname.
    apply lookup_app_Some in Hname as [Hname | [_ Hname]].
    + by apply (Hlast j Hj).
    + apply list_lookup_singleton_Some in Hname as [_ ->]. done.
Qed.

(** The symbol table after [symbol_table_[name] = attr] for a new tensor
    object. *)
Lemma table_insert_resolves (table : gmap string TensorAttrPtr)
    (names : list string) (name : string) :
  (∀ name' attr, table !! name' = Some attr ↔ resolves_to names name' attr) →
  ∀ name' attr,
    <[name := length names]> table !! name' = Some attr
    ↔ resolves_to (names ++ [name]) name' attr.
Proof.
  intros Htable name' attr.
  destruct (decide (name' = name)) as [->|Hne].
  - rewrite lookup_insert_eq, resolves_to_snoc_eq. naive_solver.
  - rewrite lookup_insert_ne by done. rewrite resolves_to_snoc_ne by done.
    apply Htable.
Qed.

Lemma translate_graph_input_graph_inv k0 ins input k :
  TranslationInv k0 ins [] [] k →
  GraphInv ins [] [] k →
  wp True (translate_graph_input input)
     (λ _, GraphInv (ins ++ [input]) [] []) (λ _, True) k.
Proof.
  intros H G. pose proof (inv_length _ _ _ _ _ H) as Hlen. simpl in Hlen.
  rewrite Nat.add_0_r in Hlen.
  unfold translate_graph_input, CreateTensorAttr.
  wp_steps; try done.
  rewrite alter_last in *. clear H4.
  rewrite H0 in H3. injection H3 as <-.
  rename a into name, l into shape, a1 into elem, d into dtype.
  destruct G as [Gt Gtab Gone Gol Gops Gvirt].
  split; kernel_simpl.
  - unfold produced_values in *. simpl in *. rewrite app_nil_r in *.
    apply Forall2_app; [done|]. repeat constructor.
    by exists name, shape, elem, dtype.
  - rewrite fmap_app. simpl. rewrite <- (length_fmap ta_name (tensors k)).
    by apply table_insert_resolves.
  - done.
  - done.
  - intros j node op Hj. done.
  - intros i a Hi. rewrite length_app. simpl.
    apply lookup_app_Some in Hi as [Hi | [Hge Hi]].
    + pose proof (lookup_lt_Some _ _ _ Hi) as Hlt.
      split; [intros _; left; lia|]. intros _.
      apply (Gvirt i a Hi). left. lia.
    + apply list_lookup_singleton_Some in Hi as [Hi <-]. simpl.
      split; [intros _; left; lia|done].
Qed.

Lemma take_2_lookup {A} (l : list A) (a b : A) :
  l !! 0%nat = Some a → l !! 1%nat = Some b →
  take 2 l = [a; b] ∧ length (take 2 l) = 2%nat.
Proof. destruct l as [|? [|? ?]]; naive_solver. Qed.

Lemma GetComputeDataType_Some x_dtype w_dtype compute_dtype :
  GetComputeDataType x_dtype w_dtype = Some compute_dtype →
  compute_dtype = FLOAT.
Proof.
  unfold GetComputeDataType. destruct (_ && _); naive_solver.
Qed.

Lemma conv_of_app (names more : list string) (position : nat) node op :
  (position ≤ length names)%nat →
  conv_of names position node op → conv_of (names ++ more) position node op.
Proof. intros Hle. unfold conv_of. by rewrite take_app_le. Qed.

(** [AddNode] on a run that goes on: the node is a Conv node, and the
    operation added to the graph takes the first two input tensor objects
    and the attributes of the node. *)
Lemma AddNode_conv_spec node (input_attrs : list TensorAttrPtr) k :
  wp True (AddNode node input_attrs)
     (λ output_attrs k',
        GetOperatorType node = Val "Conv"
        ∧ ∃ x_attr w_attr more pads op,
            input_attrs = x_attr :: w_attr :: more
            ∧ NormalizePads (GetIntsAttrOrDefault node "pads" [0; 0; 0; 0]%Z)
              = Some pads
            ∧ op_x op = x_attr ∧ op_w op = w_attr
            ∧ op_y op = length (tensors k)
            ∧ conv_padding (op_attrs op) = take 2 pads
            ∧ conv_stride (op_attrs op)
              = take 2 (GetIntsAttrOrDefault node "strides" [1; 1]%Z)
            ∧ length (conv_stride (op_attrs op)) = 2%nat
            ∧ conv_dilation (op_attrs op)
              = take 2 (GetIntsAttrOrDefault node "dilations" [1; 1]%Z)
            ∧ length (conv_dilation (op_attrs op)) = 2%nat
            ∧ conv_convolution_mode (op_attrs op) = CROSS_CORRELATION
            ∧ conv_compute_data_type (op_attrs op) = FLOAT
            ∧ output_attrs = [length (tensors k)]
            ∧ k' = with_graph (graph_ops k ++ [op]) (graph_state k)
                     (with_tensors
                        (tensors k
                         ++ [set_is_virtual true new_TensorAttributes]) k))
     (λ _, True) k.
Proof.
  unfold AddNode, AddConvNode, conv_fprop.
  wp_steps; try done.
  split; [by apply bool_decide_eq_true_1 in Heqb; subst|].
  apply GetComputeDataType_Some in Heqo0 as ->.
  destruct (take_2_lookup _ _ _ H2 H3) as [Hpads _].
  destruct (take_2_lookup _ _ _ H4 H5) as [Hstrides Hstrides2].
  destruct (take_2_lookup _ _ _ H6 H7) as [Hdilations Hdilations2].
  eexists _, _, _, _, _. split_and!; [..|reflexivity]; simpl; try done.
Qed.

Lemma translate_node_graph_inv k0 ins nodes node k :
  TranslationInv k0 ins nodes [] k →
  GraphInv ins nodes [] k →
  wp True (translate_node node)
     (λ _, GraphInv ins (nodes ++ [node]) []) (λ _, True) k.
Proof.
  intros H G. pose proof (inv_length _ _ _ _ _ H) as Hlen.
  unfold translate_node.
  wp_step. wp_step; [|done]. rename a into node_inputs, H0 into Hinputs.
  wp_step.
  eapply wp_mono;
    [apply (wp_map_each _ _ _
              (λ input attr, ∃ name, vi_GetName input = Val name
                                     ∧ symbol_table_ k !! name = Some attr)
              (λ k', k' = k)); [done|]
    | | done].
  { intros input k' _ Hk'. simpl in Hk'. subst k'.
    eapply wp_mono; [apply lookup_node_input_spec| |].
    - by intros attr k' [-> Hattr].
    - by intros k' ->. }
  intros input_attrs k' [Hattrs Hk']. simpl in Hk'. subst k'.
  wp_step.
  eapply wp_mono; [apply AddNode_conv_spec| |done].
  intros output_attrs k'
    (Hconv & x_attr & w_attr & more & pads & op & -> & Hpads & Hx & Hw & Hy
     & Hpadding & Hstride & Hstride2 & Hdilation & Hdilation2 & Hmode
     & Hcompute & -> & ->).
  cbv beta. kernel_simpl.
  wp_steps; try done.
  apply bool_decide_eq_false, dec_stable in Heqb. simpl in Heqb.
  destruct a as [|node_output [|]]; simplify_eq/=.
  unfold tag_node_output. wp_steps; try done.
  simplify_eq/=. rewrite alter_last.
  rename a into y, a0 into y_name, a1 into elem, d into dtype, l into shape.
  assert (produced_values (nodes ++ [node]) = produced_values nodes ++ [y])
    as Hpv.
  { unfold produced_values. rewrite bind_app. simpl.
    unfold declared_outputs at 2. by rewrite H0. }
  destruct G as [Gt Gtab Gone Gol Gops Gvirt].
  assert (length (tensors k) = length ins + length nodes) as Hn by lia.
  split; kernel_simpl; rewrite ?Hpv.
  - rewrite app_assoc. apply Forall2_app; [done|]. repeat constructor.
    by exists y_name, shape, elem, dtype.
  - rewrite fmap_app. simpl. rewrite <- (length_fmap ta_name (tensors k)).
    by apply table_insert_resolves.
  - rewrite !length_app. simpl. lia.
  - rewrite !length_app. simpl. lia.
  - intros j node' op' Hj Hop. rewrite fmap_app. simpl.
    destruct (decide (j < length nodes)%nat) as [Hlt|Hge].
    + rewrite lookup_app_l in Hj by lia. rewrite lookup_app_l in Hop by lia.
      apply conv_of_app; [rewrite length_fmap; lia|]. by apply Gops.
    + pose proof (lookup_lt_Some _ _ _ Hj) as Hj'.
      rewrite length_app in Hj'. simpl in Hj'.
      assert (j = length nodes) as -> by lia.
      rewrite list_lookup_middle in Hj by done.
      rewrite list_lookup_middle in Hop by done.
      injection Hj as <-. injection Hop as <-.
      apply Forall2_cons_inv_r in Hattrs
        as (x & inputs' & (x_name & Hxn & Hxa) & Hattrs & ->).
      apply Forall2_cons_inv_r in Hattrs
        as (w & inputs'' & (w_name & Hwn & Hwa) & Hattrs & ->).
      split; [done|].
      exists x, w, inputs'', y, x_name, w_name, pads.
      rewrite <- Hn, <- (length_fmap ta_name (tensors k)).
      rewrite take_app_le, take_ge by done.
      split_and!; try done.
      * by apply Gtab.
      * by apply Gtab.
      * by rewrite length_fmap.
  - intros i a Hi.
    apply lookup_app_Some in Hi as [Hi | [Hge Hi]].
    + rewrite (Gvirt i a Hi). split; (intros [Hlt | (? & ? & []%elem_of_nil & _)]);
        by left.
    + apply list_lookup_singleton_Some in Hi as [Hi <-]. simpl.
      split; [done|]. intros [Hlt | (? & ? & []%elem_of_nil & _)]. lia.
Qed.

Lemma translate_graph_output_graph_inv k0 ins nodes outs output k :
  TranslationInv k0 ins nodes outs k →
  GraphInv ins nodes outs k →
  wp True (translate_graph_output output)
     (λ _, GraphInv ins nodes (outs ++ [output])) (λ _, True) k.
Proof.
  intros H G.
  unfold translate_graph_output. wp_steps; try done.
  rename a into name, t into attr, l into shape.
  destruct G as [Gt Gtab Gone Gol Gops Gvirt].
  split; kernel_simpl;
    rewrite ?(fmap_alter_preserved ta_name) by done; try done.
  - apply Forall2_alter_r; [done|]. by intros value_info a _ _ Ha.
  - intros i a Hi. rewrite list_lookup_alter in Hi.
    case_decide as Hattr.
    + subst i. apply fmap_Some in Hi as (a' & Ha' & ->). simpl.
      split; [|done]. intros _. right. exists output, name.
      split_and!; [|done..]. apply elem_of_app. right. by left.
    + rewrite (Gvirt i a Hi). split.
      * intros [Hlt | (output' & name' & Hin & Hname' & Htable)];
          [by left|right].
        exists output', name'. split_and!; [|done..].
        apply elem_of_app. by left.
      * intros [Hlt | (output' & name' & Hin & Hname' & Htable)];
          [by left|right].
        apply elem_of_app in Hin as [Hin | Hin%list_elem_of_singleton].
        -- by exists output', name'.
        -- subst output'. exfalso. unfold TensorAttrPtr in *. congruence.
Qed.

(** Translation, started on a new kernel, builds the vendor graph of the
    graph's inputs, nodes and outputs as read from the host. *)
Lemma Translate_graph_inv (vendor : VendorApi VS) graph handle :
  wp True (Translate vendor graph)
     (λ _ k, ∃ ins outs nodes,
               graph_GetInputs graph = Val ins
               ∧ graph_GetOutputs graph = Val outs
               ∧ graph_GetNodes graph = Val nodes
               ∧ TranslationInv (new_Kernel vendor handle) ins nodes outs k
               ∧ GraphInv ins nodes outs k)
     (λ _, True) (new_Kernel vendor handle).
Proof.
  set (k0 := new_Kernel vendor handle).
  assert (TranslationInv k0 [] [] []
            (with_graph [] (v_new_graph vendor) k0)) as H0.
  { split; try done; kernel_simpl; constructor. }
  assert (GraphInv [] [] [] (with_graph [] (v_new_graph vendor) k0)) as G0.
  { split; kernel_simpl.
    - constructor.
    - intros name attr. unfold resolves_to. subst k0. simpl.
      rewrite lookup_empty. naive_solver.
    - done.
    - done.
    - done.
    - done. }
  unfold Translate. wp_step. wp_step. wp_step. wp_step; [|done].
  rename a into ins, H into Hins.
  wp_step. wp_step; [|done]. rename a into outs, H into Houts.
  wp_step.
  eapply wp_mono;
    [apply (wp_for_each _ _ _
              (λ visited k, TranslationInv k0 visited [] [] k
                            ∧ GraphInv visited [] [] k));
       [done|] | |done].
  { intros visited input rest k' _ [Hk' Gk'].
    eapply wp_mono;
      [apply wp_conj;
         [by apply (translate_graph_input_inv True)
         |by eapply translate_graph_input_graph_inv]
      |done|done]. }
  intros [] k1 [H1 G1]. cbv beta.
  wp_step. wp_step; [|done]. rename a into nodes, H into Hnodes.
  wp_step.
  eapply wp_mono;
    [apply (wp_for_each _ _ _
              (λ visited k, TranslationInv k0 ins visited [] k
                            ∧ GraphInv ins visited [] k));
       [done|] | |done].
  { intros visited node rest k' _ [Hk' Gk'].
    eapply wp_mono;
      [apply wp_conj;
         [apply (translate_node_inv True); [done|by left]
         |by eapply translate_node_graph_inv]
      |done|done]. }
  intros [] k2 [H2 G2]. cbv beta.
  eapply wp_mono;
    [apply (wp_for_each _ _ _
              (λ visited k, TranslationInv k0 ins nodes visited k
                            ∧ GraphInv ins nodes visited k));
       [done|] | |done].
  { intros visited output rest k' _ [Hk' Gk'].
    eapply wp_mono;
      [apply wp_conj;
         [by apply (translate_graph_output_inv True)
         |by eapply translate_graph_output_graph_inv]
      |done|done]. }
  intros [] k3 [H3 G3]. by exists ins, outs, nodes.
Qed.

Lemma GraphInv_same_translation ins nodes outs k k' :
  same_translation k k' → GraphInv ins nodes outs k → GraphInv ins nodes outs k'.
Proof.
  intros (Ht & _ & _ & _ & Hst & _ & _ & Hops) [Gt Gtab Gone Gol Gops Gvirt].
  split; unfold names in *; rewrite ?Ht, ?Hst, ?Hops; done.
Qed.

(** A kernel that [BuildAndCompile] accepted is a translation that ran to
    its end, compiled. *)
Lemma BuildAndCompile_translated (vendor : VendorApi VS) graph handle k' :
  BuildAndCompile vendor graph (new_Kernel vendor handle) = Done (StatusOK, k') →
  ∃ ins outs nodes k1,
    graph_GetInputs graph = Val ins
    ∧ graph_GetOutputs graph = Val outs
    ∧ graph_GetNodes graph = Val nodes
    ∧ TranslationInv (new_Kernel vendor handle) ins nodes outs k1
    ∧ GraphInv ins nodes outs k1
    ∧ same_translation k1 k'.
Proof.
  unfold BuildAndCompile, BuildAndCompile_try, km_bind.
  pose proof (Translate_graph_inv vendor graph handle) as Ht.
  unfold wp in Ht.
  destruct (Translate vendor graph _) as [[] k1| | |]; [|done..].
  destruct Ht as (ins & outs & nodes & Hins & Houts & Hnodes & Hinv & Ginv).
  pose proof (CompileGraph_same_translation True vendor k1) as Hc.
  unfold wp in Hc.
  destruct (CompileGraph vendor k1) as [[] k2| | |] eqn:Hcompile; [|done..].
  intros [= <-]. by exists ins, outs, nodes, k1.
Qed.

(** It holds the vendor graph of the graph it was given. *)
Lemma BuildAndCompile_graph (vendor : VendorApi VS) graph handle k' :
  BuildAndCompile vendor graph (new_Kernel vendor handle) = Done (StatusOK, k') →
  ∃ ins outs nodes,
    graph_GetInputs graph = Val ins
    ∧ graph_GetOutputs graph = Val outs
    ∧ graph_GetNodes graph = Val nodes
    ∧ length (tensors k') = length ins + length nodes
    ∧ GraphInv ins nodes outs k'.
Proof.
  intros Hok.
  apply BuildAndCompile_translated in Hok
    as (ins & outs & nodes & k1 & Hins & Houts & Hnodes & Hinv & Ginv & Hsame).
  exists ins, outs, nodes. split_and!; [done..| |].
  - destruct Hsame as [-> _]. rewrite (inv_length _ _ _ _ _ Hinv).
    by rewrite (ginv_one_output _ _ _ _ Ginv).
  - by eapply GraphInv_same_translation.
Qed.

(** X18. After a successful [BuildAndCompile] the kernel holds one tensor
    object per tensor value of the graph, first the declared graph inputs
    in order, then the outputs of the nodes in node order. Each object
    carries the name of its value, the value's shape as dimensions, the
    strides of the dense row-major layout of that shape, and the vendor
    data type of the value's element type, which is float32 or float16. *)
Theorem BuildAndCompile_tensors (vendor : VendorApi VS) graph handle k'
    ins nodes :
  BuildAndCompile vendor graph (new_Kernel vendor handle) = Done (StatusOK, k') →
  graph_GetInputs graph = Val ins →
  graph_GetNodes graph = Val nodes →
  Forall2 describes (ins ++ produced_values nodes) (tensors k')
  ∧ ∀ i value_info a,
      (ins ++ produced_values nodes) !! i = Some value_info →
      tensors k' !! i = Some a →
      ∃ shape,
        GetTensorShape value_info = Val (Some shape)
        ∧ vi_GetName value_info = Val (ta_name a)
        ∧ ta_dim a = shape
        ∧ ta_stride a = ComputeStrides shape
        ∧ (ta_data_type a = FLOAT ∨ ta_data_type a = HALF).
Proof.
  intros Hok Hins Hnodes.
  apply BuildAndCompile_graph in Hok
    as (ins' & outs & nodes' & Hins' & Houts & Hnodes' & _ & G).
  rewrite Hins in Hins'. injection Hins' as <-.
  rewrite Hnodes in Hnodes'. injection Hnodes' as <-.
  pose proof (ginv_tensors _ _ _ _ G) as Ht.
  split; [done|]. intros i value_info a Hi Ha.
  destruct (Forall2_lookup_lr _ _ _ _ _ _ Ht Hi Ha)
    as (name & shape & elem & dtype & Hname & Hshape & Helem & Hdtype
        & <- & <- & Hstride & <-).
  exists (ta_dim a). split_and!; [done..|].
  unfold ToHipDNNDataType in Hdtype.
  repeat case_bool_decide; naive_solver.
Qed.

(** X19. After a successful [BuildAndCompile] the vendor graph has exactly
    one convolution per node of the graph, in node order. Every node is a
    Conv node with at least two inputs and exactly one output. The
    operation of a node takes as operands the tensor objects that the names
    of the node's first two inputs resolved to when the node was reached,
    each the last object of that name created before the node; a third
    input is referred to nowhere. Its result is the tensor object created
    for the node's output. Its padding is the first two elements of the
    normalized pads, its stride and dilation are the first two elements of
    the node's strides and dilations, its mode is cross-correlation and its
    compute type float32. *)
Theorem BuildAndCompile_one_conv_per_node (vendor : VendorApi VS) graph handle
    k' ins nodes :
  BuildAndCompile vendor graph (new_Kernel vendor handle) = Done (StatusOK, k') →
  graph_GetInputs graph = Val ins →
  graph_GetNodes graph = Val nodes →
  length (graph_ops k') = length nodes
  ∧ length (tensors k') = length ins + length nodes
  ∧ ∀ j node,
      nodes !! j = Some node →
      ∃ op, graph_ops k' !! j = Some op
            ∧ conv_of (names k') (length ins + j) node op.
Proof.
  intros Hok Hins Hnodes.
  apply BuildAndCompile_graph in Hok
    as (ins' & outs & nodes' & Hins' & Houts & Hnodes' & Hlen & G).
  rewrite Hins in Hins'. injection Hins' as <-.
  rewrite Hnodes in Hnodes'. injection Hnodes' as <-.
  pose proof (ginv_ops_length _ _ _ _ G) as Hol.
  split_and!; [done..|]. intros j node Hj.
  destruct (lookup_lt_is_Some_2 (graph_ops k') j) as [op Hop].
  { apply lookup_lt_Some in Hj. lia. }
  exists op. split; [done|]. by eapply ginv_ops.
Qed.

Lemma resolves_to_exists (names : list string) (name : string) (i : nat) :
  names !! i = Some name →
  ∃ attr, resolves_to names name attr ∧ (i ≤ attr)%nat.
Proof.
  revert i. induction names as [|other names IH] using rev_ind; [done|].
  intros i Hi. destruct (decide (name = other)) as [->|Hne].
  - exists (length names). split; [by apply resolves_to_snoc_eq|].
    apply lookup_lt_Some in Hi. rewrite length_app in Hi. simpl in Hi. lia.
  - apply lookup_app_Some in Hi as [Hi | [_ Hi]].
    + destruct (IH i Hi) as (attr & Hattr & Hle). exists attr.
      split; [by apply resolves_to_snoc_ne|done].
    + apply list_lookup_singleton_Some in Hi as [_ ->]. done.
Qed.

(** X20. After a successful [BuildAndCompile] the symbol table resolves a
    name to a tensor object exactly when that object is the last one
    created under the name: the last definition of a name wins. So every
    declared graph input and every node output has its name in the table,
    resolved to its own tensor object or, when the name was defined again
    later, to the object of the last such definition; a name that occurs
    once resolves to the object of its value. *)
Theorem BuildAndCompile_symbol_table (vendor : VendorApi VS) graph handle k'
    ins nodes :
  BuildAndCompile vendor graph (new_Kernel vendor handle) = Done (StatusOK, k') →
  graph_GetInputs graph = Val ins →
  graph_GetNodes graph = Val nodes →
  (∀ name attr,
     symbol_table_ k' !! name = Some attr ↔ resolves_to (names k') name attr)
  ∧ (∀ i value_info,
       (ins ++ produced_values nodes) !! i = Some value_info →
       ∃ name attr,
         vi_GetName value_info = Val name
         ∧ names k' !! i = Some name
         ∧ symbol_table_ k' !! name = Some attr
         ∧ (i ≤ attr)%nat
         ∧ names k' !! attr = Some name
         ∧ ((∀ j, (i < j)%nat → names k' !! j ≠ Some name) → attr = i)).
Proof.
  intros Hok Hins Hnodes.
  apply BuildAndCompile_graph in Hok
    as (ins' & outs & nodes' & Hins' & Houts & Hnodes' & Hlen & G).
  rewrite Hins in Hins'. injection Hins' as <-.
  rewrite Hnodes in Hnodes'. injection Hnodes' as <-.
  pose proof (ginv_tensors _ _ _ _ G) as Ht.
  pose proof (ginv_table _ _ _ _ G) as Htable.
  split; [done|]. intros i value_info Hi.
  destruct (Forall2_lookup_l _ _ _ _ _ Ht Hi)
    as (a & Ha & name & shape & elem & dtype & Hname & _ & _ & _ & Hn & _).
  assert (names k' !! i = Some name) as Hni
    by (unfold names; by rewrite list_lookup_fmap, Ha, <- Hn).
  destruct (resolves_to_exists _ _ _ Hni) as (attr & Hattr & Hle).
  exists name, attr. split_and!; [done|done|by apply Htable|done|apply Hattr|].
  intros Hlast. destruct (decide (i = attr)) as [->|Hne]; [done|].
  destruct (Hlast attr); [lia|apply Hattr].
Qed.

Lemma nth_uid_inj (N i j : nat) :
  (Z.of_nat N < 2 ^ 63)%Z → (i < N)%nat → (j < N)%nat →
  nth_uid i = nth_uid j → i = j.
Proof.
  intros HN Hi Hj. rewrite !nth_uid_small by lia. lia.
Qed.

(** X21. After a successful [BuildAndCompile] the tensor objects that are
    not virtual are those of the declared graph inputs and those that the
    names of the declared graph outputs resolve to; the result of a node
    that is not a graph output stays virtual. With fewer than 2^63 tensor
    values, so that uids do not repeat, a tensor object is not virtual
    exactly when its uid is among the input uids and output uids, the uids
    that [Execute] binds to buffers. *)
Theorem BuildAndCompile_virtual_tensors (vendor : VendorApi VS) graph handle k'
    ins outs nodes :
  BuildAndCompile vendor graph (new_Kernel vendor handle) = Done (StatusOK, k') →
  graph_GetInputs graph = Val ins →
  graph_GetOutputs graph = Val outs →
  graph_GetNodes graph = Val nodes →
  (∀ i a,
     tensors k' !! i = Some a →
     (ta_is_virtual a = false
      ↔ (i < length ins)%nat
        ∨ ∃ output name,
            output ∈ outs ∧ vi_GetName output = Val name
            ∧ symbol_table_ k' !! name = Some i))
  ∧ ((Z.of_nat (length ins + length nodes) < 2 ^ 63)%Z →
     ∀ a, a ∈ tensors k' →
          (ta_is_virtual a = false
           ↔ ta_uid a ∈ input_uids_ k' ++ output_uids_ k')).
Proof.
  intros Hok Hins Houts Hnodes.
  apply BuildAndCompile_translated in Hok
    as (ins' & outs' & nodes' & k1 & Hins' & Houts' & Hnodes' & Hinv & Ginv
        & Hsame).
  rewrite Hins in Hins'. injection Hins' as <-.
  rewrite Houts in Houts'. injection Houts' as <-.
  rewrite Hnodes in Hnodes'. injection Hnodes' as <-.
  pose proof (GraphInv_same_translation _ _ _ _ _ Hsame Ginv) as G.
  pose proof (ginv_virtual _ _ _ _ G) as Hvirt.
  split; [done|]. intros HN a Ha.
  apply list_elem_of_lookup in Ha as [i Hi].
  pose proof (inv_length _ _ _ _ _ Hinv) as Hlen.
  rewrite (ginv_one_output _ _ _ _ Ginv) in Hlen.
  destruct Hsame as (Ht & Hiu & Hou & _ & Hst & _).
  pose proof (inv_uids _ _ _ _ _ Hinv) as Hu.
  rewrite (ginv_one_output _ _ _ _ Ginv) in Hu.
  unfold uids in Hu. rewrite <- Ht in Hu, Hlen.
  pose proof (lookup_lt_Some _ _ _ Hi) as Hlt.
  assert (∀ j b, tensors k' !! j = Some b → ta_uid b = nth_uid j) as Huid.
  { intros j b Hb.
    assert ((ta_uid <$> tensors k') !! j = Some (ta_uid b)) as Hj
      by (by rewrite list_lookup_fmap, Hb).
    rewrite Hu, list_lookup_fmap in Hj.
    apply fmap_Some in Hj as (j' & Hj' & ->).
    by apply lookup_seq in Hj' as [-> _]. }
  rewrite (Hvirt i a Hi), (Huid i a Hi), Hiu, Hou.
  rewrite (inv_input_uids _ _ _ _ _ Hinv).
  pose proof (inv_output_uids _ _ _ _ _ Hinv) as Hout.
  unfold uids in Hout. rewrite <- Ht, <- Hst in Hout.
  rewrite elem_of_app. split.
  - intros [Hin | (output & name & Hel & Hname & Htable)].
    + left. apply list_elem_of_fmap. exists i. split; [done|].
      apply elem_of_seq. lia.
    + right. apply list_elem_of_lookup in Hel as [o Ho].
      destruct (Forall2_lookup_r _ _ _ _ _ Hout Ho)
        as (uid & Huido & name' & attr & Hname' & Hattr & Hlook).
      rewrite Hname in Hname'. injection Hname' as <-.
      unfold TensorAttrPtr in *. rewrite Htable in Hattr.
      injection Hattr as <-.
      rewrite list_lookup_fmap, Hi in Hlook. simpl in Hlook.
      injection Hlook as <-. rewrite <- (Huid i a Hi).
      by eapply list_elem_of_lookup_2.
  - intros [Hin | Hin].
    + left. apply list_elem_of_fmap in Hin as (j & Hj & Hel).
      apply elem_of_seq in Hel.
      apply (nth_uid_inj (length ins + length nodes)) in Hj; [|done|lia..].
      lia.
    + right. apply list_elem_of_lookup in Hin as [o Ho].
      destruct (Forall2_lookup_l _ _ _ _ _ Hout Ho)
        as (output & Houtput & name & attr & Hname & Hattr & Hlook).
      exists output, name. split_and!; [by eapply list_elem_of_lookup_2|done|].
      unfold TensorAttrPtr in *. rewrite Hattr. f_equal.
      rewrite list_lookup_fmap in Hlook.
      apply fmap_Some in Hlook as (b & Hb & Hbu).
      rewrite (Huid _ _ Hb) in Hbu.
      apply lookup_lt_Some in Hb.
      by apply (nth_uid_inj (length ins + length nodes)) in Hbu; [|done|lia..].
Qed.

Lemma produced_values_lookup (nodes : list Node) j node y :
  (∀ j node, nodes !! j = Some node → ∃ y, node_GetOutputs node = Val [y]) →
  nodes !! j = Some node →
  node_GetOutputs node = Val [y] →
  produced_values nodes !! j = Some y.
Proof.
  revert j. induction nodes as [|node' nodes IH]; intros j Hall Hj Hy; [done|].
  unfold produced_values. simpl. fold (produced_values nodes).
  destruct j as [|j]; simpl in Hj.
  - injection Hj as ->. unfold declared_outputs. by rewrite Hy.
  - destruct (Hall 0 node' eq_refl) as [y' Hy'].
    unfold declared_outputs. rewrite Hy'. simpl.
    apply IH; [|done..]. intros j' node'' Hj'. by apply (Hall (S j')).
Qed.

Lemma conv_of_one_output (names : list string) position node op :
  conv_of names position node op → ∃ y, node_GetOutputs node = Val [y].
Proof. intros (_ & x & w & more & y & ? & ? & ? & _ & Hy & _). by exists y. Qed.

(** Every node of a graph that translation ran through is translatable. *)
Lemma GraphInv_translatable ins nodes outs k :
  GraphInv ins nodes outs k → Forall translatable nodes.
Proof.
  intros G. apply Forall_lookup. intros j node Hj.
  pose proof (ginv_ops_length _ _ _ _ G) as Hol.
  destruct (lookup_lt_is_Some_2 (graph_ops k) j) as [op Hop].
  { apply lookup_lt_Some in Hj. lia. }
  pose proof (ginv_ops _ _ _ _ G j node op Hj Hop) as Hconv.
  assert (∀ j node, nodes !! j = Some node →
                    ∃ y, node_GetOutputs node = Val [y]) as Hall.
  { intros j' node' Hj'.
    destruct (lookup_lt_is_Some_2 (graph_ops k) j') as [op' Hop'].
    { apply lookup_lt_Some in Hj'. lia. }
    eapply conv_of_one_output. by eapply (ginv_ops _ _ _ _ G). }
  destruct Hconv
    as (Hop_type & x & w & more & y & x_name & w_name & pads & Hinputs & Houtputs
        & _ & _ & _ & _ & _ & Hpads & _ & Hstride & Hstride2 & Hdilation
        & Hdilation2 & _).
  pose proof (produced_values_lookup _ _ _ _ Hall Hj Houtputs) as Hy.
  assert ((ins ++ produced_values nodes) !! (length ins + j)%nat = Some y)
    as Hy' by (rewrite lookup_app_r by lia;
               by replace (length ins + j - length ins)%nat with j by lia).
  destruct (Forall2_lookup_l _ _ _ _ _ (ginv_tensors _ _ _ _ G) Hy')
    as (a & _ & name & shape & elem & dtype & _ & Hshape & Helem & Hdtype & _).
  split_and!.
  - done.
  - exists (x :: w :: more). split; [done|]. simpl. lia.
  - by exists y, shape, elem, dtype.
  - by rewrite Hpads.
  - rewrite Hstride in Hstride2. rewrite Hdilation in Hdilation2.
    rewrite length_take in Hstride2, Hdilation2.
    unfold conv_attrs_in_range. lia.
Qed.

(** X22. What translation rejects. When some node of the graph is not a
    Conv node, or has fewer than two inputs, or has not exactly one output,
    or has an output without static shape or of an element type other than
    float32 and float16, or has pads of a length other than 2 and 4, or
    strides or dilations of fewer than 2 elements, [BuildAndCompile] on a
    new kernel does not succeed. It returns an error status and no vendor
    build stage has been called; the one other outcome is a run without
    defined behaviour, which cannot happen when the strides and dilations
    of all nodes have the two elements that are read from them. *)
Theorem BuildAndCompile_rejects (vendor : VendorApi VS) graph handle nodes node :
  graph_GetNodes graph = Val nodes →
  node ∈ nodes →
  ¬ translatable node →
  (BuildAndCompile vendor graph (new_Kernel vendor handle) = UndefinedBehaviour
   ∨ ∃ code msg k',
       BuildAndCompile vendor graph (new_Kernel vendor handle)
       = Done (StatusError code msg, k')
       ∧ vendor_calls k' = [])
  ∧ (Forall conv_attrs_in_range nodes →
     ∃ code msg k',
       BuildAndCompile vendor graph (new_Kernel vendor handle)
       = Done (StatusError code msg, k')
       ∧ vendor_calls k' = []).
Proof.
  intros Hnodes Hin Hnot.
  assert (∀ k1, Translate vendor graph (new_Kernel vendor handle)
                ≠ Normal tt k1) as Hfail.
  { intros k1 Hk1.
    pose proof (Translate_graph_inv vendor graph handle) as Ht.
    unfold wp in Ht. rewrite Hk1 in Ht.
    destruct Ht as (ins & outs & nodes' & _ & _ & Hnodes' & _ & G).
    rewrite Hnodes in Hnodes'. injection Hnodes' as <-.
    apply Hnot. eapply Forall_forall; [|done].
    by eapply GraphInv_translatable. }
  pose proof (BuildAndCompile_translation_fails vendor graph handle Hfail)
    as Hresult.
  split; [done|]. intros Hrange.
  destruct Hresult as [Hub | Herr]; [exfalso | done].
  apply (Translate_defined vendor graph handle).
  - intros ins nodes' visited node' rest _ Hnodes' -> _.
    rewrite Hnodes in Hnodes'. injection Hnodes' as ->.
    apply Forall_app in Hrange as [_ Hrange].
    by apply Forall_cons in Hrange as [? _].
  - revert Hub. unfold BuildAndCompile, BuildAndCompile_try, km_bind.
    destruct (Translate vendor graph _) as [[] k1| | |]; [|done..].
    by destruct (Hfail k1).
Qed.

End GraphProofs.

(** The single Conv subgraph: the tensor objects of X, W and Y. *)
Lemma BuildAndCompile_tensors_witness :
  Forall2 describes [Samples.X; Samples.W; Samples.Y]
    (tensors Samples.compiled_kernel).
Proof.
  assert (BuildAndCompile (Samples.ok_vendor 0) Samples.conv_graph
            (new_Kernel (Samples.ok_vendor 0) 7)
          = Done (StatusOK, Samples.compiled_kernel)) as Hok
    by (vm_compute; reflexivity).
  exact (proj1 (BuildAndCompile_tensors (Samples.ok_vendor 0)
                  Samples.conv_graph 7 Samples.compiled_kernel
                  [Samples.X; Samples.W] [Samples.conv0] Hok eq_refl eq_refl)).
Defined.

(** The single Conv subgraph: one convolution, whose result is the third
    tensor object. *)
Lemma BuildAndCompile_one_conv_per_node_witness :
  length (graph_ops Samples.compiled_kernel) = 1%nat
  ∧ ∃ op, graph_ops Samples.compiled_kernel !! 0%nat = Some op
          ∧ conv_of (names Samples.compiled_kernel) 2 Samples.conv0 op.
Proof.
  assert (BuildAndCompile (Samples.ok_vendor 0) Samples.conv_graph
            (new_Kernel (Samples.ok_vendor 0) 7)
          = Done (StatusOK, Samples.compiled_kernel)) as Hok
    by (vm_compute; reflexivity).
  destruct (BuildAndCompile_one_conv_per_node (Samples.ok_vendor 0)
              Samples.conv_graph 7 Samples.compiled_kernel
              [Samples.X; Samples.W] [Samples.conv0] Hok eq_refl eq_refl)
    as (Hlen & _ & Hops).
  split; [exact Hlen|]. exact (Hops 0%nat Samples.conv0 eq_refl).
Defined.

(** The single Conv subgraph: the name Y resolves to the third tensor
    object. *)
Lemma BuildAndCompile_symbol_table_witness :
  symbol_table_ Samples.compiled_kernel !! "Y" = Some 2%nat.
Proof.
  assert (BuildAndCompile (Samples.ok_vendor 0) Samples.conv_graph
            (new_Kernel (Samples.ok_vendor 0) 7)
          = Done (StatusOK, Samples.compiled_kernel)) as Hok
    by (vm_compute; reflexivity).
  destruct (BuildAndCompile_symbol_table (Samples.ok_vendor 0)
              Samples.conv_graph 7 Samples.compiled_kernel
              [Samples.X; Samples.W] [Samples.conv0] Hok eq_refl eq_refl)
    as [_ Hvalues].
  destruct (Hvalues 2%nat Samples.Y eq_refl)
    as (name & attr & Hname & _ & Htable & _ & _ & Hlast).
  injection Hname as <-. rewrite Htable. f_equal. apply Hlast.
  intros j Hj. rewrite lookup_ge_None_2; [discriminate|].
  vm_compute length. lia.
Defined.

(** The single Conv subgraph: its three tensor objects are bound at
    execution, none is virtual. *)
Lemma BuildAndCompile_virtual_tensors_witness :
  Forall (λ a, ta_is_virtual a = false
               ↔ ta_uid a ∈ input_uids_ Samples.compiled_kernel
                            ++ output_uids_ Samples.compiled_kernel)
    (tensors Samples.compiled_kernel).
Proof.
  assert (BuildAndCompile (Samples.ok_vendor 0) Samples.conv_graph
            (new_Kernel (Samples.ok_vendor 0) 7)
          = Done (StatusOK, Samples.compiled_kernel)) as Hok
    by (vm_compute; reflexivity).
  apply Forall_forall.
  apply (BuildAndCompile_virtual_tensors (Samples.ok_vendor 0)
           Samples.conv_graph 7 Samples.compiled_kernel
           [Samples.X; Samples.W] [Samples.Y] [Samples.conv0]
           Hok eq_refl eq_refl eq_refl).
  simpl. lia.
Defined.

(** A subgraph of a Relu node is rejected before compilation. *)
Lemma BuildAndCompile_rejects_witness :
  ∃ code msg k',
    BuildAndCompile (Samples.ok_vendor 0) MoreSamples.relu_graph
      (new_Kernel (Samples.ok_vendor 0) 7)
    = Done (StatusError code msg, k')
    ∧ vendor_calls k' = [].
Proof.
  assert (Samples.relu_node ∈ [Samples.relu_node]) as Hin by left.
  assert (¬ translatable Samples.relu_node) as Hnot
    by (intros [Hop _]; discriminate Hop).
  destruct (BuildAndCompile_rejects (Samples.ok_vendor 0)
              MoreSamples.relu_graph 7 [Samples.relu_node] Samples.relu_node
              eq_refl Hin Hnot) as [_ Herror].
  apply Herror. repeat constructor; vm_compute; lia.
Defined.
